(** * pyson: a JSON text decoder (lexer and recursive-descent parser)

    Shallow embedding of [pyson/pyson/pyson.py] (first variant, tokens carry
    copied and decoded text), [pyson/src/pyson2.py] (second variant, the
    same tokens, a lexer that looks its functions up in a table) and
    [pyson/src/pyson3.py] (third variant, tokens carry source offsets),
    with the properties of the decoder stated and proved over the
    embedding.

    - Python exceptions are modelled by an error monad; an exception is
      its class and, for [ValueError], its message.
    - [while] loops are fuel-indexed fixpoints; the fuel that [lex] and
      [parse] give them is shown to suffice ([lex_total], [loads_total]).
    - The attribute [self.i] of the parser, its cursor, is passed and
      returned explicitly.
    - A text is a [string]: a sequence of characters, each an [ascii]; a
      character that is none of those the lexer tests takes the default
      case wherever it occurs.
    - The interpreter bounds the depth of the call stack.  The
      definitions of [Pyson3] and [Pyson] take the stack as unbounded;
      their modules [Stack] carry the number of nested calls still allowed
      and raise [RecursionError] at a call for which none is left.  The
      two differ by that exception only ([refines_loads3],
      [refines_loads1]), and not at all on a stack that is deep enough
      ([loads_enough3], [loads_enough1]). *)

From Stdlib Require Import String Ascii List ZArith Lia Bool Arith.
From Stdlib Require Import Floats.SpecFloat.
Import ListNotations.
Local Open Scope string_scope.
Local Open Scope list_scope.

(** ** Outcomes of a Python computation *)

Inductive TokenType : Set :=
| L_CURLY | R_CURLY | L_BRACKET | R_BRACKET | COLON | COMMA
| STRING | NUMBER | BOOLEAN | NULL.

Definition TokenType_eqb (a b : TokenType) : bool :=
  match a, b with
  | L_CURLY, L_CURLY | R_CURLY, R_CURLY | L_BRACKET, L_BRACKET
  | R_BRACKET, R_BRACKET | COLON, COLON | COMMA, COMMA
  | STRING, STRING | NUMBER, NUMBER | BOOLEAN, BOOLEAN | NULL, NULL => true
  | _, _ => false
  end.

(** The text of an exception.  [Plain] is a bare message as the lexer and
    the builtins raise it.  [Context] is the structured content of the
    f-string that [Parser._error] builds:
    [f"{msg}, {prior_tokens=}, {self.i=}, value={self.tokens[self.i]}"]. *)
Inductive message (T : Type) : Type :=
| Plain (msg : string)
| Context (msg : string) (prior_tokens : list T) (i : nat) (value : T).
Arguments Plain {T} msg.
Arguments Context {T} msg prior_tokens i value.

(** The exception classes the decoder can raise. *)
Inductive exn (T : Type) : Type :=
| ValueError (m : message T)
| IndexError
| AttributeError
| AssertionError
| OverflowError
| RecursionError.
Arguments ValueError {T} m.
Arguments IndexError {T}.
Arguments AttributeError {T}.
Arguments AssertionError {T}.
Arguments OverflowError {T}.
Arguments RecursionError {T}.

(** [Ok a]: the computation returns [a]; [Raise e]: it raises [e];
    [OutOfFuel]: the fuel given to a loop of the model was too small (shown
    below never to happen for [lex] and [parse]). *)
Inductive result (T A : Type) : Type :=
| Ok (a : A)
| Raise (e : exn T)
| OutOfFuel.
Arguments Ok {T A} a.
Arguments Raise {T A} e.
Arguments OutOfFuel {T A}.

Definition bind {T A B} (c : result T A) (k : A -> result T B) : result T B :=
  match c with
  | Ok a => k a
  | Raise e => Raise e
  | OutOfFuel => OutOfFuel
  end.

Notation "x <- c ;; k" := (bind c (fun x => k))
  (at level 61, c at next level, right associativity).
Notation "' p <- c ;; k" := (bind c (fun x => let 'p := x in k))
  (at level 61, p pattern, c at next level, right associativity).

Definition raised {T A} (r : result T A) : Prop :=
  exists e, r = Raise e.

(** Library code that nests [n] calls, run when [depth] more nested calls
    are allowed: it raises [RecursionError] when they do not suffice. *)
Definition nested_calls {T} (n depth : nat) : result T unit :=
  if (depth <? n)%nat then Raise RecursionError else Ok tt.

(** ** Python builtins used by the decoder *)

Definition dquote : ascii := "034"%char.
Definition backslash : ascii := "\"%char.

(** [s[i]] for a non-negative [i]. *)
Definition str_index {T} (s : string) (i : nat) : result T ascii :=
  match String.get i s with
  | Some c => Ok c
  | None => Raise IndexError
  end.

(** [s[a:b]] for non-negative [a] and [b]: slicing clamps, it never raises. *)
Definition str_slice (s : string) (a b : nat) : string :=
  String.substring a (b - a) s.

(** [l[i]] for a non-negative [i]. *)
Definition list_index {T A} (l : list A) (i : nat) : result T A :=
  match nth_error l i with
  | Some x => Ok x
  | None => Raise IndexError
  end.

(** [l[a:b]] for integers [a] and [b]: a negative bound counts from the end,
    then both are clamped to [0 .. len(l)]. *)
Definition slice_bound (len i : Z) : Z :=
  if (i <? 0)%Z then Z.max 0 (len + i) else Z.min len i.

Definition list_slice {A} (l : list A) (a b : Z) : list A :=
  let len := Z.of_nat (List.length l) in
  let lo := Z.to_nat (slice_bound len a) in
  let hi := Z.to_nat (slice_bound len b) in
  firstn (hi - lo) (skipn lo l).

(** [c in chars] for a set of characters written as a string. *)
Definition char_in (c : ascii) (chars : string) : bool :=
  existsb (Ascii.eqb c) (list_ascii_of_string chars).

(** [x in chars] when [x] is a string: only a one-character string can be a
    member of a set of characters. *)
Definition str_in (x : string) (chars : string) : bool :=
  match x with
  | String c EmptyString => char_in c chars
  | _ => false
  end.

(** [sub in s] for strings. *)
Fixpoint contains (sub s : string) : bool :=
  String.prefix sub s ||
  match s with
  | EmptyString => false
  | String _ s' => contains sub s'
  end.

(** [s.replace(old, new)]: every non-overlapping occurrence of [old], from
    the left.  [skip] counts the characters of a matched occurrence that are
    still to be dropped. *)
Fixpoint replace_from (old new : string) (skip : nat) (s : string) : string :=
  match s with
  | EmptyString => EmptyString
  | String c s' =>
      match skip with
      | S k => replace_from old new k s'
      | O =>
          if String.prefix old s
          then new ++ replace_from old new (String.length old - 1) s'
          else String c (replace_from old new 0 s')
      end
  end.

Fixpoint intersperse (new s : string) : string :=
  match s with
  | EmptyString => new
  | String c s' => new ++ String c (intersperse new s')
  end.

Definition replace (old new s : string) : string :=
  match old with
  | EmptyString => intersperse new s
  | _ => replace_from old new 0 s
  end.

(** [s.split(sep)]: an empty separator raises [ValueError]. *)
Fixpoint split_from (sep : string) (skip : nat) (cur s : string) : list string :=
  match s with
  | EmptyString => [cur]
  | String c s' =>
      match skip with
      | S k => split_from sep k cur s'
      | O =>
          if String.prefix sep s
          then cur :: split_from sep (String.length sep - 1) EmptyString s'
          else split_from sep 0 (cur ++ String c EmptyString) s'
      end
  end.

Definition str_split {T} (s sep : string) : result T (list string) :=
  match sep with
  | EmptyString => Raise (ValueError (Plain "empty separator"))
  | _ => Ok (split_from sep 0 EmptyString s)
  end.

(** [a, b, c, d = l]: unpacking into four names. *)
Definition unpack4 {T A} (l : list A) : result T (A * A * A * A) :=
  match l with
  | [a; b; c; d] => Ok (a, b, c, d)
  | _ :: _ :: _ :: _ :: _ :: _ =>
      Raise (ValueError (Plain "too many values to unpack (expected 4)"))
  | _ => Raise (ValueError (Plain "not enough values to unpack"))
  end.

(** ** Floating-point numbers

    A Python [float] is an IEEE 754 binary64 number, here a [spec_float]
    with precision 53 and maximal exponent 1024. *)

Definition prec : Z := 53.
Definition emax : Z := 1024.

(** The binary64 number nearest to [d * 10^e] (ties to even) for a natural
    [d], with the sign [neg].  For a negative [e] the quotient is computed
    with at least 63 significant bits and a sticky bit, which rounds as the
    exact quotient does. *)
Definition float_of_decimal (neg : bool) (d e : Z) : spec_float :=
  let signed (m : Z) := if neg then Z.opp m else m in
  if (d =? 0)%Z then S754_zero neg
  else if (0 <=? e)%Z then
    binary_normalize prec emax (signed (d * 10 ^ e)%Z) 0 neg
  else
    let den := (10 ^ (- e))%Z in
    let k := Z.max 0 (Z.log2 den - Z.log2 d + 64) in
    let num := (d * 2 ^ k)%Z in
    let sticky := if (num mod den =? 0)%Z then 0%Z else 1%Z in
    binary_normalize prec emax (signed (2 * (num / den) + sticky)%Z) (- (k + 1)) neg.

Definition DIGITS : string := "0123456789".

Definition digit_value (c : ascii) : Z := Z.of_nat (nat_of_ascii c - 48).

(** The longest prefix of decimal digits, and what follows it. *)
Fixpoint take_digits (s : string) : string * string :=
  match s with
  | EmptyString => (EmptyString, EmptyString)
  | String c s' =>
      if char_in c DIGITS
      then let (ds, rest) := take_digits s' in (String c ds, rest)
      else (EmptyString, s)
  end.

Fixpoint digits_value (acc : Z) (ds : string) : Z :=
  match ds with
  | EmptyString => acc
  | String c ds' => digits_value (10 * acc + digit_value c) ds'
  end.

Definition take_sign (s : string) : bool * string :=
  match s with
  | String "-" s' => (true, s')
  | String "+" s' => (false, s')
  | _ => (false, s)
  end.

(** [float(s)] on the texts that reach it: the decoder calls it on the span
    of a NUMBER token, which holds characters of [NUMERIC] only, so that the
    text is a decimal literal
    [[sign] (digits [. [digits]] | . digits) [(e|E) [sign] digits]]
    or is refused with [ValueError], whose message shows the text as
    [repr] gives it: between single quotes, since it holds no character
    that [repr] escapes.  (White space, underscores and the words inf and
    nan, which [float] also reads, cannot occur there.) *)
Definition float_message (s : string) : string :=
  "could not convert string to float: '" ++ s ++ "'".

Definition py_float {T} (s : string) : result T spec_float :=
  let invalid := Raise (ValueError (Plain (float_message s))) in
  let (neg, s1) := take_sign s in
  let (ip, s2) := take_digits s1 in
  let (fp, s3) :=
    match s2 with
    | String "." r => take_digits r
    | _ => (EmptyString, s2)
    end in
  let d := digits_value 0 (ip ++ fp) in
  let scale := Z.of_nat (String.length fp) in
  if (String.length ip + String.length fp =? 0)%nat then invalid
  else
    match s3 with
    | EmptyString => Ok (float_of_decimal neg d (- scale))
    | String c r =>
        if char_in c "eE" then
          let (eneg, r1) := take_sign r in
          let (ed, r2) := take_digits r1 in
          match ed, r2 with
          | String _ _, EmptyString =>
              let x := digits_value 0 ed in
              Ok (float_of_decimal neg d ((if eneg then - x else x) - scale))
          | _, _ => invalid
          end
        else invalid
    end.

(** [int(f)] for a float [f]: truncation towards zero. *)
Definition py_int {T} (f : spec_float) : result T Z :=
  match f with
  | S754_zero _ => Ok 0%Z
  | S754_finite s m e =>
      let a := Z.shiftl (Zpos m) e in
      Ok (if s then Z.opp a else a)
  | S754_infinity _ => Raise OverflowError
  | S754_nan => Raise (ValueError (Plain "cannot convert float NaN to integer"))
  end.

(** ** Values

    [Value = Union[str, int, float, Array, Object, None, True, False]].  An
    [Object] is a Python [dict]: keys are unique and kept in insertion
    order. *)

#[warnings="-register-all"]
Inductive Value : Type :=
| VStr (s : string)
| VInt (z : Z)
| VFloat (f : spec_float)
| VArray (items : list Value)
| VObject (items : list (string * Value))
| VNone
| VBool (b : bool).

Definition Object : Type := list (string * Value).
Definition Array : Type := list Value.

(** [key in d] *)
Definition dict_mem {V} (key : string) (d : list (string * V)) : bool :=
  existsb (fun kv => String.eqb key (fst kv)) d.

(** [d.get(key)] *)
Fixpoint dict_get {V} (key : string) (d : list (string * V)) : option V :=
  match d with
  | [] => None
  | (k, v) :: d' => if String.eqb key k then Some v else dict_get key d'
  end.

(** [d[key] = v]: a bound key keeps its place, a new one goes last. *)
Fixpoint dict_set {V} (key : string) (v : V) (d : list (string * V)) : list (string * V) :=
  match d with
  | [] => [(key, v)]
  | (k, v') :: d' =>
      if String.eqb key k then (k, v) :: d' else (k, v') :: dict_set key v d'
  end.

(** [key in known_keys] and [known_keys.add(key)] for a [set[str]]. *)
Definition set_mem (key : string) (s : list string) : bool :=
  existsb (String.eqb key) s.

Definition set_add (key : string) (s : list string) : list string :=
  if set_mem key s then s else key :: s.

(** The character tables of the lexer. *)
Definition WHITESPACE : string :=
  String " " (String "008" (String "009" (String "013" (String "010" (String "012" EmptyString))))).
Definition HEXDIGITS : string := "0123456789abcdefABCDEF".
Definition NUMERIC : string := "0123456789.eE+-".

(** The escape replacements applied to the raw text of a string literal, in
    the order of the source. *)
Definition str1 (c : ascii) : string := String c EmptyString.
Definition esc (c : ascii) : string := String backslash (String c EmptyString).

Definition decode_escapes (raw : string) : string :=
  replace (esc "u") "u"
    (replace (esc "t") (str1 "009")
       (replace (esc "r") (str1 "013")
          (replace (esc "n") (str1 "010")
             (replace (esc "f") (str1 "012")
                (replace (esc "b") (str1 "008")
                   (replace (esc "/") "/"
                      (replace (esc dquote) (str1 dquote)
                         (replace (esc backslash) (str1 backslash) raw)))))))).

(** Test inputs are written with ['] standing for the double quote. *)
Fixpoint dq (s : string) : string :=
  match s with
  | EmptyString => EmptyString
  | String c s' => String (if Ascii.eqb c "'" then dquote else c) (dq s')
  end.

(** ** Third variant: [pyson/src/pyson3.py] *)

Module Pyson3.

(** [Token(type, start, end)]: a kind and a half-open span of the source. *)
Record Token : Set := mkToken { type : TokenType; start : nat; end_ : nat }.

Definition res (A : Type) : Type := result Token A.

(** *** [lex] *)

(** The inner loop of the string case, [while json: v = json[idx] ...], as
    a function of [idx]; it returns the index after the closing quote.  The
    loop condition [json] is constantly true there: the case is entered on
    [json[i]], so the text is not empty. *)
Fixpoint scan_string (fuel : nat) (json : string) (idx : nat) : res nat :=
  match fuel with
  | O => OutOfFuel
  | S fuel' =>
      v <- str_index json idx ;;
      if Ascii.eqb v dquote then Ok (idx + 1)
      else if Ascii.eqb v backslash then
        n <- str_index json (idx + 1) ;;
        if char_in n (String dquote "\/bfnrt") then scan_string fuel' json (idx + 2)
        else if Ascii.eqb n "u" then
          let unicodes := str_slice json (idx + 2) (idx + 6) in
          parts <- str_split unicodes "" ;;
          '(hx1, hx2, hx3, hx4) <- unpack4 parts ;;
          if negb (str_in hx1 HEXDIGITS && str_in hx2 HEXDIGITS
                   && str_in hx3 HEXDIGITS && str_in hx4 HEXDIGITS)
          then Raise (ValueError (Plain "Invalid unicode sequence"))
          else scan_string fuel' json (idx + 6)
        else Raise (ValueError (Plain "Invalid string escaping"))
      else scan_string fuel' json (idx + 1)
  end.

(** The loop of the numeric case, [while json[i] in NUMERIC: i += 1]. *)
Fixpoint scan_number (fuel : nat) (json : string) (i : nat) : res nat :=
  match fuel with
  | O => OutOfFuel
  | S fuel' =>
      c <- str_index json i ;;
      if char_in c NUMERIC then scan_number fuel' json (i + 1) else Ok i
  end.

(** The body of the main loop: the [match value] statement at position [i].
    It returns the token it appends, if any, and the next value of [i]. *)
Definition lex_step (json : string) (i : nat) : res (option Token * nat) :=
  value <- str_index json i ;;
  if Ascii.eqb value "{" then Ok (Some (mkToken L_CURLY i (i + 1)), i + 1)
  else if Ascii.eqb value "}" then Ok (Some (mkToken R_CURLY i (i + 1)), i + 1)
  else if Ascii.eqb value "[" then Ok (Some (mkToken L_BRACKET i (i + 1)), i + 1)
  else if Ascii.eqb value "]" then Ok (Some (mkToken R_BRACKET i (i + 1)), i + 1)
  else if Ascii.eqb value ":" then Ok (Some (mkToken COLON i (i + 1)), i + 1)
  else if Ascii.eqb value "," then Ok (Some (mkToken COMMA i (i + 1)), i + 1)
  else if Ascii.eqb value "t" then
    if negb (String.eqb (str_slice json i (i + 4)) "true")
    then Raise (ValueError (Plain "Invalid true value"))
    else Ok (Some (mkToken BOOLEAN i (i + 4)), i + 4)
  else if Ascii.eqb value "f" then
    if negb (String.eqb (str_slice json i (i + 5)) "false")
    then Raise (ValueError (Plain "Invalid false value"))
    else Ok (Some (mkToken BOOLEAN i (i + 5)), i + 5)
  else if Ascii.eqb value "n" then
    if negb (String.eqb (str_slice json i (i + 4)) "null")
    then Raise (ValueError (Plain "Invalid null value"))
    else Ok (Some (mkToken NULL i (i + 4)), i + 4)
  else if Ascii.eqb value dquote then
    idx <- scan_string (S (String.length json)) json (i + 1) ;;
    Ok (Some (mkToken STRING i idx), idx)
  else if char_in value NUMERIC then
    let start := i in
    i <- scan_number (S (String.length json)) json i ;;
    Ok (Some (mkToken NUMBER start i), i)
  else Ok (None, i + 1).

(** The main loop, [while i < total_len]. *)
Fixpoint lex_loop (fuel : nat) (json : string) (tokens : list Token) (i : nat)
  : res (list Token) :=
  match fuel with
  | O => OutOfFuel
  | S fuel' =>
      if (i <? String.length json)%nat then
        '(token, i) <- lex_step json i ;;
        match token with
        | Some t => lex_loop fuel' json (tokens ++ [t]) i
        | None => lex_loop fuel' json tokens i
        end
      else Ok tokens
  end.

Definition lex (json : string) : res (list Token) :=
  lex_loop (S (String.length json)) json [] 0.

(** *** [Parser] *)

Section Parser.

(** The attributes [self.tokens] and [self.json]; [self.length] is
    [len(self.tokens)].  The attribute [self.i] is passed explicitly. *)
Variable tokens : list Token.
Variable json : string.

Definition length : nat := List.length tokens.

(** [_error]: [i] is [None] while the attribute [self.i] has not been
    assigned, and reading it raises [AttributeError]. *)
Definition _error (i : option nat) (msg : string) : res (message Token) :=
  match i with
  | None => Raise AttributeError
  | Some i =>
      let prior_tokens := list_slice tokens (Z.of_nat i - 2) (Z.of_nat i) in
      value <- list_index tokens i ;;
      Ok (Context msg prior_tokens i value)
  end.

Definition get_string (t : Token) : string :=
  str_slice json (start t) (end_ t).

Definition normalized_string (t : Token) : string :=
  decode_escapes (get_string t).

(** The end of [parse_value]:
    [if self.tokens[self.i].type == TokenType.COMMA: self.i += 1]. *)
Definition consume_comma (r : Value * nat) : res (Value * nat) :=
  let (value, i) := r in
  t <- list_index tokens i ;;
  if TokenType_eqb (type t) COMMA then Ok (value, i + 1) else Ok (value, i).

(** [parse_value_match] is the [match t.type] statement of [parse_value];
    the two loops are those of [parse_object] and [parse_array], with the
    local variables [result] and [known_keys] as arguments.  Each returns
    its value and the new [self.i]. *)
Fixpoint parse_value_match (fuel : nat) (i : nat) : res (Value * nat) :=
  match fuel with
  | O => OutOfFuel
  | S fuel' =>
      t <- list_index tokens i ;;
      match type t with
      | STRING => Ok (VStr (normalized_string t), i + 1)
      | NUMBER =>
          let string := get_string t in
          as_float <- py_float string ;;
          if contains "." string then Ok (VFloat as_float, i + 1)
          else z <- py_int as_float ;; Ok (VInt z, i + 1)
      | L_CURLY =>
          '(o, i) <- parse_object_loop fuel' [] [] (i + 1) ;; Ok (VObject o, i)
      | L_BRACKET =>
          '(a, i) <- parse_array_loop fuel' [] (i + 1) ;; Ok (VArray a, i)
      | BOOLEAN => Ok (VBool (String.eqb (get_string t) "true"), i + 1)
      | NULL => Ok (VNone, i + 1)
      | _ => m <- _error (Some i) "Unknown tokentype" ;; Raise (ValueError m)
      end
  end

with parse_object_loop (fuel : nat) (result : Object) (known_keys : list string)
       (i : nat) : res (Object * nat) :=
  match fuel with
  | O => OutOfFuel
  | S fuel' =>
      if (i <? length)%nat then
        t <- list_index tokens i ;;
        match type t with
        | R_CURLY => Ok (result, i + 1)
        | STRING =>
            let key := normalized_string t in
            if String.eqb key "" then Raise AssertionError
            else if set_mem key known_keys then
              m <- _error (Some i) "Duplicate key found" ;; Raise (ValueError m)
            else
              let known_keys := set_add key known_keys in
              let i := i + 1 in
              c <- list_index tokens i ;;
              if negb (TokenType_eqb (type c) COLON) then
                m <- _error (Some i) "Expected colon" ;; Raise (ValueError m)
              else
                let i := i + 1 in
                r <- parse_value_match fuel' i ;;
                '(value, i) <- consume_comma r ;;
                parse_object_loop fuel' (dict_set key value result) known_keys i
        | _ => m <- _error (Some i) "Invalid object content" ;; Raise (ValueError m)
        end
      else Ok (result, i)
  end

with parse_array_loop (fuel : nat) (result : Array) (i : nat) : res (Array * nat) :=
  match fuel with
  | O => OutOfFuel
  | S fuel' =>
      if (i <? length)%nat then
        t <- list_index tokens i ;;
        match type t with
        | R_BRACKET => Ok (result, i + 1)
        | _ =>
            r <- parse_value_match fuel' i ;;
            '(value, i) <- consume_comma r ;;
            parse_array_loop fuel' (result ++ [value]) i
        end
      else Ok (result, i)
  end.

Definition parse_value (fuel : nat) (i : nat) : res (Value * nat) :=
  r <- parse_value_match fuel i ;; consume_comma r.

Definition parse_object (fuel : nat) (i : nat) : res (Object * nat) :=
  parse_object_loop fuel [] [] i.

Definition parse_array (fuel : nat) (i : nat) : res (Array * nat) :=
  parse_array_loop fuel [] i.

End Parser.

(** Fuel for the parser: twice the number of tokens and two. *)
Definition parse_fuel (tokens : list Token) : nat := 2 * List.length tokens + 2.

(** [Parser.parse], called on a fresh [Parser()], whose attribute [i] is
    not assigned before [self.i = 1]. *)
Definition parse (json : string) : res Value :=
  tokens <- lex json ;;
  if (List.length tokens <? 2)%nat then
    m <- _error tokens None "Too short to be valid" ;; Raise (ValueError m)
  else
    let i := 1 in
    t <- list_index tokens 0 ;;
    match type t with
    | L_CURLY =>
        '(o, _) <- parse_object tokens json (parse_fuel tokens) i ;; Ok (VObject o)
    | L_BRACKET =>
        '(a, _) <- parse_array tokens json (parse_fuel tokens) i ;; Ok (VArray a)
    | _ => m <- _error tokens (Some i) "Invalid input" ;; Raise (ValueError m)
    end.

Definition loads (json : string) : res Value := parse json.

(** *** The call stack

    The definitions above take the call stack as unbounded.  The
    interpreter bounds its depth and raises [RecursionError] at a call for
    which no level is left.  The definitions of [Stack] are those above
    with a [depth], the number of nested calls still allowed: each call of
    a function or method defined in the source takes one level, a builtin
    takes none, and [Token(...)] and the formatting of a token take the
    levels of the library code they run ([token_init], [token_repr]). *)

Module Stack.

Section Interpreter.

(** The nested calls that building a [Token] takes (the [__init__] that
    [@dataclass] generates) and those that formatting one takes (its
    generated [__repr__], which formats the token's kind). *)
Variable token_init : nat.
Variable token_repr : nat.

(** The main loop of [lex]: [Token(...)] is what a step evaluates last,
    before [tokens.append]. *)
Fixpoint lex_loop (depth fuel : nat) (json : string) (tokens : list Token) (i : nat)
  : res (list Token) :=
  match fuel with
  | O => OutOfFuel
  | S fuel' =>
      if (i <? String.length json)%nat then
        '(token, i) <- lex_step json i ;;
        match token with
        | Some t =>
            _ <- nested_calls token_init depth ;;
            lex_loop depth fuel' json (tokens ++ [t]) i
        | None => lex_loop depth fuel' json tokens i
        end
      else Ok tokens
  end.

Definition lex (depth : nat) (json : string) : res (list Token) :=
  match depth with
  | O => Raise RecursionError
  | S depth' => lex_loop depth' (S (String.length json)) json [] 0
  end.

Section Parser.

Variable tokens : list Token.
Variable json : string.

(** [repr] of a list of tokens formats each of them. *)
Definition format_tokens (depth : nat) (l : list Token) : res unit :=
  match l with
  | [] => Ok tt
  | _ :: _ => nested_calls token_repr depth
  end.

(** [_error]: the f-string formats [prior_tokens], then reads
    [self.tokens[self.i]] and formats it. *)
Definition _error (depth : nat) (i : option nat) (msg : string) : res (message Token) :=
  match depth with
  | O => Raise RecursionError
  | S depth' =>
      match i with
      | None => Raise AttributeError
      | Some i =>
          let prior_tokens := list_slice tokens (Z.of_nat i - 2) (Z.of_nat i) in
          _ <- format_tokens depth' prior_tokens ;;
          value <- list_index tokens i ;;
          _ <- format_tokens depth' [value] ;;
          Ok (Context msg prior_tokens i value)
      end
  end.

Definition get_string (depth : nat) (t : Token) : res string :=
  match depth with
  | O => Raise RecursionError
  | S _ => Ok (str_slice json (start t) (end_ t))
  end.

Definition normalized_string (depth : nat) (t : Token) : res string :=
  match depth with
  | O => Raise RecursionError
  | S depth' => raw <- get_string depth' t ;; Ok (decode_escapes raw)
  end.

(** The loops of [parse_object] and [parse_array].  [depth] is the depth
    left in the function that runs the loop, and [parse_value] is the call
    [self.parse_value()] made there. *)
Section Loops.

Variable depth : nat.
Variable parse_value : nat -> res (Value * nat).

Fixpoint parse_object_loop (fuel : nat) (result : Object) (known_keys : list string)
    (i : nat) : res (Object * nat) :=
  match fuel with
  | O => OutOfFuel
  | S fuel' =>
      if (i <? length tokens)%nat then
        t <- list_index tokens i ;;
        match type t with
        | R_CURLY => Ok (result, i + 1)
        | STRING =>
            key <- normalized_string depth t ;;
            if String.eqb key "" then Raise AssertionError
            else if set_mem key known_keys then
              m <- _error depth (Some i) "Duplicate key found" ;; Raise (ValueError m)
            else
              let known_keys := set_add key known_keys in
              let i := i + 1 in
              c <- list_index tokens i ;;
              if negb (TokenType_eqb (type c) COLON) then
                m <- _error depth (Some i) "Expected colon" ;; Raise (ValueError m)
              else
                let i := i + 1 in
                '(value, i) <- parse_value i ;;
                parse_object_loop fuel' (dict_set key value result) known_keys i
        | _ => m <- _error depth (Some i) "Invalid object content" ;; Raise (ValueError m)
        end
      else Ok (result, i)
  end.

Fixpoint parse_array_loop (fuel : nat) (result : Array) (i : nat) : res (Array * nat) :=
  match fuel with
  | O => OutOfFuel
  | S fuel' =>
      if (i <? length tokens)%nat then
        t <- list_index tokens i ;;
        match type t with
        | R_BRACKET => Ok (result, i + 1)
        | _ =>
            '(value, i) <- parse_value i ;;
            parse_array_loop fuel' (result ++ [value]) i
        end
      else Ok (result, i)
  end.

End Loops.

(** A loop moves the cursor forwards at each iteration and ends when it
    reaches [self.length]: one iteration for each token and one suffice. *)
Definition loop_fuel : nat := S (length tokens).

Fixpoint parse_value (depth : nat) (i : nat) : res (Value * nat) :=
  match depth with
  | O => Raise RecursionError
  | S depth' =>
      t <- list_index tokens i ;;
      r <- match type t with
           | STRING => value <- normalized_string depth' t ;; Ok (VStr value, i + 1)
           | NUMBER =>
               string <- get_string depth' t ;;
               as_float <- py_float string ;;
               if contains "." string then Ok (VFloat as_float, i + 1)
               else z <- py_int as_float ;; Ok (VInt z, i + 1)
           | L_CURLY => '(o, i) <- parse_object depth' (i + 1) ;; Ok (VObject o, i)
           | L_BRACKET => '(a, i) <- parse_array depth' (i + 1) ;; Ok (VArray a, i)
           | BOOLEAN =>
               string <- get_string depth' t ;;
               Ok (VBool (String.eqb string "true"), i + 1)
           | NULL => Ok (VNone, i + 1)
           | _ => m <- _error depth' (Some i) "Unknown tokentype" ;; Raise (ValueError m)
           end ;;
      consume_comma tokens r
  end

with parse_object (depth : nat) (i : nat) : res (Object * nat) :=
  match depth with
  | O => Raise RecursionError
  | S depth' => parse_object_loop depth' (parse_value depth') loop_fuel [] [] i
  end

with parse_array (depth : nat) (i : nat) : res (Array * nat) :=
  match depth with
  | O => Raise RecursionError
  | S depth' => parse_array_loop (parse_value depth') loop_fuel [] i
  end.

End Parser.

Definition parse (depth : nat) (json : string) : res Value :=
  match depth with
  | O => Raise RecursionError
  | S depth' =>
      tokens <- lex depth' json ;;
      if (List.length tokens <? 2)%nat then
        m <- _error tokens depth' None "Too short to be valid" ;; Raise (ValueError m)
      else
        let i := 1 in
        t <- list_index tokens 0 ;;
        match type t with
        | L_CURLY => '(o, _) <- parse_object tokens json depth' i ;; Ok (VObject o)
        | L_BRACKET => '(a, _) <- parse_array tokens json depth' i ;; Ok (VArray a)
        | _ => m <- _error tokens depth' (Some i) "Invalid input" ;; Raise (ValueError m)
        end
  end.

Definition loads (depth : nat) (json : string) : res Value :=
  match depth with
  | O => Raise RecursionError
  | S depth' => parse depth' json
  end.

End Interpreter.

End Stack.

End Pyson3.

(** ** First variant: [pyson/pyson/pyson.py] *)

Module Pyson.

(** [Token(type, value)]: a kind and, for literals, the text copied from
    the source ([None] for punctuation). *)
Record Token : Set := mkToken { type : TokenType; value : option string }.

Definition res (A : Type) : Type := result Token A.

(** *** [lex] *)

(** The inner loop of the string case.  [i] is the index of the opening
    quote; the loop returns the decoded text of [json[i:idx]] and the index
    after the closing quote. *)
Fixpoint scan_string (fuel : nat) (json : string) (i idx : nat) : res (string * nat) :=
  match fuel with
  | O => OutOfFuel
  | S fuel' =>
      v <- str_index json idx ;;
      if Ascii.eqb v dquote then
        let idx := idx + 1 in
        let string := decode_escapes (str_slice json i idx) in
        Ok (string, idx)
      else if Ascii.eqb v backslash then
        n <- str_index json (idx + 1) ;;
        if char_in n (String dquote "\/bfnrt") then scan_string fuel' json i (idx + 2)
        else if Ascii.eqb n "u" then
          let unicodes := str_slice json (idx + 2) (idx + 6) in
          parts <- str_split unicodes "" ;;
          '(hx1, hx2, hx3, hx4) <- unpack4 parts ;;
          if negb (str_in hx1 HEXDIGITS && str_in hx2 HEXDIGITS
                   && str_in hx3 HEXDIGITS && str_in hx4 HEXDIGITS)
          then Raise (ValueError (Plain "Invalid unicode sequence"))
          else scan_string fuel' json i (idx + 6)
        else Raise (ValueError (Plain "Invalid string escaping"))
      else scan_string fuel' json i (idx + 1)
  end.

Fixpoint scan_number (fuel : nat) (json : string) (i : nat) : res nat :=
  match fuel with
  | O => OutOfFuel
  | S fuel' =>
      c <- str_index json i ;;
      if char_in c NUMERIC then scan_number fuel' json (i + 1) else Ok i
  end.

Definition lex_step (json : string) (i : nat) : res (option Token * nat) :=
  value <- str_index json i ;;
  if Ascii.eqb value "{" then Ok (Some (mkToken L_CURLY None), i + 1)
  else if Ascii.eqb value "}" then Ok (Some (mkToken R_CURLY None), i + 1)
  else if Ascii.eqb value "[" then Ok (Some (mkToken L_BRACKET None), i + 1)
  else if Ascii.eqb value "]" then Ok (Some (mkToken R_BRACKET None), i + 1)
  else if Ascii.eqb value ":" then Ok (Some (mkToken COLON None), i + 1)
  else if Ascii.eqb value "," then Ok (Some (mkToken COMMA None), i + 1)
  else if Ascii.eqb value "t" then
    if negb (String.eqb (str_slice json i (i + 4)) "true")
    then Raise (ValueError (Plain "Invalid true value"))
    else Ok (Some (mkToken BOOLEAN (Some "true")), i + 4)
  else if Ascii.eqb value "f" then
    if negb (String.eqb (str_slice json i (i + 5)) "false")
    then Raise (ValueError (Plain "Invalid false value"))
    else Ok (Some (mkToken BOOLEAN (Some "false")), i + 5)
  else if Ascii.eqb value "n" then
    if negb (String.eqb (str_slice json i (i + 4)) "null")
    then Raise (ValueError (Plain "Invalid null value"))
    else Ok (Some (mkToken NULL (Some "null")), i + 4)
  else if Ascii.eqb value dquote then
    '(string, idx) <- scan_string (S (String.length json)) json i (i + 1) ;;
    Ok (Some (mkToken STRING (Some string)), idx)
  else if char_in value NUMERIC then
    let start := i in
    i <- scan_number (S (String.length json)) json i ;;
    Ok (Some (mkToken NUMBER (Some (str_slice json start i))), i)
  else Ok (None, i + 1).

Fixpoint lex_loop (fuel : nat) (json : string) (tokens : list Token) (i : nat)
  : res (list Token) :=
  match fuel with
  | O => OutOfFuel
  | S fuel' =>
      if (i <? String.length json)%nat then
        '(token, i) <- lex_step json i ;;
        match token with
        | Some t => lex_loop fuel' json (tokens ++ [t]) i
        | None => lex_loop fuel' json tokens i
        end
      else Ok tokens
  end.

Definition lex (json : string) : res (list Token) :=
  lex_loop (S (String.length json)) json [] 0.

(** *** [Parser] *)

Section Parser.

Variable tokens : list Token.

Definition length : nat := List.length tokens.

Definition _error (i : option nat) (msg : string) : res (message Token) :=
  match i with
  | None => Raise AttributeError
  | Some i =>
      let prior_tokens := list_slice tokens (Z.of_nat i - 2) (Z.of_nat i) in
      value <- list_index tokens i ;;
      Ok (Context msg prior_tokens i value)
  end.

(** [assert x] for an optional string: [None] and the empty string are
    false. *)
Definition assert_str (x : option string) : res string :=
  match x with
  | Some (String c s) => Ok (String c s)
  | _ => Raise AssertionError
  end.

(** [value = v.value] in the STRING case: the value is whatever the token
    holds, a string for the tokens [lex] builds. *)
Definition str_value (x : option string) : Value :=
  match x with
  | Some s => VStr s
  | None => VNone
  end.

(** [v.value == "true"] *)
Definition is_true (x : option string) : bool :=
  match x with
  | Some s => String.eqb s "true"
  | None => false
  end.

Definition consume_comma (r : Value * nat) : res (Value * nat) :=
  let (value, i) := r in
  t <- list_index tokens i ;;
  if TokenType_eqb (type t) COMMA then Ok (value, i + 1) else Ok (value, i).

Fixpoint parse_value_match (fuel : nat) (i : nat) : res (Value * nat) :=
  match fuel with
  | O => OutOfFuel
  | S fuel' =>
      v <- list_index tokens i ;;
      match type v with
      | STRING => Ok (str_value (value v), i + 1)
      | NUMBER =>
          string <- assert_str (value v) ;;
          as_float <- py_float string ;;
          if contains "." string then Ok (VFloat as_float, i + 1)
          else z <- py_int as_float ;; Ok (VInt z, i + 1)
      | L_CURLY =>
          '(o, i) <- parse_object_loop fuel' [] [] (i + 1) ;; Ok (VObject o, i)
      | L_BRACKET =>
          '(a, i) <- parse_array_loop fuel' [] (i + 1) ;; Ok (VArray a, i)
      | BOOLEAN => Ok (VBool (is_true (value v)), i + 1)
      | NULL => Ok (VNone, i + 1)
      | _ => m <- _error (Some i) "Unknown tokentype" ;; Raise (ValueError m)
      end
  end

with parse_object_loop (fuel : nat) (result : Object) (known_keys : list string)
       (i : nat) : res (Object * nat) :=
  match fuel with
  | O => OutOfFuel
  | S fuel' =>
      if (i <? length)%nat then
        t <- list_index tokens i ;;
        match type t with
        | R_CURLY => Ok (result, i + 1)
        | STRING =>
            key <- assert_str (value t) ;;
            if set_mem key known_keys then
              m <- _error (Some i) "Duplicate key found" ;; Raise (ValueError m)
            else
              let known_keys := set_add key known_keys in
              let i := i + 1 in
              c <- list_index tokens i ;;
              if negb (TokenType_eqb (type c) COLON) then
                m <- _error (Some i) "Expected colon" ;; Raise (ValueError m)
              else
                let i := i + 1 in
                r <- parse_value_match fuel' i ;;
                '(value, i) <- consume_comma r ;;
                parse_object_loop fuel' (dict_set key value result) known_keys i
        | _ => m <- _error (Some i) "Invalid object content" ;; Raise (ValueError m)
        end
      else Ok (result, i)
  end

with parse_array_loop (fuel : nat) (result : Array) (i : nat) : res (Array * nat) :=
  match fuel with
  | O => OutOfFuel
  | S fuel' =>
      if (i <? length)%nat then
        t <- list_index tokens i ;;
        match type t with
        | R_BRACKET => Ok (result, i + 1)
        | _ =>
            r <- parse_value_match fuel' i ;;
            '(value, i) <- consume_comma r ;;
            parse_array_loop fuel' (result ++ [value]) i
        end
      else Ok (result, i)
  end.

Definition parse_value (fuel : nat) (i : nat) : res (Value * nat) :=
  r <- parse_value_match fuel i ;; consume_comma r.

Definition parse_object (fuel : nat) (i : nat) : res (Object * nat) :=
  parse_object_loop fuel [] [] i.

Definition parse_array (fuel : nat) (i : nat) : res (Array * nat) :=
  parse_array_loop fuel [] i.

Definition parse_fuel : nat := 2 * List.length tokens + 2.

(** [Parser.parse(tokens)] on a fresh [Parser()]. *)
Definition parse : res Value :=
  if (List.length tokens <? 2)%nat then
    m <- _error None "Too short to be valid" ;; Raise (ValueError m)
  else
    let i := 1 in
    t <- list_index tokens 0 ;;
    match type t with
    | L_CURLY => '(o, _) <- parse_object parse_fuel i ;; Ok (VObject o)
    | L_BRACKET => '(a, _) <- parse_array parse_fuel i ;; Ok (VArray a)
    | _ => m <- _error (Some i) "Invalid input" ;; Raise (ValueError m)
    end.

End Parser.

Definition loads (json : string) : res Value :=
  tokens <- lex json ;; parse tokens.

(** *** The call stack

    The definitions of [Stack] are those above with a [depth], the number
    of nested calls still allowed, as for the third variant. *)

Module Stack.

Section Interpreter.

Variable token_init : nat.
Variable token_repr : nat.

Fixpoint lex_loop (depth fuel : nat) (json : string) (tokens : list Token) (i : nat)
  : res (list Token) :=
  match fuel with
  | O => OutOfFuel
  | S fuel' =>
      if (i <? String.length json)%nat then
        '(token, i) <- lex_step json i ;;
        match token with
        | Some t =>
            _ <- nested_calls token_init depth ;;
            lex_loop depth fuel' json (tokens ++ [t]) i
        | None => lex_loop depth fuel' json tokens i
        end
      else Ok tokens
  end.

Definition lex (depth : nat) (json : string) : res (list Token) :=
  match depth with
  | O => Raise RecursionError
  | S depth' => lex_loop depth' (S (String.length json)) json [] 0
  end.

Section Parser.

Variable tokens : list Token.

Definition format_tokens (depth : nat) (l : list Token) : res unit :=
  match l with
  | [] => Ok tt
  | _ :: _ => nested_calls token_repr depth
  end.

Definition _error (depth : nat) (i : option nat) (msg : string) : res (message Token) :=
  match depth with
  | O => Raise RecursionError
  | S depth' =>
      match i with
      | None => Raise AttributeError
      | Some i =>
          let prior_tokens := list_slice tokens (Z.of_nat i - 2) (Z.of_nat i) in
          _ <- format_tokens depth' prior_tokens ;;
          value <- list_index tokens i ;;
          _ <- format_tokens depth' [value] ;;
          Ok (Context msg prior_tokens i value)
      end
  end.

Section Loops.

Variable depth : nat.
Variable parse_value : nat -> res (Value * nat).

Fixpoint parse_object_loop (fuel : nat) (result : Object) (known_keys : list string)
    (i : nat) : res (Object * nat) :=
  match fuel with
  | O => OutOfFuel
  | S fuel' =>
      if (i <? length tokens)%nat then
        t <- list_index tokens i ;;
        match type t with
        | R_CURLY => Ok (result, i + 1)
        | STRING =>
            key <- assert_str (value t) ;;
            if set_mem key known_keys then
              m <- _error depth (Some i) "Duplicate key found" ;; Raise (ValueError m)
            else
              let known_keys := set_add key known_keys in
              let i := i + 1 in
              c <- list_index tokens i ;;
              if negb (TokenType_eqb (type c) COLON) then
                m <- _error depth (Some i) "Expected colon" ;; Raise (ValueError m)
              else
                let i := i + 1 in
                '(value, i) <- parse_value i ;;
                parse_object_loop fuel' (dict_set key value result) known_keys i
        | _ => m <- _error depth (Some i) "Invalid object content" ;; Raise (ValueError m)
        end
      else Ok (result, i)
  end.

Fixpoint parse_array_loop (fuel : nat) (result : Array) (i : nat) : res (Array * nat) :=
  match fuel with
  | O => OutOfFuel
  | S fuel' =>
      if (i <? length tokens)%nat then
        t <- list_index tokens i ;;
        match type t with
        | R_BRACKET => Ok (result, i + 1)
        | _ =>
            '(value, i) <- parse_value i ;;
            parse_array_loop fuel' (result ++ [value]) i
        end
      else Ok (result, i)
  end.

End Loops.

Definition loop_fuel : nat := S (length tokens).

Fixpoint parse_value (depth : nat) (i : nat) : res (Value * nat) :=
  match depth with
  | O => Raise RecursionError
  | S depth' =>
      v <- list_index tokens i ;;
      r <- match type v with
           | STRING => Ok (str_value (value v), i + 1)
           | NUMBER =>
               string <- assert_str (value v) ;;
               as_float <- py_float string ;;
               if contains "." string then Ok (VFloat as_float, i + 1)
               else z <- py_int as_float ;; Ok (VInt z, i + 1)
           | L_CURLY => '(o, i) <- parse_object depth' (i + 1) ;; Ok (VObject o, i)
           | L_BRACKET => '(a, i) <- parse_array depth' (i + 1) ;; Ok (VArray a, i)
           | BOOLEAN => Ok (VBool (is_true (value v)), i + 1)
           | NULL => Ok (VNone, i + 1)
           | _ => m <- _error depth' (Some i) "Unknown tokentype" ;; Raise (ValueError m)
           end ;;
      consume_comma tokens r
  end

with parse_object (depth : nat) (i : nat) : res (Object * nat) :=
  match depth with
  | O => Raise RecursionError
  | S depth' => parse_object_loop depth' (parse_value depth') loop_fuel [] [] i
  end

with parse_array (depth : nat) (i : nat) : res (Array * nat) :=
  match depth with
  | O => Raise RecursionError
  | S depth' => parse_array_loop (parse_value depth') loop_fuel [] i
  end.

Definition parse (depth : nat) : res Value :=
  match depth with
  | O => Raise RecursionError
  | S depth' =>
      if (List.length tokens <? 2)%nat then
        m <- _error depth' None "Too short to be valid" ;; Raise (ValueError m)
      else
        let i := 1 in
        t <- list_index tokens 0 ;;
        match type t with
        | L_CURLY => '(o, _) <- parse_object depth' i ;; Ok (VObject o)
        | L_BRACKET => '(a, _) <- parse_array depth' i ;; Ok (VArray a)
        | _ => m <- _error depth' (Some i) "Invalid input" ;; Raise (ValueError m)
        end
  end.

End Parser.

(** [Parser().parse(lex(json))]: the argument is evaluated, then [parse]
    is called. *)
Definition loads (depth : nat) (json : string) : res Value :=
  match depth with
  | O => Raise RecursionError
  | S depth' => tokens <- lex depth' json ;; parse tokens depth'
  end.

End Interpreter.

End Stack.

End Pyson.

(** ** Second variant: [pyson/src/pyson2.py] *)

Module Pyson2.

Inductive TokenType : Set :=
| L_CURLY | R_CURLY | L_BRACKET | R_BRACKET | COLON | COMMA
| STRING | NUMBER | BOOLEAN | NULL | EMPTY.

Definition TokenType_eqb (a b : TokenType) : bool :=
  match a, b with
  | L_CURLY, L_CURLY | R_CURLY, R_CURLY | L_BRACKET, L_BRACKET
  | R_BRACKET, R_BRACKET | COLON, COLON | COMMA, COMMA
  | STRING, STRING | NUMBER, NUMBER | BOOLEAN, BOOLEAN | NULL, NULL
  | EMPTY, EMPTY => true
  | _, _ => false
  end.

Record Token : Set := mkToken { type : TokenType; value : option string }.

Definition res (A : Type) : Type := result Token A.

(** *** [Matcher] and the functions of the lexer *)

(** [Matcher(cases)]: a [dict] from one-character strings to functions;
    [matcher[key]] is [cases.get(key, None)]. *)
Definition Matcher (F : Type) : Type := list (ascii * F).

Fixpoint getitem {F} (cases : Matcher F) (key : ascii) : option F :=
  match cases with
  | [] => None
  | (k, f) :: cases' => if Ascii.eqb key k then Some f else getitem cases' key
  end.

(** The functions of [lex_string_matchers] are called as
    [func(i, idx, json)], those of [lex_matchers] as
    [func(i, json, string_matcher)]. *)
Definition StringFunc : Type := nat -> nat -> string -> res (Token * nat).
Definition Func : Type := nat -> string -> Matcher StringFunc -> res (Token * nat).

Definition l_curly : Func := fun i _ _ => Ok (mkToken L_CURLY None, i + 1).
Definition r_curly : Func := fun i _ _ => Ok (mkToken R_CURLY None, i + 1).
Definition l_bracket : Func := fun i _ _ => Ok (mkToken L_BRACKET None, i + 1).
Definition r_bracket : Func := fun i _ _ => Ok (mkToken R_BRACKET None, i + 1).
Definition colon : Func := fun i _ _ => Ok (mkToken COLON None, i + 1).
Definition comma : Func := fun i _ _ => Ok (mkToken COMMA None, i + 1).

Definition true_ : Func := fun i json _ =>
  if negb (String.eqb (str_slice json i (i + 4)) "true")
  then Raise (ValueError (Plain "Invalid true value"))
  else Ok (mkToken BOOLEAN (Some "true"), i + 4).

Definition false_ : Func := fun i json _ =>
  if negb (String.eqb (str_slice json i (i + 5)) "false")
  then Raise (ValueError (Plain "Invalid false value"))
  else Ok (mkToken BOOLEAN (Some "false"), i + 5).

Definition null : Func := fun i json _ =>
  if negb (String.eqb (str_slice json i (i + 4)) "null")
  then Raise (ValueError (Plain "Invalid null value"))
  else Ok (mkToken NULL (Some "null"), i + 4).

Fixpoint scan_number (fuel : nat) (json : string) (i : nat) : res nat :=
  match fuel with
  | O => OutOfFuel
  | S fuel' =>
      c <- str_index json i ;;
      if char_in c NUMERIC then scan_number fuel' json (i + 1) else Ok i
  end.

Definition number : Func := fun i json _ =>
  let start := i in
  i <- scan_number (S (String.length json)) json i ;;
  Ok (mkToken NUMBER (Some (str_slice json start i)), i).

Definition string_replacement : StringFunc := fun i idx json =>
  let idx := idx + 1 in
  let string := decode_escapes (str_slice json i idx) in
  Ok (mkToken STRING (Some string), idx).

Definition string_escaping : StringFunc := fun i idx json =>
  n <- str_index json (idx + 1) ;;
  idx <-
    (if char_in n (String dquote "\/bfnrt") then Ok (idx + 2)
     else if Ascii.eqb n "u" then
       let unicodes := str_slice json (idx + 2) (idx + 6) in
       parts <- str_split unicodes "" ;;
       '(hx1, hx2, hx3, hx4) <- unpack4 parts ;;
       if negb (str_in hx1 HEXDIGITS && str_in hx2 HEXDIGITS
                && str_in hx3 HEXDIGITS && str_in hx4 HEXDIGITS)
       then Raise (ValueError (Plain "Invalid unicode sequence"))
       else Ok (idx + 6)
     else Raise (ValueError (Plain "Invalid string escaping"))) ;;
  Ok (mkToken EMPTY None, idx).

(** The loop of [string], [while json: func = matcher[json[idx]] ...].  As
    in the other variants its condition is constantly true where the
    function is called, so that the [return] after the loop is never
    reached. *)
Fixpoint string_loop (fuel : nat) (i : nat) (json : string)
    (matcher : Matcher StringFunc) (idx : nat) : res (Token * nat) :=
  match fuel with
  | O => OutOfFuel
  | S fuel' =>
      c <- str_index json idx ;;
      match getitem matcher c with
      | Some func =>
          '(token, idx) <- func i idx json ;;
          if negb (TokenType_eqb (type token) EMPTY) then Ok (token, idx)
          else string_loop fuel' i json matcher idx
      | None => string_loop fuel' i json matcher (idx + 1)
      end
  end.

Definition string_ : Func := fun i json matcher =>
  let idx := i + 1 in
  string_loop (S (String.length json)) i json matcher idx.

Definition lex_matchers : Matcher Func :=
  [("{"%char, l_curly); ("}"%char, r_curly); ("["%char, l_bracket); ("]"%char, r_bracket);
   (":"%char, colon); (","%char, comma);
   ("t"%char, true_); ("f"%char, false_); ("n"%char, null); (dquote, string_);
   ("0"%char, number); ("1"%char, number); ("2"%char, number); ("3"%char, number);
   ("4"%char, number); ("5"%char, number); ("6"%char, number); ("7"%char, number);
   ("8"%char, number); ("9"%char, number); ("-"%char, number)].

Definition lex_string_matchers : Matcher StringFunc :=
  [(dquote, string_replacement); (backslash, string_escaping)].

(** *** [lex] *)

(** The body of the loop of [lex]: the token it appends, if any, and the
    next value of [i]. *)
Definition lex_step (matcher : Matcher Func) (string_matcher : Matcher StringFunc)
    (json : string) (i : nat) : res (option Token * nat) :=
  c <- str_index json i ;;
  match getitem matcher c with
  | Some func =>
      '(token, i) <- func i json string_matcher ;;
      Ok (Some token, i)
  | None => Ok (None, i + 1)
  end.

Fixpoint lex_loop (fuel : nat) (json : string) (tokens : list Token) (i : nat)
  : res (list Token) :=
  match fuel with
  | O => OutOfFuel
  | S fuel' =>
      if (i <? String.length json)%nat then
        '(token, i) <- lex_step lex_matchers lex_string_matchers json i ;;
        match token with
        | Some t => lex_loop fuel' json (tokens ++ [t]) i
        | None => lex_loop fuel' json tokens i
        end
      else Ok tokens
  end.

Definition lex (json : string) : res (list Token) :=
  lex_loop (S (String.length json)) json [] 0.

(** *** [Parser] *)

Section Parser.

Variable tokens : list Token.

Definition length : nat := List.length tokens.

Definition _error (i : option nat) (msg : string) : res (message Token) :=
  match i with
  | None => Raise AttributeError
  | Some i =>
      let prior_tokens := list_slice tokens (Z.of_nat i - 2) (Z.of_nat i) in
      value <- list_index tokens i ;;
      Ok (Context msg prior_tokens i value)
  end.

Definition assert_str (x : option string) : res string :=
  match x with
  | Some (String c s) => Ok (String c s)
  | _ => Raise AssertionError
  end.

Definition str_value (x : option string) : Value :=
  match x with
  | Some s => VStr s
  | None => VNone
  end.

Definition is_true (x : option string) : bool :=
  match x with
  | Some s => String.eqb s "true"
  | None => false
  end.

Definition consume_comma (r : Value * nat) : res (Value * nat) :=
  let (value, i) := r in
  t <- list_index tokens i ;;
  if TokenType_eqb (type t) COMMA then Ok (value, i + 1) else Ok (value, i).

(** In this variant [parse_value] leaves the cursor on the opening token
    and [parse_object] and [parse_array] start with [self.i += 1]: the
    loops are entered at [i + 1]. *)
Fixpoint parse_value_match (fuel : nat) (i : nat) : res (Value * nat) :=
  match fuel with
  | O => OutOfFuel
  | S fuel' =>
      v <- list_index tokens i ;;
      match type v with
      | STRING => Ok (str_value (value v), i + 1)
      | NUMBER =>
          string <- assert_str (value v) ;;
          as_float <- py_float string ;;
          if contains "." string then Ok (VFloat as_float, i + 1)
          else z <- py_int as_float ;; Ok (VInt z, i + 1)
      | L_CURLY =>
          '(o, i) <- parse_object_loop fuel' [] [] (i + 1) ;; Ok (VObject o, i)
      | L_BRACKET =>
          '(a, i) <- parse_array_loop fuel' [] (i + 1) ;; Ok (VArray a, i)
      | BOOLEAN => Ok (VBool (is_true (value v)), i + 1)
      | NULL => Ok (VNone, i + 1)
      | _ => m <- _error (Some i) "Unknown tokentype" ;; Raise (ValueError m)
      end
  end

with parse_object_loop (fuel : nat) (result : Object) (known_keys : list string)
       (i : nat) : res (Object * nat) :=
  match fuel with
  | O => OutOfFuel
  | S fuel' =>
      if (i <? length)%nat then
        t <- list_index tokens i ;;
        match type t with
        | R_CURLY => Ok (result, i + 1)
        | STRING =>
            key <- assert_str (value t) ;;
            if set_mem key known_keys then
              m <- _error (Some i) "Duplicate key found" ;; Raise (ValueError m)
            else
              let known_keys := set_add key known_keys in
              let i := i + 1 in
              c <- list_index tokens i ;;
              if negb (TokenType_eqb (type c) COLON) then
                m <- _error (Some i) "Expected colon" ;; Raise (ValueError m)
              else
                let i := i + 1 in
                r <- parse_value_match fuel' i ;;
                '(value, i) <- consume_comma r ;;
                parse_object_loop fuel' (dict_set key value result) known_keys i
        | _ => m <- _error (Some i) "Invalid object content" ;; Raise (ValueError m)
        end
      else Ok (result, i)
  end

with parse_array_loop (fuel : nat) (result : Array) (i : nat) : res (Array * nat) :=
  match fuel with
  | O => OutOfFuel
  | S fuel' =>
      if (i <? length)%nat then
        t <- list_index tokens i ;;
        match type t with
        | R_BRACKET => Ok (result, i + 1)
        | _ =>
            r <- parse_value_match fuel' i ;;
            '(value, i) <- consume_comma r ;;
            parse_array_loop fuel' (result ++ [value]) i
        end
      else Ok (result, i)
  end.

Definition parse_value (fuel : nat) (i : nat) : res (Value * nat) :=
  r <- parse_value_match fuel i ;; consume_comma r.

(** [parse_object] and [parse_array], called with the cursor on the
    opening token. *)
Definition parse_object (fuel : nat) (i : nat) : res (Object * nat) :=
  let i := i + 1 in parse_object_loop fuel [] [] i.

Definition parse_array (fuel : nat) (i : nat) : res (Array * nat) :=
  let i := i + 1 in parse_array_loop fuel [] i.

Definition parse_fuel : nat := 2 * List.length tokens + 2.

(** [Parser.parse(tokens)] on a fresh [Parser()]: here [self.i = 0]. *)
Definition parse : res Value :=
  if (List.length tokens <? 2)%nat then
    m <- _error None "Too short to be valid" ;; Raise (ValueError m)
  else
    let i := 0 in
    t <- list_index tokens i ;;
    match type t with
    | L_CURLY => '(o, _) <- parse_object parse_fuel i ;; Ok (VObject o)
    | L_BRACKET => '(a, _) <- parse_array parse_fuel i ;; Ok (VArray a)
    | _ => m <- _error (Some i) "Invalid input" ;; Raise (ValueError m)
    end.

End Parser.

Definition loads (json : string) : res Value :=
  tokens <- lex json ;; parse tokens.

End Pyson2.

(** ** Notions used to state the properties *)

(** The span of a STRING token starts and ends on a quote character of the
    text, and these are two different positions. *)
Definition string_span (json : string) (t : Pyson3.Token) : Prop :=
  Pyson3.type t = STRING ->
  Pyson3.start t + 2 <= Pyson3.end_ t /\ Pyson3.end_ t <= String.length json /\
  String.get (Pyson3.start t) json = Some dquote /\
  String.get (Pyson3.end_ t - 1) json = Some dquote.

(** A text that starts with a quote character and ends with another one. *)
Definition quoted (s : string) : Prop :=
  exists body, s = String dquote (body ++ str1 dquote).

(** The invariant of the loop of [parse_object]: the keys bound in
    [result] are in [known_keys]. *)
Definition keys_tracked (result : Object) (known_keys : list string) : Prop :=
  forall k, dict_mem k result = true -> set_mem k known_keys = true.

(** An exception raised with the cursor at [i0] or after it: when it
    carries a context, the context is the cursor, the token at the cursor
    and the slice [tokens[i - 2 : i]]. *)
Definition context_at (tokens : list Pyson3.Token) (i0 : nat) (e : exn Pyson3.Token) : Prop :=
  match e with
  | ValueError (Context _ prior_tokens i value) =>
      i0 <= i /\ nth_error tokens i = Some value /\
      prior_tokens = list_slice tokens (Z.of_nat i - 2) (Z.of_nat i)
  | _ => True
  end.

(** An exception that carries no context: an index error, or a
    [ValueError] with a bare message. *)
Definition plain_error (e : exn Pyson3.Token) : Prop :=
  e = IndexError \/ exists msg, e = ValueError (Plain msg).


(** How a loop of the parser that started at cursor [i] can have returned
    with the cursor at [i']: it consumed the closing token [close], or it
    never ran because no token was left, or the tokens ran out after a
    comma. *)
Definition loop_exit (tokens : list Pyson3.Token) (close : TokenType) (i i' : nat) : Prop :=
  (exists t, i < i' /\ nth_error tokens (i' - 1) = Some t /\ Pyson3.type t = close) \/
  (i' = i /\ List.length tokens <= i) \/
  (i' = List.length tokens /\
   exists t, nth_error tokens (i' - 1) = Some t /\ Pyson3.type t = COMMA).

(** The token of the first variant that stands for a token of the third:
    the same kind, with the text that the span denotes, decoded for a
    STRING. *)
Definition token_value (json : string) (t : Pyson3.Token) : option string :=
  match Pyson3.type t with
  | STRING => Some (decode_escapes (Pyson3.get_string json t))
  | NUMBER | BOOLEAN | NULL => Some (Pyson3.get_string json t)
  | _ => None
  end.

Definition copy_token (json : string) (t : Pyson3.Token) : Pyson.Token :=
  Pyson.mkToken (Pyson3.type t) (token_value json t).

Definition copy_tokens (json : string) (tokens : list Pyson3.Token) : list Pyson.Token :=
  map (copy_token json) tokens.

(** Two computations agree: both return, and the results are related, or
    both raise. *)
Definition agree {T1 T3 A B} (R : A -> B -> Prop)
    (r1 : result T1 A) (r3 : result T3 B) : Prop :=
  match r1, r3 with
  | Ok a, Ok b => R a b
  | Raise _, Raise _ => True
  | OutOfFuel, OutOfFuel => True
  | _, _ => False
  end.

(** The text that each kind of token stands for. *)
Definition kind_text (json : string) (t : Pyson3.Token) : Prop :=
  let text := Pyson3.get_string json t in
  match Pyson3.type t with
  | L_CURLY => text = "{"
  | R_CURLY => text = "}"
  | L_BRACKET => text = "["
  | R_BRACKET => text = "]"
  | COLON => text = ":"
  | COMMA => text = ","
  | BOOLEAN => text = "true" \/ text = "false"
  | NULL => text = "null"
  | NUMBER => forall k c, String.get k text = Some c -> char_in c NUMERIC = true
  | STRING => quoted text
  end.

(** Spans that follow one another between the offsets [from] and [upto]:
    each is not empty, starts where the one before it ends or later, and
    the last ends at [upto] or before. *)
Fixpoint chained (from : nat) (tokens : list Pyson3.Token) (upto : nat) : Prop :=
  match tokens with
  | [] => from <= upto
  | t :: tokens' =>
      from <= Pyson3.start t /\ Pyson3.start t < Pyson3.end_ t /\
      chained (Pyson3.end_ t) tokens' upto
  end.

(** The characters on which the lexer emits nothing: those that start no
    token (white space among them). *)
Definition skipped (c : ascii) : bool :=
  negb (char_in c "{}[]:,tfn") && negb (Ascii.eqb c dquote) && negb (char_in c NUMERIC).

Fixpoint all_chars (p : ascii -> bool) (s : string) : bool :=
  match s with
  | EmptyString => true
  | String c s' => p c && all_chars p s'
  end.

(** A loop of the parser that started at cursor [i] and has consumed its
    closing token, the one before the cursor [i']. *)
Definition loop_closed (tokens : list Pyson3.Token) (close : TokenType) (i i' : nat) : Prop :=
  i < i' /\ exists t, nth_error tokens (i' - 1) = Some t /\ Pyson3.type t = close.

Definition no_backslash (c : ascii) : bool := negb (Ascii.eqb c backslash).

(** The tokens of the second variant that stand for tokens of the first:
    its kinds are those of the first and the kind [EMPTY]. *)
Definition same_kind (k : TokenType) : Pyson2.TokenType :=
  match k with
  | L_CURLY => Pyson2.L_CURLY
  | R_CURLY => Pyson2.R_CURLY
  | L_BRACKET => Pyson2.L_BRACKET
  | R_BRACKET => Pyson2.R_BRACKET
  | COLON => Pyson2.COLON
  | COMMA => Pyson2.COMMA
  | STRING => Pyson2.STRING
  | NUMBER => Pyson2.NUMBER
  | BOOLEAN => Pyson2.BOOLEAN
  | NULL => Pyson2.NULL
  end.

Definition same_token (t : Pyson.Token) : Pyson2.Token :=
  Pyson2.mkToken (same_kind (Pyson.type t)) (Pyson.value t).

(** A NUMBER token whose text starts with a digit or a minus sign: one of
    the characters on which the second variant starts a number. *)
Definition plain_number (t : Pyson.Token) : Prop :=
  Pyson.type t = NUMBER ->
  exists c s, Pyson.value t = Some (String c s) /\ char_in c "0123456789-" = true.

(** The exceptions that [loads] can raise: the messages of [ValueError]
    that the lexer, the builtins and [_error] can give. *)
Definition lexer_messages : list string :=
  ["Invalid true value"; "Invalid false value"; "Invalid null value";
   "Invalid string escaping"; "empty separator"].

Definition builtin_message (msg : string) : Prop :=
  (exists text, msg = float_message text) \/
  msg = "cannot convert float NaN to integer".

Definition parser_messages : list string :=
  ["Unknown tokentype"; "Duplicate key found"; "Expected colon";
   "Invalid object content"; "Invalid input"].

Definition known_error (e : exn Pyson3.Token) : Prop :=
  match e with
  | IndexError | AttributeError | OverflowError | RecursionError => True
  | AssertionError => False
  | ValueError (Plain msg) => In msg lexer_messages \/ builtin_message msg
  | ValueError (Context msg _ _ _) => In msg parser_messages
  end.

(** The entries of an object as the loop of [parse_object] reads them from
    the cursor [i] up to the cursor [k]: for each entry a STRING token,
    whose decoded text is the key, a colon, and a value that [parse_value]
    returns. *)
Fixpoint entries_at (tokens : list Pyson3.Token) (json : string) (fuel : nat)
    (i : nat) (entries : list (string * Value)) (k : nat) : Prop :=
  match entries with
  | [] => i = k
  | (key, value) :: entries' =>
      exists t c j,
        nth_error tokens i = Some t /\ Pyson3.type t = STRING /\
        Pyson3.normalized_string json t = key /\
        nth_error tokens (i + 1) = Some c /\ Pyson3.type c = COLON /\
        Pyson3.parse_value tokens json fuel (i + 2) = Ok (value, j) /\
        entries_at tokens json fuel j entries' k
  end.

(** A computation on a bounded call stack refines the same computation
    on an unbounded one: it does the same, or it raises
    [RecursionError]. *)
Definition refines {T A} (bounded unbounded : result T A) : Prop :=
  bounded = Raise RecursionError \/ bounded = unbounded.

(** The first variant agrees with the third on a stack that the third
    does not exhaust. *)
Definition agree_within {T1 T3 A B} (R : A -> B -> Prop)
    (r1 : result T1 A) (r3 : result T3 B) : Prop :=
  r3 = Raise RecursionError \/ agree R r1 r3.

(** * Properties *)

#[global] Arguments Pyson3._error : simpl never.
#[global] Arguments Pyson3.consume_comma : simpl never.
#[global] Arguments Pyson._error : simpl never.
#[global] Arguments Pyson.consume_comma : simpl never.
#[global] Arguments py_float : simpl never.
#[global] Arguments py_int : simpl never.
#[global] Arguments decode_escapes : simpl never.


(** ** The error monad *)

Lemma bind_ok_inv {T A B} (c : result T A) (k : A -> result T B) (b : B) :
  bind c k = Ok b -> exists a, c = Ok a /\ k a = Ok b.
Proof.
  destruct c as [a | e | ]; simpl; intros H; try discriminate.
  exists a; split; [reflexivity | exact H].
Qed.

Lemma bind_fuel {T A B} (c : result T A) (k : A -> result T B) :
  c <> OutOfFuel -> (forall a, c = Ok a -> k a <> OutOfFuel) ->
  bind c k <> OutOfFuel.
Proof.
  destruct c as [a | e | ]; simpl; intros Hc Hk.
  - apply Hk; reflexivity.
  - discriminate.
  - congruence.
Qed.

Lemma TokenType_eqb_eq (a b : TokenType) : TokenType_eqb a b = true <-> a = b.
Proof. destruct a, b; simpl; split; intros H; congruence. Qed.

(** ** Strings and lists *)

Lemma get_Some_lt (s : string) : forall i c, String.get i s = Some c -> i < String.length s.
Proof.
  induction s as [| a s IH]; intros [| i] c H; simpl in *; try discriminate.
  - lia.
  - apply IH in H; lia.
Qed.

Lemma get_lt_Some (s : string) : forall i, i < String.length s -> exists c, String.get i s = Some c.
Proof.
  induction s as [| a s IH]; intros [| i] H; simpl in *; try lia.
  - exists a; reflexivity.
  - apply IH; lia.
Qed.

Lemma list_index_Ok {T A} (l : list A) (i : nat) (x : A) :
  @list_index T A l i = Ok x <-> nth_error l i = Some x.
Proof.
  unfold list_index; destruct (nth_error l i); split; intros H; congruence.
Qed.

Lemma list_index_fuel {T A} (l : list A) (i : nat) : @list_index T A l i <> OutOfFuel.
Proof. unfold list_index; destruct (nth_error l i); discriminate. Qed.

(** ** The lexer of the third variant: termination and shape of the tokens *)

Lemma scan_number_fuel (json : string) : forall fuel i,
  String.length json - i < fuel -> Pyson3.scan_number fuel json i <> OutOfFuel.
Proof.
  induction fuel as [| fuel IH]; intros i Hf; [lia |].
  simpl. unfold str_index.
  destruct (String.get i json) as [c |] eqn:Hc; simpl; [| discriminate].
  apply get_Some_lt in Hc.
  destruct (char_in c NUMERIC); [apply IH; lia | discriminate].
Qed.

(** A run that stops returns the index of the first character outside
    [NUMERIC], which exists. *)
Lemma scan_number_Ok (json : string) : forall fuel i j,
  Pyson3.scan_number fuel json i = Ok j ->
  i <= j /\
  (forall k, i <= k < j -> exists c, String.get k json = Some c /\ char_in c NUMERIC = true) /\
  (exists c, String.get j json = Some c /\ char_in c NUMERIC = false).
Proof.
  induction fuel as [| fuel IH]; intros i j H; [discriminate |].
  simpl in H. unfold str_index in H.
  destruct (String.get i json) as [c |] eqn:Hc; simpl in H; [| discriminate].
  destruct (char_in c NUMERIC) eqn:Hn.
  - apply IH in H. destruct H as (Hle & Hrun & Hstop).
    split; [lia |]. split; [| exact Hstop].
    intros k Hk. destruct (Nat.eq_dec k i) as [-> | Hne].
    + exists c; auto.
    + apply Hrun; lia.
  - injection H as <-. split; [lia |]. split.
    + intros k Hk; lia.
    + exists c; auto.
Qed.

(** A run of [NUMERIC] characters followed by another character is scanned
    up to that character. *)
Lemma scan_number_run (json : string) : forall fuel i j c,
  i <= j -> j - i < fuel ->
  (forall k, i <= k < j -> exists c, String.get k json = Some c /\ char_in c NUMERIC = true) ->
  String.get j json = Some c -> char_in c NUMERIC = false ->
  Pyson3.scan_number fuel json i = Ok j.
Proof.
  induction fuel as [| fuel IH]; intros i j c Hle Hf Hrun Hj Hc; [lia |].
  simpl. destruct (Nat.eq_dec i j) as [-> | Hne].
  - unfold str_index; rewrite Hj; simpl; rewrite Hc; reflexivity.
  - destruct (Hrun i) as (ci & Hi & Hci); [lia |].
    unfold str_index; rewrite Hi; simpl; rewrite Hci.
    apply IH with (c := c); auto; try lia.
    intros k Hk; apply Hrun; lia.
Qed.

(** A run of [NUMERIC] characters that reaches the end of the text makes
    [json[i]] fail. *)
Lemma scan_number_end (json : string) : forall fuel i,
  String.length json - i < fuel ->
  (forall k c, i <= k -> String.get k json = Some c -> char_in c NUMERIC = true) ->
  Pyson3.scan_number fuel json i = Raise IndexError.
Proof.
  induction fuel as [| fuel IH]; intros i Hf Hrun; [lia |].
  simpl. unfold str_index.
  destruct (String.get i json) as [c |] eqn:Hc; simpl; [| reflexivity].
  rewrite (Hrun i c); auto.
  apply get_Some_lt in Hc.
  apply IH; [lia |]. intros k c' Hk; apply Hrun; lia.
Qed.

Lemma scan_string_fuel (json : string) : forall fuel idx,
  String.length json - idx < fuel -> Pyson3.scan_string fuel json idx <> OutOfFuel.
Proof.
  induction fuel as [| fuel IH]; intros idx Hf; [lia |].
  simpl. unfold str_index.
  destruct (String.get idx json) as [v |] eqn:Hv; simpl; [| discriminate].
  apply get_Some_lt in Hv.
  destruct (Ascii.eqb v dquote); [discriminate |].
  destruct (Ascii.eqb v backslash); [| apply IH; lia].
  destruct (String.get (idx + 1) json) as [n |] eqn:Hn; simpl; [| discriminate].
  destruct (char_in n _); [apply IH; lia |].
  destruct (Ascii.eqb n "u"); discriminate.
Qed.

(** A string scan that returns stops just after a quote character of the
    text. *)
Lemma scan_string_Ok (json : string) : forall fuel idx j,
  Pyson3.scan_string fuel json idx = Ok j ->
  idx < j /\ j <= String.length json /\ String.get (j - 1) json = Some dquote.
Proof.
  induction fuel as [| fuel IH]; intros idx j H; [discriminate |].
  simpl in H. unfold str_index in H.
  destruct (String.get idx json) as [v |] eqn:Hv; simpl in H; [| discriminate].
  destruct (Ascii.eqb v dquote) eqn:Hq.
  - injection H as <-. apply Ascii.eqb_eq in Hq; subst v.
    pose proof (get_Some_lt _ _ _ Hv).
    replace (idx + 1 - 1) with idx by lia. repeat split; auto; lia.
  - destruct (Ascii.eqb v backslash).
    + destruct (String.get (idx + 1) json) as [n |] eqn:Hn; simpl in H; [| discriminate].
      destruct (char_in n _).
      * apply IH in H. intuition lia.
      * destruct (Ascii.eqb n "u"); discriminate.
    + apply IH in H. intuition lia.
Qed.

(** [H] equates a computation that raises after a first step with a
    returned value. *)
Ltac raise_not_Ok H :=
  exfalso; apply bind_ok_inv in H; destruct H as (? & _ & H); discriminate H.

Ltac split_ifs H :=
  repeat match type of H with
    | context [if ?b then _ else _] => destruct b eqn:?
    end.

Lemma lex_step_Ok (json : string) (i i' : nat) (tok : option Pyson3.Token) :
  Pyson3.lex_step json i = Ok (tok, i') ->
  i < i' /\ forall t, tok = Some t -> string_span json t.
Proof.
  unfold Pyson3.lex_step, str_index.
  destruct (String.get i json) as [v |] eqn:Hv; cbn [bind]; [| discriminate].
  intros H. split_ifs H; try discriminate;
    try (injection H as <- <-; split; [lia | intros t [= <-] Ht; discriminate Ht]).
  - apply bind_ok_inv in H. destruct H as (idx & Hs & H). injection H as <- <-.
    apply scan_string_Ok in Hs. split; [lia |].
    intros t [= <-] _; simpl.
    match goal with Hq : Ascii.eqb v dquote = true |- _ => apply Ascii.eqb_eq in Hq; subst v end.
    intuition lia.
  - apply bind_ok_inv in H. destruct H as (j & Hs & H). injection H as <- <-.
    apply scan_number_Ok in Hs. destruct Hs as (Hle & _ & c & Hc & Hn).
    split; [| intros t [= <-] Ht; discriminate Ht].
    destruct (Nat.eq_dec i j) as [-> | Hne]; [| lia].
    rewrite Hv in Hc; injection Hc as ->. congruence.
Qed.

Lemma lex_step_fuel (json : string) (i : nat) : Pyson3.lex_step json i <> OutOfFuel.
Proof.
  unfold Pyson3.lex_step, str_index.
  destruct (String.get i json) as [v |] eqn:Hv; cbn [bind]; [| discriminate].
  apply get_Some_lt in Hv.
  repeat match goal with
    | |- context [if ?b then _ else _] => destruct b
    end; try discriminate.
  - apply bind_fuel; [apply scan_string_fuel; lia | discriminate].
  - apply bind_fuel; [apply scan_number_fuel; lia | discriminate].
Qed.

Lemma lex_loop_fuel (json : string) : forall fuel tokens i,
  String.length json - i < fuel -> Pyson3.lex_loop fuel json tokens i <> OutOfFuel.
Proof.
  induction fuel as [| fuel IH]; intros tokens i Hf; [lia |].
  simpl. destruct (i <? String.length json)%nat eqn:Hi; [| discriminate].
  apply Nat.ltb_lt in Hi.
  apply bind_fuel; [apply lex_step_fuel |].
  intros [tok i'] Hs. apply lex_step_Ok in Hs. destruct Hs as [Hlt _].
  destruct tok; apply IH; lia.
Qed.

(** [lex] terminates: it returns tokens or raises. *)
Lemma lex_total (json : string) : Pyson3.lex json <> OutOfFuel.
Proof. apply lex_loop_fuel; lia. Qed.

Lemma lex_loop_string_span (json : string) : forall fuel tokens i tokens',
  Forall (string_span json) tokens ->
  Pyson3.lex_loop fuel json tokens i = Ok tokens' ->
  Forall (string_span json) tokens'.
Proof.
  induction fuel as [| fuel IH]; intros tokens i tokens' Hall H; [discriminate |].
  simpl in H. destruct (i <? String.length json)%nat; [| injection H as <-; exact Hall].
  apply bind_ok_inv in H. destruct H as ([tok j] & Hs & H).
  apply lex_step_Ok in Hs. destruct Hs as [_ Hsp].
  destruct tok as [t |]; apply IH in H; auto.
  apply Forall_app; split; [exact Hall |].
  constructor; [apply Hsp; reflexivity | constructor].
Qed.

Lemma lex_string_span (json : string) (tokens : list Pyson3.Token) :
  Pyson3.lex json = Ok tokens -> Forall (string_span json) tokens.
Proof. apply lex_loop_string_span; constructor. Qed.

(** ** The parser of the third variant: progress and termination *)

Section ParserFacts.

Variable tokens : list Pyson3.Token.
Variable json : string.

(** The comma test reads the token at the cursor, which must exist; the
    cursor moves by one exactly when that token is a comma. *)
Lemma consume_comma_Ok (v v' : Value) (i i' : nat) :
  Pyson3.consume_comma tokens (v, i) = Ok (v', i') ->
  v' = v /\ exists t, nth_error tokens i = Some t /\
    ((Pyson3.type t = COMMA /\ i' = i + 1) \/ (Pyson3.type t <> COMMA /\ i' = i)).
Proof.
  unfold Pyson3.consume_comma, list_index.
  destruct (nth_error tokens i) as [t |]; simpl; [| discriminate].
  destruct (TokenType_eqb (Pyson3.type t) COMMA) eqn:Hc; intros [= <- <-];
    (split; [reflexivity | exists t; split; [reflexivity |]]).
  - left. apply TokenType_eqb_eq in Hc. auto.
  - right. split; [| reflexivity]. intros Heq. apply TokenType_eqb_eq in Heq. congruence.
Qed.

Lemma consume_comma_fuel (r : Value * nat) : Pyson3.consume_comma tokens r <> OutOfFuel.
Proof.
  destruct r as [v i]. unfold Pyson3.consume_comma, list_index.
  destruct (nth_error tokens i) as [t |]; simpl; [| discriminate].
  destruct (TokenType_eqb _ _); discriminate.
Qed.

Lemma _error_fuel (i : option nat) (msg : string) :
  Pyson3._error tokens i msg <> OutOfFuel.
Proof.
  unfold Pyson3._error. destruct i as [i |]; [| discriminate].
  unfold list_index. destruct (nth_error tokens i); discriminate.
Qed.

Lemma raise_error_fuel {A} (i : option nat) (msg : string) :
  (m <- Pyson3._error tokens i msg ;; @Raise Pyson3.Token A (ValueError m)) <> OutOfFuel.
Proof. apply bind_fuel; [apply _error_fuel | discriminate]. Qed.

(** Every call moves the cursor forwards: [parse_value] by at least one
    token, the loops by none or more. *)
Lemma parse_progress : forall fuel,
  (forall i v i', Pyson3.parse_value_match tokens json fuel i = Ok (v, i') -> i < i') /\
  (forall result known i r i', Pyson3.parse_object_loop tokens json fuel result known i = Ok (r, i') -> i <= i') /\
  (forall result i r i', Pyson3.parse_array_loop tokens json fuel result i = Ok (r, i') -> i <= i').
Proof.
  induction fuel as [| fuel (IHv & IHo & IHa)];
    [repeat split; intros; discriminate |].
  repeat split.
  - intros i v i' H. simpl in H.
    apply bind_ok_inv in H. destruct H as (t & _ & H).
    destruct (Pyson3.type t);
      try (injection H as <- <-; lia);
      try solve [raise_not_Ok H].
    + apply bind_ok_inv in H. destruct H as ([o j] & Ho & H).
      injection H as <- <-. apply IHo in Ho. lia.
    + apply bind_ok_inv in H. destruct H as ([a j] & Ha & H).
      injection H as <- <-. apply IHa in Ha. lia.
    + apply bind_ok_inv in H. destruct H as (f & _ & H).
      destruct (contains _ _); [injection H as <- <-; lia |].
      apply bind_ok_inv in H. destruct H as (z & _ & H). injection H as <- <-; lia.
  - intros result known i r i' H. simpl in H.
    destruct (i <? Pyson3.length tokens)%nat; [| injection H as <- <-; lia].
    apply bind_ok_inv in H. destruct H as (t & _ & H).
    destruct (Pyson3.type t);
      try (injection H as <- <-; lia);
      try solve [raise_not_Ok H].
    destruct (String.eqb _ _); [discriminate |].
    destruct (set_mem _ _); [raise_not_Ok H |].
    apply bind_ok_inv in H. destruct H as (c & _ & H).
    destruct (negb _); [raise_not_Ok H |].
    apply bind_ok_inv in H. destruct H as ([v j] & Hv & H).
    apply bind_ok_inv in H. destruct H as ([v' j'] & Hc & H).
    apply IHv in Hv. apply consume_comma_Ok in Hc. apply IHo in H.
    destruct Hc as (_ & t' & _ & [[_ ->] | [_ ->]]); lia.
  - intros result i r i' H. simpl in H.
    destruct (i <? Pyson3.length tokens)%nat; [| injection H as <- <-; lia].
    apply bind_ok_inv in H. destruct H as (t & _ & H).
    destruct (Pyson3.type t); try (injection H as <- <-; lia);
      (apply bind_ok_inv in H; destruct H as ([v j] & Hv & H);
       apply bind_ok_inv in H; destruct H as ([v' j'] & Hc & H);
       apply IHv in Hv; apply consume_comma_Ok in Hc; apply IHa in H;
       destruct Hc as (_ & t' & _ & [[_ ->] | [_ ->]]); lia).
Qed.

(** Fuel: one unit more than twice the number of tokens left is enough for
    [parse_value], two more for the loops. *)
Lemma parse_fuel_enough : forall fuel,
  (forall i, 2 * (Pyson3.length tokens - i) + 1 <= fuel -> Pyson3.parse_value_match tokens json fuel i <> OutOfFuel) /\
  (forall result known i, 2 * (Pyson3.length tokens - i) + 2 <= fuel ->
     Pyson3.parse_object_loop tokens json fuel result known i <> OutOfFuel) /\
  (forall result i, 2 * (Pyson3.length tokens - i) + 2 <= fuel ->
     Pyson3.parse_array_loop tokens json fuel result i <> OutOfFuel).
Proof.
  induction fuel as [| fuel (IHv & IHo & IHa)]; [repeat split; intros; lia |].
  assert (Hidx : forall i t, @list_index Pyson3.Token _ tokens i = Ok t ->
                             i < Pyson3.length tokens).
  { intros i t H. apply list_index_Ok in H.
    apply nth_error_Some. congruence. }
  repeat split.
  - intros i Hf. simpl.
    apply bind_fuel; [apply list_index_fuel |]. intros t Ht. apply Hidx in Ht.
    destruct (Pyson3.type t); try discriminate; try apply raise_error_fuel.
    + apply bind_fuel; [apply IHo; lia |]. intros [o j] _; discriminate.
    + apply bind_fuel; [apply IHa; lia |]. intros [a j] _; discriminate.
    + apply bind_fuel.
      * unfold py_float.
        repeat match goal with
          | |- context [let (_, _) := ?p in _] => destruct p
          | |- context [if ?b then _ else _] => destruct b
          | |- context [match ?s with EmptyString => _ | String _ _ => _ end] => destruct s
          end; discriminate.
      * intros f _. destruct (contains _ _); [discriminate |].
        apply bind_fuel; [destruct f; discriminate | discriminate].
  - intros result known i Hf. simpl.
    destruct (i <? Pyson3.length tokens)%nat eqn:Hi; [| discriminate].
    apply Nat.ltb_lt in Hi.
    apply bind_fuel; [apply list_index_fuel |]. intros t _.
    destruct (Pyson3.type t); try discriminate; try apply raise_error_fuel.
    destruct (String.eqb _ _); [discriminate |].
    destruct (set_mem _ _); [apply raise_error_fuel |].
    apply bind_fuel; [apply list_index_fuel |]. intros c _.
    destruct (negb _); [apply raise_error_fuel |].
    apply bind_fuel; [apply IHv; lia |]. intros [v j] Hv.
    apply bind_fuel; [apply consume_comma_fuel |]. intros [v' j'] Hc.
    apply (proj1 (parse_progress fuel)) in Hv. apply consume_comma_Ok in Hc.
    apply IHo. destruct Hc as (_ & t' & _ & [[_ ->] | [_ ->]]); lia.
  - intros result i Hf. simpl.
    destruct (i <? Pyson3.length tokens)%nat eqn:Hi; [| discriminate].
    apply Nat.ltb_lt in Hi.
    apply bind_fuel; [apply list_index_fuel |]. intros t _.
    destruct (Pyson3.type t); try discriminate;
      (apply bind_fuel; [apply IHv; lia |]; intros [v j] Hv;
       apply bind_fuel; [apply consume_comma_fuel |]; intros [v' j'] Hc;
       apply (proj1 (parse_progress fuel)) in Hv; apply consume_comma_Ok in Hc;
       apply IHa; destruct Hc as (_ & t' & _ & [[_ ->] | [_ ->]]); lia).
Qed.

End ParserFacts.

(** [loads] terminates: it returns a value or raises. *)
Lemma loads_total (json : string) : Pyson3.loads json <> OutOfFuel.
Proof.
  unfold Pyson3.loads, Pyson3.parse.
  apply bind_fuel; [apply lex_total |]. intros tokens _.
  destruct (List.length tokens <? 2)%nat eqn:Hlen; [discriminate |].
  apply Nat.ltb_ge in Hlen.
  apply bind_fuel; [apply list_index_fuel |]. intros t _.
  pose proof (parse_fuel_enough tokens json (Pyson3.parse_fuel tokens)) as (_ & Ho & Ha).
  destruct (Pyson3.type t); try apply raise_error_fuel.
  - apply bind_fuel; [| intros [o j] _; discriminate].
    apply Ho. unfold Pyson3.parse_fuel, Pyson3.length. lia.
  - apply bind_fuel; [| intros [a j] _; discriminate].
    apply Ha. unfold Pyson3.parse_fuel, Pyson3.length. lia.
Qed.

(** ** Numbers *)

(** C1: the parser classifies a NUMBER token by the text of its span.  The
    text is read as a float; when it holds a ['.'] the value is that float,
    otherwise the float is converted to an integer.  So [loads('[1.5]')]
    is the float 1.5 (that is [3 * 2^-1]), [loads('[150]')] the integer 150
    and [loads('[1e2]')] the integer 100, not a float. *)
Theorem C1_number_classification :
  (forall tokens json fuel i t as_float,
      nth_error tokens i = Some t ->
      Pyson3.type t = NUMBER ->
      py_float (Pyson3.get_string json t) = (Ok as_float : Pyson3.res spec_float) ->
      (contains "." (Pyson3.get_string json t) = true ->
       Pyson3.parse_value_match tokens json (S fuel) i = Ok (VFloat as_float, i + 1)) /\
      (contains "." (Pyson3.get_string json t) = false ->
       forall z, py_int as_float = (Ok z : Pyson3.res Z) ->
       Pyson3.parse_value_match tokens json (S fuel) i = Ok (VInt z, i + 1))) /\
  Pyson3.loads "[1.5]" = Ok (VArray [VFloat (binary_normalize prec emax 3 (-1) false)]) /\
  Pyson3.loads "[150]" = Ok (VArray [VInt 150]) /\
  Pyson3.loads "[1e2]" = Ok (VArray [VInt 100]).
Proof.
  split; [| repeat split; vm_compute; reflexivity].
  intros tokens json fuel i t as_float Ht Hty Hf.
  assert (Hidx : @list_index Pyson3.Token _ tokens i = Ok t)
    by (apply list_index_Ok; exact Ht).
  split.
  - intros Hdot. simpl. rewrite Hidx; simpl. rewrite Hty, Hf; simpl.
    rewrite Hdot. reflexivity.
  - intros Hdot z Hz. simpl. rewrite Hidx; simpl. rewrite Hty, Hf; simpl.
    rewrite Hdot, Hz. reflexivity.
Qed.

Lemma C1_number_classification_witness :
  Pyson3.parse_value_match
    [Pyson3.mkToken L_BRACKET 0 1; Pyson3.mkToken NUMBER 1 4; Pyson3.mkToken R_BRACKET 4 5]
    "[1e2]" 1 1 = Ok (VInt 100, 2).
Proof.
  refine (proj2 (proj1 C1_number_classification
                   [Pyson3.mkToken L_BRACKET 0 1; Pyson3.mkToken NUMBER 1 4;
                    Pyson3.mkToken R_BRACKET 4 5]
                   "[1e2]" 0 1 (Pyson3.mkToken NUMBER 1 4)
                   (S754_finite false 7036874417766400 (-46)) _ _ _) _ 100%Z _);
    reflexivity.
Defined.

(** ** Commas *)

(** C6: when [parse_value] has produced a value and the token at the cursor
    is a comma, the comma is consumed, whatever the position in the
    grammar: a trailing comma, as in ['[1,2,]'], is accepted. *)
Theorem C6_comma_consumed :
  (forall tokens json fuel i value j t,
      Pyson3.parse_value_match tokens json fuel i = Ok (value, j) ->
      nth_error tokens j = Some t ->
      Pyson3.type t = COMMA ->
      Pyson3.parse_value tokens json fuel i = Ok (value, j + 1)) /\
  Pyson3.loads "[1,2,]" = Ok (VArray [VInt 1; VInt 2]) /\
  Pyson3.loads "[[1,],]" = Ok (VArray [VArray [VInt 1]]) /\
  Pyson3.loads (dq "{'a':{'b':null,},}")
    = Ok (VObject [(dq "'a'", VObject [(dq "'b'", VNone)])]).
Proof.
  split; [| repeat split; vm_compute; reflexivity].
  intros tokens json fuel i value j t Hv Ht Hty.
  unfold Pyson3.parse_value. rewrite Hv; simpl.
  unfold Pyson3.consume_comma, list_index. rewrite Ht; simpl.
  rewrite Hty. reflexivity.
Qed.

Lemma C6_comma_consumed_witness :
  Pyson3.parse_value
    [Pyson3.mkToken L_BRACKET 0 1; Pyson3.mkToken NULL 1 5; Pyson3.mkToken COMMA 5 6;
     Pyson3.mkToken R_BRACKET 6 7]
    "[null,]" 1 1 = Ok (VNone, 3).
Proof.
  refine (proj1 C6_comma_consumed
            [Pyson3.mkToken L_BRACKET 0 1; Pyson3.mkToken NULL 1 5;
             Pyson3.mkToken COMMA 5 6; Pyson3.mkToken R_BRACKET 6 7]
            "[null,]" 1 1 VNone 2 (Pyson3.mkToken COMMA 5 6) _ _ _);
    reflexivity.
Defined.

(** ** Slices of the token list *)

Lemma slice_before_first {A} (l : list A) :
  2 <= List.length l -> list_slice l (Z.of_nat 1 - 2) (Z.of_nat 1) = [].
Proof.
  intros Hlen. unfold list_slice, slice_bound. simpl Z.sub.
  replace (-1 <? 0)%Z with true by reflexivity.
  replace (Z.of_nat 1 <? 0)%Z with false by reflexivity.
  replace (Z.to_nat (Z.max 0 (Z.of_nat (List.length l) + -1))) with (List.length l - 1) by lia.
  replace (Z.to_nat (Z.min (Z.of_nat (List.length l)) (Z.of_nat 1))) with 1 by lia.
  replace (1 - (List.length l - 1)) with 0 by lia. reflexivity.
Qed.

Lemma firstn_two_skipn {A} (l : list A) : forall n a b,
  nth_error l n = Some a -> nth_error l (S n) = Some b ->
  firstn 2 (skipn n l) = [a; b].
Proof.
  induction l as [| x l IH]; intros [| n] a b Ha Hb; simpl in *; try discriminate.
  - injection Ha as ->. destruct l as [| y l]; simpl in *; [discriminate |].
    injection Hb as ->. reflexivity.
  - apply IH; assumption.
Qed.

Lemma slice_two_before {A} (l : list A) (i : nat) (x : A) :
  2 <= i -> nth_error l i = Some x ->
  exists a b, nth_error l (i - 2) = Some a /\ nth_error l (i - 1) = Some b /\
              list_slice l (Z.of_nat i - 2) (Z.of_nat i) = [a; b].
Proof.
  intros Hi Hx.
  assert (Hlen : i < List.length l) by (apply nth_error_Some; congruence).
  destruct (nth_error l (i - 2)) as [a |] eqn:Ha;
    [| apply nth_error_None in Ha; lia].
  destruct (nth_error l (i - 1)) as [b |] eqn:Hb;
    [| apply nth_error_None in Hb; lia].
  exists a, b. repeat split.
  unfold list_slice, slice_bound.
  destruct (Z.of_nat i - 2 <? 0)%Z eqn:H1; [apply Z.ltb_lt in H1; lia |].
  destruct (Z.of_nat i <? 0)%Z eqn:H2; [apply Z.ltb_lt in H2; lia |].
  replace (Z.to_nat (Z.min (Z.of_nat (List.length l)) (Z.of_nat i - 2))) with (i - 2) by lia.
  replace (Z.to_nat (Z.min (Z.of_nat (List.length l)) (Z.of_nat i))) with i by lia.
  replace (i - (i - 2)) with 2 by lia.
  apply firstn_two_skipn; [exact Ha |].
  replace (S (i - 2)) with (i - 1) by lia. exact Hb.
Qed.

(** ** The entry of the parser *)

(** C5: what [parse] does on a token list of fewer than two tokens, and on
    one whose first token opens neither an object nor an array.  In the
    first case the message is built by [_error], which reads [self.i]
    before [parse] has assigned it: the call raises [AttributeError], and
    the error [Too short to be valid] is never raised.  In the second case
    the error is [Invalid input], with the token at cursor 1. *)
Theorem C5_parse_entry :
  (forall json tokens,
      Pyson3.lex json = Ok tokens ->
      List.length tokens < 2 ->
      Pyson3.loads json = Raise AttributeError) /\
  (forall json tokens t,
      Pyson3.lex json = Ok tokens ->
      2 <= List.length tokens ->
      nth_error tokens 0 = Some t ->
      Pyson3.type t <> L_CURLY -> Pyson3.type t <> L_BRACKET ->
      exists value,
        nth_error tokens 1 = Some value /\
        Pyson3.loads json = Raise (ValueError (Context "Invalid input" [] 1 value))) /\
  Pyson3.loads "" = Raise AttributeError /\
  Pyson3.loads "[" = Raise AttributeError /\
  Pyson3.loads "true" = Raise AttributeError.
Proof.
  split; [| split; [| repeat split; vm_compute; reflexivity]].
  - intros json tokens Hlex Hlen.
    unfold Pyson3.loads, Pyson3.parse. rewrite Hlex; simpl.
    apply Nat.ltb_lt in Hlen. rewrite Hlen. reflexivity.
  - intros json tokens t Hlex Hlen Ht Hc Hb.
    destruct (nth_error tokens 1) as [value |] eqn:Hvalue;
      [| apply nth_error_None in Hvalue; lia].
    exists value. split; [reflexivity |].
    unfold Pyson3.loads, Pyson3.parse. rewrite Hlex; simpl.
    apply Nat.ltb_ge in Hlen. rewrite Hlen.
    unfold list_index at 1. rewrite Ht; simpl.
    assert (He : Pyson3._error tokens (Some 1) "Invalid input"
                 = Ok (Context "Invalid input" [] 1 value)).
    { unfold Pyson3._error, list_index. rewrite Hvalue; simpl.
      rewrite slice_before_first by (apply Nat.ltb_ge; exact Hlen). reflexivity. }
    destruct (Pyson3.type t); try congruence; rewrite He; reflexivity.
Qed.

Lemma C5_parse_entry_witness :
  Pyson3.loads "[" = Raise AttributeError /\
  exists value,
    nth_error [Pyson3.mkToken BOOLEAN 0 4; Pyson3.mkToken R_BRACKET 4 5] 1 = Some value /\
    Pyson3.loads "true]" = Raise (ValueError (Context "Invalid input" [] 1 value)).
Proof.
  split.
  - refine (proj1 C5_parse_entry "[" [Pyson3.mkToken L_BRACKET 0 1] _ _);
      [reflexivity | simpl; lia].
  - refine (proj1 (proj2 C5_parse_entry) "true]"
              [Pyson3.mkToken BOOLEAN 0 4; Pyson3.mkToken R_BRACKET 4 5]
              (Pyson3.mkToken BOOLEAN 0 4) _ _ _ _ _);
      [reflexivity | simpl; lia | reflexivity | discriminate | discriminate].
Defined.

(** ** Unicode escapes *)

(** C2: what the lexer does on a unicode escape (a backslash and [u]).
    The four characters after it are sliced and then split with
    [unicodes.split("")], and [split] refuses an empty separator: the scan
    raises [ValueError] before the test of the hexadecimal digits, whatever
    the four characters are.  So [loads] fails on the text
    [{"a":"?u0041"}] (with a backslash for [?]), although the escape
    replacements alone would turn the raw literal into one holding
    [u0041]. *)
Theorem C2_unicode_escape :
  (forall fuel json idx,
      String.get idx json = Some backslash ->
      String.get (idx + 1) json = Some "u"%char ->
      Pyson3.scan_string (S fuel) json idx = Raise (ValueError (Plain "empty separator"))) /\
  Pyson3.lex (dq "{'a':'" ++ esc "u" ++ dq "0041'}")
    = Raise (ValueError (Plain "empty separator")) /\
  Pyson3.loads (dq "{'a':'" ++ esc "u" ++ dq "0041'}")
    = Raise (ValueError (Plain "empty separator")) /\
  decode_escapes (dq "'" ++ esc "u" ++ dq "0041'") = dq "'u0041'".
Proof.
  split; [| repeat split; vm_compute; reflexivity].
  intros fuel json idx Hb Hu. simpl.
  unfold str_index. rewrite Hb; simpl. rewrite Hu; simpl. reflexivity.
Qed.

Lemma C2_unicode_escape_witness :
  Pyson3.scan_string 1 (dq "'" ++ esc "u" ++ dq "0041'") 1
    = Raise (ValueError (Plain "empty separator")).
Proof.
  refine (proj1 C2_unicode_escape 0 (dq "'" ++ esc "u" ++ dq "0041'")%string 1 _ _);
    reflexivity.
Defined.

(** ** Numeric runs *)

Lemma numeric_dispatch (c : ascii) :
  char_in c NUMERIC = true ->
  Ascii.eqb c "{" = false /\ Ascii.eqb c "}" = false /\ Ascii.eqb c "[" = false /\
  Ascii.eqb c "]" = false /\ Ascii.eqb c ":" = false /\ Ascii.eqb c "," = false /\
  Ascii.eqb c "t" = false /\ Ascii.eqb c "f" = false /\ Ascii.eqb c "n" = false /\
  Ascii.eqb c dquote = false.
Proof.
  unfold char_in, NUMERIC; simpl. intros H.
  repeat (apply orb_prop in H; destruct H as [H | H]);
    try discriminate H;
    apply Ascii.eqb_eq in H; subst c; repeat split; reflexivity.
Qed.

(** On a character of [NUMERIC] the lexer runs the numeric loop from that
    position. *)
Lemma lex_step_numeric (json : string) (i : nat) (c : ascii) :
  String.get i json = Some c -> char_in c NUMERIC = true ->
  Pyson3.lex_step json i =
    (j <- Pyson3.scan_number (S (String.length json)) json i ;;
     Ok (Some (Pyson3.mkToken NUMBER i j), j)).
Proof.
  intros Hc Hn. unfold Pyson3.lex_step, str_index. rewrite Hc; cbn [bind].
  destruct (numeric_dispatch c Hn) as (-> & -> & -> & -> & -> & -> & -> & -> & -> & ->).
  rewrite Hn. reflexivity.
Qed.

(** C10: the numeric case of the lexer.  A run of [NUMERIC] characters that
    is followed by another character gives a NUMBER token spanning exactly
    the run.  A run that reaches the end of the text does not: the loop
    [while json[i] in NUMERIC] has no test of the length, reads [json[i]]
    one position after the last character and raises [IndexError], as on
    ['[1,2] 5']. *)
Theorem C10_numeric_run :
  (forall json i j c d,
      String.get i json = Some c -> char_in c NUMERIC = true ->
      i <= j ->
      (forall k, i <= k < j ->
         exists x, String.get k json = Some x /\ char_in x NUMERIC = true) ->
      String.get j json = Some d -> char_in d NUMERIC = false ->
      Pyson3.lex_step json i = Ok (Some (Pyson3.mkToken NUMBER i j), j)) /\
  (forall json i c,
      String.get i json = Some c -> char_in c NUMERIC = true ->
      (forall k x, i <= k -> String.get k json = Some x -> char_in x NUMERIC = true) ->
      Pyson3.lex_step json i = Raise IndexError /\
      Pyson3.lex_loop (S (String.length json - i)) json [] i = Raise IndexError) /\
  Pyson3.lex "[1,2] 5" = Raise IndexError /\
  Pyson3.loads "[1,2] 5" = Raise IndexError.
Proof.
  split; [| split; [| split; vm_compute; reflexivity]].
  - intros json i j c d Hc Hn Hle Hrun Hd Hdn.
    rewrite (lex_step_numeric json i c Hc Hn).
    pose proof (get_Some_lt _ _ _ Hd) as Hlt.
    rewrite (scan_number_run json (S (String.length json)) i j d Hle); auto.
    lia.
  - intros json i c Hc Hn Hrun.
    assert (Hstep : Pyson3.lex_step json i = Raise IndexError).
    { rewrite (lex_step_numeric json i c Hc Hn).
      rewrite scan_number_end; auto. lia. }
    split; [exact Hstep |].
    simpl. apply get_Some_lt in Hc.
    apply Nat.ltb_lt in Hc. rewrite Hc, Hstep. reflexivity.
Qed.

Lemma C10_numeric_run_witness :
  Pyson3.lex_step "[12]" 1 = Ok (Some (Pyson3.mkToken NUMBER 1 3), 3) /\
  Pyson3.lex_step "[1,2] 5" 6 = Raise IndexError.
Proof.
  split.
  - refine (proj1 C10_numeric_run "[12]" 1 3 "1"%char "]"%char _ _ _ _ _ _);
      try reflexivity; [lia |].
    intros k Hk.
    destruct (Nat.eq_dec k 1) as [-> | H1]; [exists "1"%char; split; reflexivity |].
    destruct (Nat.eq_dec k 2) as [-> | H2]; [exists "2"%char; split; reflexivity | lia].
  - refine (proj1 (proj1 (proj2 C10_numeric_run) "[1,2] 5" 6 "5"%char _ _ _));
      try reflexivity.
    intros k x Hk Hx.
    destruct (Nat.eq_dec k 6) as [-> | H6]; [injection Hx as <-; reflexivity |].
    apply get_Some_lt in Hx. simpl in Hx. lia.
Defined.

(** ** String literals keep their quotes *)

Lemma prefix_String (a b : ascii) (s1 s2 : string) :
  String.prefix (String a s1) (String b s2) = Ascii.eqb a b && String.prefix s1 s2.
Proof.
  change (String.prefix (String a s1) (String b s2))
    with (if ascii_dec a b then String.prefix s1 s2 else false).
  destruct (ascii_dec a b) as [-> | Hab].
  - rewrite Ascii.eqb_refl. reflexivity.
  - apply Ascii.eqb_neq in Hab. rewrite Hab. reflexivity.
Qed.

Lemma prefix_empty (s : string) : String.prefix EmptyString s = true.
Proof. destruct s; reflexivity. Qed.

Lemma prefix_esc (c x y : ascii) (r : string) :
  String.prefix (esc c) (String x (String y r)) = Ascii.eqb x backslash && Ascii.eqb y c.
Proof.
  unfold esc. rewrite !prefix_String, prefix_empty, andb_true_r.
  rewrite (Ascii.eqb_sym backslash x), (Ascii.eqb_sym c y). reflexivity.
Qed.

Lemma replace_from_0 (old new : string) (x : ascii) (s : string) :
  replace_from old new 0 (String x s) =
    if String.prefix old (String x s)
    then (new ++ replace_from old new (String.length old - 1) s)%string
    else String x (replace_from old new 0 s).
Proof. reflexivity. Qed.

(** [replace] with a two-character [old], two characters at a time. *)
Lemma replace_from_esc (c : ascii) (new : string) (x y : ascii) (r : string) :
  replace_from (esc c) new 0 (String x (String y r)) =
    if Ascii.eqb x backslash && Ascii.eqb y c
    then (new ++ replace_from (esc c) new 0 r)%string
    else String x (replace_from (esc c) new 0 (String y r)).
Proof. rewrite replace_from_0, prefix_esc. reflexivity. Qed.

Lemma replace_from_esc_one (c : ascii) (new : string) (x : ascii) :
  replace_from (esc c) new 0 (String x EmptyString) = String x EmptyString.
Proof.
  rewrite replace_from_0. unfold esc. rewrite prefix_String.
  replace (String.prefix (String c EmptyString) EmptyString) with false by reflexivity.
  rewrite andb_false_r. reflexivity.
Qed.

Lemma append_assoc (a b c : string) : ((a ++ b) ++ c = a ++ (b ++ c))%string.
Proof. induction a as [| x a IH]; simpl; [reflexivity | rewrite IH; reflexivity]. Qed.

(** A replacement leaves a closing quote at the end of the text, provided
    that the replacement of an escaped quote ends with a quote. *)
Lemma replace_keeps_last_quote (c : ascii) (new : string) :
  (c = dquote -> new = str1 dquote) ->
  forall n body, String.length body <= n ->
    exists body',
      replace_from (esc c) new 0 (body ++ str1 dquote) = (body' ++ str1 dquote)%string.
Proof.
  intros Hnew. induction n as [| n IH]; intros body Hlen.
  - destruct body; simpl in Hlen; [| lia].
    exists EmptyString. apply replace_from_esc_one.
  - destruct body as [| x body]; [exists EmptyString; apply replace_from_esc_one |].
    simpl in Hlen.
    destruct body as [| y body].
    + change ((String x EmptyString ++ str1 dquote)%string)
        with (String x (String dquote EmptyString)).
      rewrite replace_from_esc.
      destruct (Ascii.eqb x backslash && Ascii.eqb dquote c) eqn:Hm.
      * apply andb_prop in Hm. destruct Hm as [_ Hc].
        apply Ascii.eqb_eq in Hc. rewrite (Hnew (eq_sym Hc)).
        exists EmptyString. reflexivity.
      * exists (String x EmptyString).
        rewrite replace_from_esc_one. reflexivity.
    + change ((String x (String y body) ++ str1 dquote)%string)
        with (String x (String y (body ++ str1 dquote))).
      rewrite replace_from_esc.
      destruct (Ascii.eqb x backslash && Ascii.eqb y c).
      * destruct (IH body) as [body' Hb]; [simpl in Hlen; lia |].
        exists (new ++ body')%string. rewrite Hb, append_assoc. reflexivity.
      * destruct (IH (String y body)) as [body' Hb]; [lia |].
        exists (String x body').
        change (String y (body ++ str1 dquote)) with ((String y body ++ str1 dquote)%string).
        rewrite Hb. reflexivity.
Qed.

Lemma replace_quoted (c : ascii) (new s : string) :
  (c = dquote -> new = str1 dquote) ->
  quoted s -> quoted (replace (esc c) new s).
Proof.
  intros Hnew [body ->].
  destruct (replace_keeps_last_quote c new Hnew (String.length body) body (le_n _))
    as [body' Hb].
  exists body'.
  change (replace (esc c) new (String dquote (body ++ str1 dquote)))
    with (replace_from (esc c) new 0 (String dquote (body ++ str1 dquote))).
  rewrite replace_from_0. unfold esc at 1. rewrite prefix_String.
  replace (Ascii.eqb backslash dquote) with false by reflexivity.
  cbn [andb]. rewrite Hb. reflexivity.
Qed.

(** The escape replacements keep the delimiting quotes of a literal. *)
Lemma decode_escapes_quoted (raw : string) : quoted raw -> quoted (decode_escapes raw).
Proof.
  intros H. unfold decode_escapes.
  repeat (apply replace_quoted; [first [discriminate | reflexivity] |]).
  exact H.
Qed.

Lemma substring_ends_with (s : string) : forall m y,
  1 <= m -> String.get (m - 1) s = Some y ->
  exists body, String.substring 0 m s = (body ++ str1 y)%string.
Proof.
  induction s as [| c s IH]; intros m y Hm Hy; [discriminate |].
  destruct m as [| [| m]]; [lia | |].
  - simpl in Hy. injection Hy as ->. exists EmptyString.
    simpl. destruct s; reflexivity.
  - simpl in Hy. destruct (IH (S m) y) as [body Hb]; [lia | |].
    + replace (S m - 1) with m by lia. exact Hy.
    + exists (String c body).
      change (String.substring 0 (S (S m)) (String c s))
        with (String c (String.substring 0 (S m) s)).
      rewrite Hb. reflexivity.
Qed.

Lemma substring_between (s : string) : forall n m x y,
  2 <= m -> String.get n s = Some x -> String.get (n + m - 1) s = Some y ->
  exists body, String.substring n m s = String x (body ++ str1 y).
Proof.
  induction s as [| c s IH]; intros n m x y Hm Hx Hy; [discriminate |].
  destruct n as [| n].
  - simpl in Hx. injection Hx as ->.
    destruct m as [| m]; [lia |].
    replace (0 + S m - 1) with (S (m - 1)) in Hy by lia.
    destruct (substring_ends_with s m y) as [body Hb]; [lia | exact Hy |].
    exists body.
    change (String.substring 0 (S m) (String x s)) with (String x (String.substring 0 m s)).
    rewrite Hb. reflexivity.
  - replace (S n + m - 1) with (S (n + m - 1)) in Hy by lia.
    apply (IH n m x y Hm Hx Hy).
Qed.

(** The raw text of a STRING token of [lex] starts and ends with a quote. *)
Lemma get_string_quoted (json : string) (t : Pyson3.Token) :
  string_span json t -> Pyson3.type t = STRING -> quoted (Pyson3.get_string json t).
Proof.
  intros Hspan Hty. destruct (Hspan Hty) as (Hlen & _ & Hfirst & Hlast).
  unfold Pyson3.get_string, str_slice.
  apply substring_between; [lia | exact Hfirst |].
  replace (Pyson3.start t + (Pyson3.end_ t - Pyson3.start t) - 1)
    with (Pyson3.end_ t - 1) by lia.
  exact Hlast.
Qed.

(** ** Objects *)

Lemma dict_mem_set_same {V} (key : string) (v : V) (d : list (string * V)) :
  dict_mem key (dict_set key v d) = true.
Proof.
  induction d as [| [k v'] d IH]; simpl.
  - rewrite String.eqb_refl. reflexivity.
  - destruct (String.eqb key k) eqn:Hk; simpl; rewrite Hk; simpl; [reflexivity | exact IH].
Qed.

Lemma dict_mem_set_other {V} (k key : string) (v : V) (d : list (string * V)) :
  dict_mem k d = true -> dict_mem k (dict_set key v d) = true.
Proof.
  induction d as [| [k' v'] d IH]; simpl; [discriminate |].
  intros H. destruct (String.eqb key k'); simpl.
  - exact H.
  - apply orb_prop in H. destruct H as [H | H]; [rewrite H; reflexivity |].
    rewrite (IH H). apply orb_true_r.
Qed.

(** The loop of [parse_object] never unbinds a key. *)
Lemma parse_object_loop_keeps_keys (tokens : list Pyson3.Token) (json : string) :
  forall fuel result known i r i',
    Pyson3.parse_object_loop tokens json fuel result known i = Ok (r, i') ->
    forall k, dict_mem k result = true -> dict_mem k r = true.
Proof.
  induction fuel as [| fuel IH]; intros result known i r i' H k Hk; [discriminate |].
  simpl in H.
  destruct (i <? Pyson3.length tokens)%nat; [| injection H as <- <-; exact Hk].
  apply bind_ok_inv in H. destruct H as (t & _ & H).
  destruct (Pyson3.type t);
    try (injection H as <- <-; exact Hk); try solve [raise_not_Ok H].
  destruct (String.eqb _ _); [discriminate |].
  destruct (set_mem _ _); [raise_not_Ok H |].
  apply bind_ok_inv in H. destruct H as (c & _ & H).
  destruct (negb _); [raise_not_Ok H |].
  apply bind_ok_inv in H. destruct H as ([v j] & _ & H).
  apply bind_ok_inv in H. destruct H as ([v' j'] & _ & H).
  apply (IH _ _ _ _ _ H). apply dict_mem_set_other. exact Hk.
Qed.

(** C3 (as the code has it): the decoded text of a STRING token keeps the
    two delimiting quote characters.  The escape replacements are applied
    to the whole span [json[start:end]], whose first and last characters
    are the quotes, and nothing removes them: the text that [parse_value]
    returns, and the key that [parse_object] binds, start with a quote and
    end with a quote. *)
Theorem C3_quotes_kept :
  (forall json tokens t,
      Pyson3.lex json = Ok tokens -> In t tokens -> Pyson3.type t = STRING ->
      quoted (Pyson3.get_string json t) /\ quoted (Pyson3.normalized_string json t)) /\
  (forall tokens json fuel i t,
      nth_error tokens i = Some t -> Pyson3.type t = STRING ->
      Pyson3.parse_value_match tokens json (S fuel) i
        = Ok (VStr (Pyson3.normalized_string json t), i + 1)) /\
  (forall tokens json fuel result known i t r i',
      nth_error tokens i = Some t -> Pyson3.type t = STRING ->
      Pyson3.parse_object_loop tokens json fuel result known i = Ok (r, i') ->
      dict_mem (Pyson3.normalized_string json t) r = true) /\
  Pyson3.loads (dq "['a']") = Ok (VArray [VStr (dq "'a'")]) /\
  Pyson3.loads (dq "{'k':'v'}") = Ok (VObject [(dq "'k'", VStr (dq "'v'"))]).
Proof.
  split; [| split; [| split; [| split; vm_compute; reflexivity]]].
  - intros json tokens t Hlex Hin Hty.
    pose proof (lex_string_span json tokens Hlex) as Hall.
    rewrite Forall_forall in Hall.
    pose proof (get_string_quoted json t (Hall t Hin) Hty) as Hq.
    split; [exact Hq |]. apply decode_escapes_quoted. exact Hq.
  - intros tokens json fuel i t Ht Hty. simpl.
    unfold list_index. rewrite Ht; simpl. rewrite Hty. reflexivity.
  - intros tokens json fuel result known i t r i' Ht Hty H.
    destruct fuel as [| fuel]; [discriminate |]. simpl in H.
    assert (Hi : (i <? Pyson3.length tokens)%nat = true).
    { apply Nat.ltb_lt. apply nth_error_Some. congruence. }
    rewrite Hi in H. unfold list_index at 1 in H. rewrite Ht in H; simpl in H.
    rewrite Hty in H.
    destruct (String.eqb _ _); [discriminate |].
    destruct (set_mem _ _); [raise_not_Ok H |].
    apply bind_ok_inv in H. destruct H as (c & _ & H).
    destruct (negb _); [raise_not_Ok H |].
    apply bind_ok_inv in H. destruct H as ([v j] & _ & H).
    apply bind_ok_inv in H. destruct H as ([v' j'] & _ & H).
    apply (parse_object_loop_keeps_keys _ _ _ _ _ _ _ _ H).
    apply dict_mem_set_same.
Qed.

Lemma C3_quotes_kept_witness :
  quoted (Pyson3.normalized_string (dq "['a']") (Pyson3.mkToken STRING 1 4)).
Proof.
  refine (proj2 (proj1 C3_quotes_kept (dq "['a']")
            [Pyson3.mkToken L_BRACKET 0 1; Pyson3.mkToken STRING 1 4;
             Pyson3.mkToken R_BRACKET 4 5]
            (Pyson3.mkToken STRING 1 4) _ _ _));
    [reflexivity | simpl; auto | reflexivity].
Defined.

(** The claim C3 as the specification words it fails on ['["a"]'] and on
    ['{"k":1}']: the decoded texts are the three characters quote, letter,
    quote. *)
Lemma C3_counterexample :
  Pyson3.loads (dq "['a']")
    = Ok (VArray [VStr (String dquote (String "a" (String dquote EmptyString)))]) /\
  Pyson3.loads (dq "{'k':1}")
    = Ok (VObject [(String dquote (String "k" (String dquote EmptyString)), VInt 1)]) /\
  Pyson3.loads (dq "['a']") <> Ok (VArray [VStr "a"]).
Proof.
  repeat split; try (vm_compute; reflexivity).
  vm_compute. discriminate.
Qed.

Lemma set_mem_add (k key : string) (known : list string) :
  set_mem k (set_add key known) = String.eqb k key || set_mem k known.
Proof.
  unfold set_add. destruct (set_mem key known) eqn:Hkey; [| reflexivity].
  destruct (String.eqb k key) eqn:Hk; [| reflexivity].
  apply String.eqb_eq in Hk. subst k. exact Hkey.
Qed.

Lemma dict_mem_set {V} (k key : string) (v : V) (d : list (string * V)) :
  dict_mem k (dict_set key v d) = String.eqb k key || dict_mem k d.
Proof.
  induction d as [| [k' v'] d IH]; simpl.
  - reflexivity.
  - destruct (String.eqb key k') eqn:Hk; simpl.
    + apply String.eqb_eq in Hk. subst k'.
      destruct (String.eqb k key); reflexivity.
    + rewrite IH. destruct (String.eqb k key), (String.eqb k k'); reflexivity.
Qed.

(** ** Errors *)

Lemma bind_raise_inv {T A B} (c : result T A) (k : A -> result T B) (e : exn T) :
  bind c k = Raise e -> c = Raise e \/ exists a, c = Ok a /\ k a = Raise e.
Proof.
  destruct c as [a | e' | ]; simpl; intros H; try discriminate.
  - right. exists a. auto.
  - left. injection H as ->. reflexivity.
Qed.

Lemma context_at_le (tokens : list Pyson3.Token) (i0 i1 : nat) (e : exn Pyson3.Token) :
  i0 <= i1 -> context_at tokens i1 e -> context_at tokens i0 e.
Proof.
  intros Hle. destruct e as [[msg | msg prior i value] | | | | |]; simpl; auto.
  intros (Hi & H). split; [lia | exact H].
Qed.

Lemma list_index_raise {A} (l : list A) (i : nat) (e : exn Pyson3.Token) :
  list_index l i = Raise e -> e = IndexError.
Proof.
  unfold list_index. destruct (nth_error l i); intros H; [discriminate | congruence].
Qed.

Lemma str_index_raise (s : string) (i : nat) (e : exn Pyson3.Token) :
  str_index s i = Raise e -> e = IndexError.
Proof.
  unfold str_index. destruct (String.get i s); intros H; [discriminate | congruence].
Qed.

Lemma py_float_raise (s : string) (e : exn Pyson3.Token) :
  py_float s = Raise e -> e = ValueError (Plain (float_message s)).
Proof.
  unfold py_float.
  repeat match goal with
    | |- context [let (_, _) := ?p in _] => destruct p
    | |- context [if ?b then _ else _] => destruct b
    | |- context [match ?s with EmptyString => _ | String _ _ => _ end] => destruct s
    end; intros H; try discriminate; congruence.
Qed.

(** What the call [ValueError(self._error(msg))] raises with the cursor
    at [i]. *)
Lemma raise_error_context {A} (tokens : list Pyson3.Token) (i : nat) (msg : string)
      (e : exn Pyson3.Token) :
  (m <- Pyson3._error tokens (Some i) msg ;; @Raise Pyson3.Token A (ValueError m)) = Raise e ->
  context_at tokens i e.
Proof.
  unfold Pyson3._error, list_index.
  destruct (nth_error tokens i) as [value |] eqn:Hv; simpl; intros [= <-]; simpl; auto.
Qed.

Lemma consume_comma_raise (tokens : list Pyson3.Token) (r : Value * nat) (e : exn Pyson3.Token) :
  Pyson3.consume_comma tokens r = Raise e -> e = IndexError.
Proof.
  destruct r as [v i]. unfold Pyson3.consume_comma, list_index.
  destruct (nth_error tokens i) as [t |]; simpl; [| congruence].
  destruct (TokenType_eqb _ _); discriminate.
Qed.

Ltac index_error H :=
  first [apply list_index_raise in H | apply str_index_raise in H
        | apply consume_comma_raise in H];
  subst; exact I.

(** Every exception of the parser that carries a context was built by
    [_error] at a cursor of the call. *)
Lemma parse_error_context (tokens : list Pyson3.Token) (json : string) : forall fuel,
  (forall i e, Pyson3.parse_value_match tokens json fuel i = Raise e ->
               context_at tokens i e) /\
  (forall result known i e,
      Pyson3.parse_object_loop tokens json fuel result known i = Raise e ->
      context_at tokens i e) /\
  (forall result i e, Pyson3.parse_array_loop tokens json fuel result i = Raise e ->
                      context_at tokens i e).
Proof.
  induction fuel as [| fuel (IHv & IHo & IHa)];
    [repeat split; intros; discriminate |].
  destruct (parse_progress tokens json fuel) as (Pv & Po & Pa).
  repeat split.
  - intros i e H. simpl in H.
    apply bind_raise_inv in H. destruct H as [H | (t & _ & H)]; [index_error H |].
    destruct (Pyson3.type t); try discriminate H;
      try (apply raise_error_context in H; exact H).
    + apply bind_raise_inv in H. destruct H as [H | ([o j] & _ & H)]; [| discriminate H].
      apply IHo in H. apply (context_at_le tokens i (i + 1)); [lia | exact H].
    + apply bind_raise_inv in H. destruct H as [H | ([a j] & _ & H)]; [| discriminate H].
      apply IHa in H. apply (context_at_le tokens i (i + 1)); [lia | exact H].
    + apply bind_raise_inv in H. destruct H as [H | (f & _ & H)].
      * apply py_float_raise in H. subst e. exact I.
      * destruct (contains _ _); [discriminate H |].
        apply bind_raise_inv in H. destruct H as [H | (z & _ & H)]; [| discriminate H].
        destruct f; try discriminate H; injection H as <-; exact I.
  - intros result known i e H. simpl in H.
    destruct (i <? Pyson3.length tokens)%nat; [| discriminate H].
    apply bind_raise_inv in H. destruct H as [H | (t & _ & H)]; [index_error H |].
    destruct (Pyson3.type t); try discriminate H;
      try (apply raise_error_context in H; exact H).
    destruct (String.eqb _ _); [injection H as <-; exact I |].
    destruct (set_mem _ _); [apply raise_error_context in H; exact H |].
    apply bind_raise_inv in H. destruct H as [H | (c & _ & H)]; [index_error H |].
    destruct (negb _).
    { apply raise_error_context in H.
      apply (context_at_le tokens i (i + 1)); [lia | exact H]. }
    apply bind_raise_inv in H. destruct H as [H | ([v j] & Hv & H)].
    { apply IHv in H. apply (context_at_le tokens i (i + 1 + 1)); [lia | exact H]. }
    apply bind_raise_inv in H. destruct H as [H | ([v' j'] & Hc & H)]; [index_error H |].
    apply Pv in Hv. apply consume_comma_Ok in Hc. apply IHo in H.
    apply (context_at_le tokens i j'); [| exact H].
    destruct Hc as (_ & t' & _ & [[_ ->] | [_ ->]]); lia.
  - intros result i e H. simpl in H.
    destruct (i <? Pyson3.length tokens)%nat; [| discriminate H].
    apply bind_raise_inv in H. destruct H as [H | (t & _ & H)]; [index_error H |].
    destruct (Pyson3.type t); try discriminate H;
      (apply bind_raise_inv in H; destruct H as [H | ([v j] & Hv & H)];
       [apply IHv in H; exact H |];
       apply bind_raise_inv in H; destruct H as [H | ([v' j'] & Hc & H)];
       [index_error H |];
       apply Pv in Hv; apply consume_comma_Ok in Hc; apply IHa in H;
       apply (context_at_le tokens i j'); [| exact H];
       destruct Hc as (_ & t' & _ & [[_ ->] | [_ ->]]); lia).
Qed.

(** The exceptions of the lexer carry no context. *)
Lemma scan_number_plain (json : string) : forall fuel i e,
  Pyson3.scan_number fuel json i = Raise e -> plain_error e.
Proof.
  induction fuel as [| fuel IH]; intros i e H; [discriminate |].
  simpl in H. apply bind_raise_inv in H. destruct H as [H | (c & _ & H)].
  - left. apply (str_index_raise _ _ _ H).
  - destruct (char_in c NUMERIC); [apply (IH _ _ H) | discriminate].
Qed.

Lemma scan_string_plain (json : string) : forall fuel idx e,
  Pyson3.scan_string fuel json idx = Raise e -> plain_error e.
Proof.
  induction fuel as [| fuel IH]; intros idx e H; [discriminate |].
  simpl in H. apply bind_raise_inv in H. destruct H as [H | (v & _ & H)].
  { left. apply (str_index_raise _ _ _ H). }
  destruct (Ascii.eqb v dquote); [discriminate |].
  destruct (Ascii.eqb v backslash); [| apply (IH _ _ H)].
  apply bind_raise_inv in H. destruct H as [H | (n & _ & H)].
  { left. apply (str_index_raise _ _ _ H). }
  destruct (char_in n _); [apply (IH _ _ H) |].
  destruct (Ascii.eqb n "u"); injection H as <-; right; eexists; reflexivity.
Qed.

Lemma lex_step_plain (json : string) (i : nat) (e : exn Pyson3.Token) :
  Pyson3.lex_step json i = Raise e -> plain_error e.
Proof.
  unfold Pyson3.lex_step. intros H.
  apply bind_raise_inv in H. destruct H as [H | (v & _ & H)].
  { left. apply (str_index_raise _ _ _ H). }
  split_ifs H; try discriminate H;
    try (injection H as <-; right; eexists; reflexivity).
  - apply bind_raise_inv in H. destruct H as [H | (idx & _ & H)]; [| discriminate H].
    apply (scan_string_plain _ _ _ _ H).
  - apply bind_raise_inv in H. destruct H as [H | (j & _ & H)]; [| discriminate H].
    apply (scan_number_plain _ _ _ _ H).
Qed.

Lemma lex_loop_plain (json : string) : forall fuel tokens i e,
  Pyson3.lex_loop fuel json tokens i = Raise e -> plain_error e.
Proof.
  induction fuel as [| fuel IH]; intros tokens i e H; [discriminate |].
  simpl in H. destruct (i <? String.length json)%nat; [| discriminate].
  apply bind_raise_inv in H. destruct H as [H | ([tok j] & _ & H)].
  - apply (lex_step_plain _ _ _ H).
  - destruct tok; apply (IH _ _ _ H).
Qed.

(** C8 (as the code has it): an error of the parser that is built by
    [_error] carries the cursor, the token at the cursor and, when the
    cursor is at least 2, the two tokens before it.  An error of the lexer
    carries no context: it is an [IndexError] or a [ValueError] with a bare
    message, and [loads] raises it unchanged. *)
Theorem C8_error_context :
  (forall json msg prior_tokens i value,
      Pyson3.loads json = Raise (ValueError (Context msg prior_tokens i value)) ->
      exists tokens,
        Pyson3.lex json = Ok tokens /\
        nth_error tokens i = Some value /\
        1 <= i /\
        (2 <= i ->
         exists a b,
           nth_error tokens (i - 2) = Some a /\ nth_error tokens (i - 1) = Some b /\
           prior_tokens = [a; b])) /\
  (forall json e,
      Pyson3.lex json = Raise e ->
      Pyson3.loads json = Raise e /\ plain_error e) /\
  Pyson3.loads (dq "{'a':tru}") = Raise (ValueError (Plain "Invalid true value")) /\
  Pyson3.loads (dq "{'a' 1}")
    = Raise (ValueError (Context "Expected colon"
               [Pyson3.mkToken L_CURLY 0 1; Pyson3.mkToken STRING 1 4] 2
               (Pyson3.mkToken NUMBER 5 6))).
Proof.
  split; [| split; [| split; vm_compute; reflexivity]].
  - intros json msg prior i value H.
    unfold Pyson3.loads, Pyson3.parse in H.
    apply bind_raise_inv in H. destruct H as [H | (tokens & Hlex & H)].
    { apply lex_loop_plain in H. destruct H as [H | [m H]]; discriminate H. }
    exists tokens. split; [exact Hlex |].
    destruct (List.length tokens <? 2)%nat eqn:Hlen; [discriminate H |].
    assert (Hctx : context_at tokens 1 (ValueError (Context msg prior i value))).
    { apply bind_raise_inv in H. destruct H as [H | (t & _ & H)].
      { apply list_index_raise in H. discriminate H. }
      destruct (parse_error_context tokens json (Pyson3.parse_fuel tokens)) as (_ & Ho & Ha).
      destruct (Pyson3.type t);
        try (apply raise_error_context in H; exact H).
      - apply bind_raise_inv in H. destruct H as [H | ([o j] & _ & H)]; [| discriminate H].
        apply (Ho _ _ _ _ H).
      - apply bind_raise_inv in H. destruct H as [H | ([a j] & _ & H)]; [| discriminate H].
        apply (Ha _ _ _ H). }
    destruct Hctx as (Hi & Hvalue & Hprior).
    split; [exact Hvalue |]. split; [exact Hi |].
    intros Hi2.
    destruct (slice_two_before tokens i value Hi2 Hvalue) as (a & b & Ha & Hb & Hs).
    exists a, b. rewrite Hprior. auto.
  - intros json e Hlex. split.
    + unfold Pyson3.loads, Pyson3.parse. rewrite Hlex. reflexivity.
    + apply (lex_loop_plain _ _ _ _ _ Hlex).
Qed.

Lemma C8_error_context_witness :
  (exists tokens,
      Pyson3.lex (dq "{'a' 1}") = Ok tokens /\
      nth_error tokens 2 = Some (Pyson3.mkToken NUMBER 5 6) /\
      1 <= 2 /\
      (2 <= 2 ->
       exists a b,
         nth_error tokens (2 - 2) = Some a /\ nth_error tokens (2 - 1) = Some b /\
         [Pyson3.mkToken L_CURLY 0 1; Pyson3.mkToken STRING 1 4] = [a; b])) /\
  (Pyson3.loads "[tru]" = Raise (ValueError (Plain "Invalid true value")) /\
   plain_error (ValueError (Plain "Invalid true value"))).
Proof.
  split.
  - refine (proj1 C8_error_context (dq "{'a' 1}") "Expected colon"
              [Pyson3.mkToken L_CURLY 0 1; Pyson3.mkToken STRING 1 4] 2
              (Pyson3.mkToken NUMBER 5 6) _).
    reflexivity.
  - refine (proj1 (proj2 C8_error_context) "[tru]" (ValueError (Plain "Invalid true value")) _).
    reflexivity.
Defined.

(** The claim C8 as the specification words it fails on ['{"a":tru}'],
    where the lexer raises a bare message, and on ['true]'], where the
    parser fails at cursor 1 with one token before the cursor and none in
    the context. *)
Lemma C8_counterexample :
  Pyson3.loads (dq "{'a':tru}") = Raise (ValueError (Plain "Invalid true value")) /\
  Pyson3.lex "true]" = Ok [Pyson3.mkToken BOOLEAN 0 4; Pyson3.mkToken R_BRACKET 4 5] /\
  Pyson3.loads "true]"
    = Raise (ValueError (Context "Invalid input" [] 1 (Pyson3.mkToken R_BRACKET 4 5))).
Proof. repeat split; vm_compute; reflexivity. Qed.

(** ** Truncated inputs *)

Lemma loop_exit_step (tokens : list Pyson3.Token) (close : TokenType) (i j j' i' : nat)
      (t : Pyson3.Token) :
  i < j -> nth_error tokens j = Some t ->
  (Pyson3.type t = COMMA /\ j' = j + 1) \/ (Pyson3.type t <> COMMA /\ j' = j) ->
  loop_exit tokens close j' i' -> loop_exit tokens close i i'.
Proof.
  intros Hij Ht Hcomma [(t' & Hlt & Ht' & Hty) | [(-> & Hlen) | (-> & Hlast)]].
  - left. exists t'. repeat split; auto. destruct Hcomma as [[_ ->] | [_ ->]]; lia.
  - assert (Hj : j < List.length tokens) by (apply nth_error_Some; congruence).
    destruct Hcomma as [[Hty ->] | [_ ->]]; [| lia].
    right; right. split; [lia |].
    exists t. replace (j + 1 - 1) with j by lia. auto.
  - right; right. split; [reflexivity | exact Hlast].
Qed.

Lemma parse_object_loop_exit (tokens : list Pyson3.Token) (json : string) :
  forall fuel result known i r i',
    Pyson3.parse_object_loop tokens json fuel result known i = Ok (r, i') ->
    loop_exit tokens R_CURLY i i'.
Proof.
  induction fuel as [| fuel IH]; intros result known i r i' H; [discriminate |].
  simpl in H.
  destruct (i <? Pyson3.length tokens)%nat eqn:Hi.
  2:{ injection H as <- <-. apply Nat.ltb_ge in Hi. right; left. auto. }
  apply bind_ok_inv in H. destruct H as (t & Ht & H). apply list_index_Ok in Ht.
  destruct (Pyson3.type t) eqn:Hty; try solve [raise_not_Ok H].
  - injection H as <- <-. left. exists t.
    replace (i + 1 - 1) with i by lia. repeat split; auto; lia.
  - destruct (String.eqb _ _); [discriminate |].
    destruct (set_mem _ _); [raise_not_Ok H |].
    apply bind_ok_inv in H. destruct H as (c & _ & H).
    destruct (negb _); [raise_not_Ok H |].
    apply bind_ok_inv in H. destruct H as ([v j] & Hv & H).
    apply bind_ok_inv in H. destruct H as ([v' j'] & Hc & H).
    apply (proj1 (parse_progress tokens json fuel)) in Hv.
    apply consume_comma_Ok in Hc. destruct Hc as (_ & t' & Ht' & Hcomma).
    apply IH in H. apply (loop_exit_step tokens R_CURLY i j j' i' t'); auto. lia.
Qed.

Lemma parse_array_loop_exit (tokens : list Pyson3.Token) (json : string) :
  forall fuel result i r i',
    Pyson3.parse_array_loop tokens json fuel result i = Ok (r, i') ->
    loop_exit tokens R_BRACKET i i'.
Proof.
  induction fuel as [| fuel IH]; intros result i r i' H; [discriminate |].
  simpl in H.
  destruct (i <? Pyson3.length tokens)%nat eqn:Hi.
  2:{ injection H as <- <-. apply Nat.ltb_ge in Hi. right; left. auto. }
  apply bind_ok_inv in H. destruct H as (t & Ht & H). apply list_index_Ok in Ht.
  assert (Hstep : forall fuel' : nat, fuel' = fuel ->
            (r0 <- Pyson3.parse_value_match tokens json fuel' i ;;
             ' (value, i0) <- Pyson3.consume_comma tokens r0 ;;
             Pyson3.parse_array_loop tokens json fuel' (result ++ [value]) i0) = Ok (r, i') ->
            loop_exit tokens R_BRACKET i i').
  { intros fuel' -> H'.
    apply bind_ok_inv in H'. destruct H' as ([v j] & Hv & H').
    apply bind_ok_inv in H'. destruct H' as ([v' j'] & Hc & H').
    apply (proj1 (parse_progress tokens json fuel)) in Hv.
    apply consume_comma_Ok in Hc. destruct Hc as (_ & t' & Ht' & Hcomma).
    apply IH in H'. apply (loop_exit_step tokens R_BRACKET i j j' i' t'); auto. }
  destruct (Pyson3.type t) eqn:Hty; try (apply (Hstep fuel eq_refl H)).
  injection H as <- <-. left. exists t.
  replace (i + 1 - 1) with i by lia. repeat split; auto; lia.
Qed.




(** ** The first and the third variant agree *)

Lemma agree_bind {T1 T3 A B C D} (R : A -> B -> Prop) (Q : C -> D -> Prop)
      (c1 : result T1 A) (c3 : result T3 B)
      (k1 : A -> result T1 C) (k3 : B -> result T3 D) :
  agree R c1 c3 ->
  (forall a b, R a b -> agree Q (k1 a) (k3 b)) ->
  agree Q (bind c1 k1) (bind c3 k3).
Proof.
  destruct c1 as [a | e1 |], c3 as [b | e3 |]; simpl; intros Hc Hk;
    try contradiction; auto.
Qed.

Lemma agree_raised {T1 T3 A B} (R : A -> B -> Prop)
      (r1 : result T1 A) (r3 : result T3 B) :
  raised r1 -> raised r3 -> agree R r1 r3.
Proof. intros [e1 ->] [e3 ->]. exact I. Qed.

Lemma agree_str_index {T1 T3} (s : string) (i : nat) :
  agree eq (@str_index T1 s i) (@str_index T3 s i).
Proof. unfold str_index. destruct (String.get i s); simpl; auto. Qed.

Lemma agree_scan_number (json : string) : forall fuel i,
  agree eq (Pyson.scan_number fuel json i) (Pyson3.scan_number fuel json i).
Proof.
  induction fuel as [| fuel IH]; intros i; simpl; [exact I |].
  apply agree_bind with (R := eq); [apply agree_str_index |].
  intros c ? <-. destruct (char_in c NUMERIC); [apply IH | reflexivity].
Qed.

(** The first variant decodes the literal when the scan ends; the third
    keeps the span. *)
Lemma agree_scan_string (json : string) (i : nat) : forall fuel idx,
  agree (fun r1 j => r1 = (decode_escapes (str_slice json i j), j))
        (Pyson.scan_string fuel json i idx) (Pyson3.scan_string fuel json idx).
Proof.
  induction fuel as [| fuel IH]; intros idx; simpl; [exact I |].
  apply agree_bind with (R := eq); [apply agree_str_index |].
  intros v ? <-.
  destruct (Ascii.eqb v dquote); [reflexivity |].
  destruct (Ascii.eqb v backslash); [| apply IH].
  apply agree_bind with (R := eq); [apply agree_str_index |].
  intros n ? <-.
  destruct (char_in n _); [apply IH |].
  destruct (Ascii.eqb n "u"); exact I.
Qed.

Lemma agree_lex_step (json : string) (i : nat) :
  agree (fun r1 r3 => r1 = (option_map (copy_token json) (fst r3), snd r3))
        (Pyson.lex_step json i) (Pyson3.lex_step json i).
Proof.
  unfold Pyson.lex_step, Pyson3.lex_step.
  apply agree_bind with (R := eq); [apply agree_str_index |].
  intros v ? <-.
  repeat match goal with
    | |- context [if ?b then _ else _] => destruct b eqn:?
    end; try exact I; try reflexivity.
  - simpl. unfold copy_token, token_value, Pyson3.get_string; simpl.
    match goal with H : negb (String.eqb ?x _) = false |- _ =>
      apply negb_false_iff, String.eqb_eq in H; rewrite H end.
    reflexivity.
  - simpl. unfold copy_token, token_value, Pyson3.get_string; simpl.
    match goal with H : negb (String.eqb ?x _) = false |- _ =>
      apply negb_false_iff, String.eqb_eq in H; rewrite H end.
    reflexivity.
  - simpl. unfold copy_token, token_value, Pyson3.get_string; simpl.
    match goal with H : negb (String.eqb ?x _) = false |- _ =>
      apply negb_false_iff, String.eqb_eq in H; rewrite H end.
    reflexivity.
  - eapply agree_bind; [apply agree_scan_string |].
    intros [s idx1] idx [= -> ->]. reflexivity.
  - eapply agree_bind; [apply agree_scan_number |].
    intros j ? <-. reflexivity.
Qed.

Lemma agree_lex_loop (json : string) : forall fuel tokens i,
  agree (fun ts1 ts3 => ts1 = map (copy_token json) ts3)
        (Pyson.lex_loop fuel json (map (copy_token json) tokens) i)
        (Pyson3.lex_loop fuel json tokens i).
Proof.
  induction fuel as [| fuel IH]; intros tokens i; simpl; [exact I |].
  destruct (i <? String.length json)%nat; [| reflexivity].
  eapply agree_bind; [apply agree_lex_step |].
  intros [tok1 j1] [tok3 j3] [= -> ->]. simpl.
  destruct tok3 as [t |]; simpl; [| apply IH].
  replace (map (copy_token json) tokens ++ [copy_token json t])
    with (map (copy_token json) (tokens ++ [t])) by (rewrite map_app; reflexivity).
  apply IH.
Qed.

Lemma agree_lex (json : string) :
  agree (fun ts1 ts3 => ts1 = map (copy_token json) ts3)
        (Pyson.lex json) (Pyson3.lex json).
Proof. apply (agree_lex_loop json (S (String.length json)) [] 0). Qed.

Lemma agree_py_float {T1 T3} (s : string) :
  agree eq (@py_float T1 s) (@py_float T3 s).
Proof.
  unfold py_float.
  repeat match goal with
    | |- context [let (_, _) := ?p in _] => destruct p
    | |- context [if ?b then _ else _] => destruct b
    | |- context [match ?s with EmptyString => _ | String _ _ => _ end] => destruct s
    end; simpl; auto.
Qed.

Lemma agree_py_int {T1 T3} (f : spec_float) :
  agree eq (@py_int T1 f) (@py_int T3 f).
Proof. destruct f; simpl; auto. Qed.

Section Simulation.

Variable tokens : list Pyson3.Token.
Variable json : string.

Lemma agree_list_index (i : nat) :
  agree (fun t1 t3 => t1 = copy_token json t3)
        (@list_index Pyson.Token _ (copy_tokens json tokens) i) (@list_index Pyson3.Token _ tokens i).
Proof.
  unfold list_index, copy_tokens. rewrite nth_error_map.
  destruct (nth_error tokens i); simpl; auto.
Qed.

Lemma length_copy_tokens : Pyson.length (copy_tokens json tokens) = Pyson3.length tokens.
Proof. unfold Pyson.length, Pyson3.length, copy_tokens. apply length_map. Qed.

Lemma error1_raised {A} (i : option nat) (msg : string) :
  raised (m <- Pyson._error (copy_tokens json tokens) i msg ;; @Raise Pyson.Token A (ValueError m)).
Proof.
  destruct (Pyson._error (copy_tokens json tokens) i msg) as [m | e |] eqn:He; simpl.
  - eexists; reflexivity.
  - eexists; reflexivity.
  - exfalso. unfold Pyson._error in He. destruct i as [i |]; [| discriminate].
    unfold list_index in He. destruct (nth_error (copy_tokens json tokens) i); discriminate.
Qed.

Lemma error3_raised {A} (i : option nat) (msg : string) :
  raised (m <- Pyson3._error tokens i msg ;; @Raise Pyson3.Token A (ValueError m)).
Proof.
  destruct (Pyson3._error tokens i msg) as [m | e |] eqn:He; simpl.
  - eexists; reflexivity.
  - eexists; reflexivity.
  - exfalso. exact (_error_fuel tokens i msg He).
Qed.

Lemma agree_error {A B} (R : A -> B -> Prop) (i j : option nat) (msg : string) :
  agree R (m <- Pyson._error (copy_tokens json tokens) i msg ;; @Raise Pyson.Token A (ValueError m))
          (m <- Pyson3._error tokens j msg ;; @Raise Pyson3.Token B (ValueError m)).
Proof. apply agree_raised; [apply error1_raised | apply error3_raised]. Qed.

Lemma agree_consume_comma (r : Value * nat) :
  agree eq (Pyson.consume_comma (copy_tokens json tokens) r) (Pyson3.consume_comma tokens r).
Proof.
  destruct r as [v i]. unfold Pyson.consume_comma, Pyson3.consume_comma.
  eapply agree_bind; [apply agree_list_index |].
  intros t1 t3 ->. simpl.
  destruct (TokenType_eqb (Pyson3.type t3) COMMA); reflexivity.
Qed.

(** The parsers agree on every call, with the same fuel. *)
Lemma agree_parser : forall fuel,
  (forall i, agree eq (Pyson.parse_value_match (copy_tokens json tokens) fuel i)
                      (Pyson3.parse_value_match tokens json fuel i)) /\
  (forall result known i,
      agree eq (Pyson.parse_object_loop (copy_tokens json tokens) fuel result known i)
               (Pyson3.parse_object_loop tokens json fuel result known i)) /\
  (forall result i,
      agree eq (Pyson.parse_array_loop (copy_tokens json tokens) fuel result i)
               (Pyson3.parse_array_loop tokens json fuel result i)).
Proof.
  induction fuel as [| fuel (IHv & IHo & IHa)]; [repeat split; intros; exact I |].
  assert (Hvalue : forall i,
    agree eq (r <- Pyson.parse_value_match (copy_tokens json tokens) fuel i ;;
              Pyson.consume_comma (copy_tokens json tokens) r)
             (r <- Pyson3.parse_value_match tokens json fuel i ;;
              Pyson3.consume_comma tokens r)).
  { intros i. eapply agree_bind; [apply IHv |].
    intros r ? <-. apply agree_consume_comma. }
  repeat split.
  - intros i. simpl.
    eapply agree_bind; [apply agree_list_index |].
    intros t1 t ->. simpl. unfold token_value.
    destruct (Pyson3.type t) eqn:Hty; simpl; try reflexivity;
      try apply agree_error.
    + eapply agree_bind; [apply IHo |]. intros [o j] ? <-. reflexivity.
    + eapply agree_bind; [apply IHa |]. intros [a j] ? <-. reflexivity.
    + destruct (Pyson3.get_string json t) as [| c s] eqn:Hs; simpl.
      * exact I.
      * eapply agree_bind; [apply agree_py_float |].
        intros f ? <-.
        match goal with
        | |- context [if ?b then _ else _] => destruct b; [simpl; reflexivity |]
        end.
        eapply agree_bind; [apply agree_py_int |].
        intros z ? <-. simpl. reflexivity.
  - intros result known i. simpl. rewrite length_copy_tokens.
    destruct (i <? Pyson3.length tokens)%nat; [| reflexivity].
    eapply agree_bind; [apply agree_list_index |].
    intros t1 t ->. simpl. unfold token_value.
    destruct (Pyson3.type t) eqn:Hty; simpl; try reflexivity;
      try apply agree_error.
    unfold Pyson3.normalized_string.
    destruct (decode_escapes (Pyson3.get_string json t)) as [| c s] eqn:Hkey; simpl;
      [exact I |].
    destruct (set_mem (String c s) known); [apply agree_error |].
    eapply agree_bind; [apply agree_list_index |].
    intros c1 c3 ->. simpl.
    destruct (negb (TokenType_eqb (Pyson3.type c3) COLON)); [apply agree_error |].
    eapply agree_bind; [apply IHv |]. intros r ? <-.
    eapply agree_bind; [apply agree_consume_comma |]. intros [v j] ? <-.
    apply IHo.
  - intros result i. simpl. rewrite length_copy_tokens.
    destruct (i <? Pyson3.length tokens)%nat; [| reflexivity].
    eapply agree_bind; [apply agree_list_index |].
    intros t1 t ->. simpl.
    destruct (Pyson3.type t) eqn:Hty; simpl; try reflexivity;
      (eapply agree_bind; [apply IHv |]; intros r ? <-;
       eapply agree_bind; [apply agree_consume_comma |]; intros [v j] ? <-;
       apply IHa).
Qed.

Lemma agree_parse :
  agree eq (Pyson.parse (copy_tokens json tokens))
    (if (List.length tokens <? 2)%nat then
       m <- Pyson3._error tokens None "Too short to be valid" ;; Raise (ValueError m)
     else
       t <- list_index tokens 0 ;;
       match Pyson3.type t with
       | L_CURLY =>
           '(o, _) <- Pyson3.parse_object tokens json (Pyson3.parse_fuel tokens) 1 ;;
           Ok (VObject o)
       | L_BRACKET =>
           '(a, _) <- Pyson3.parse_array tokens json (Pyson3.parse_fuel tokens) 1 ;;
           Ok (VArray a)
       | _ => m <- Pyson3._error tokens (Some 1) "Invalid input" ;; Raise (ValueError m)
       end).
Proof.
  unfold Pyson.parse.
  assert (Hlen : List.length (copy_tokens json tokens) = List.length tokens) by apply length_map.
  rewrite Hlen.
  destruct (List.length tokens <? 2)%nat; [apply agree_error |].
  eapply agree_bind; [apply agree_list_index |].
  intros t1 t ->. simpl.
  assert (Hfuel : Pyson.parse_fuel (copy_tokens json tokens) = Pyson3.parse_fuel tokens).
  { unfold Pyson.parse_fuel, Pyson3.parse_fuel. rewrite Hlen. reflexivity. }
  rewrite Hfuel.
  destruct (agree_parser (Pyson3.parse_fuel tokens)) as (_ & Ho & Ha).
  destruct (Pyson3.type t); try apply agree_error.
  - eapply agree_bind; [apply Ho |]. intros [o j] ? <-. reflexivity.
  - eapply agree_bind; [apply Ha |]. intros [a j] ? <-. reflexivity.
Qed.

End Simulation.

Lemma agree_loads (json : string) : agree eq (Pyson.loads json) (Pyson3.loads json).
Proof.
  unfold Pyson.loads, Pyson3.loads, Pyson3.parse.
  eapply agree_bind; [apply agree_lex |].
  intros ts1 ts3 ->. apply agree_parse.
Qed.

(** ** The tokens of the lexer: spans and texts *)

Lemma length_substring (s : string) : forall n m,
  String.length (String.substring n m s) = Nat.min m (String.length s - n).
Proof.
  induction s as [| c s IH]; intros n m.
  - destruct n, m; reflexivity.
  - destruct n as [| n].
    + destruct m as [| m]; [reflexivity |].
      change (String.substring 0 (S m) (String c s)) with (String c (String.substring 0 m s)).
      simpl. rewrite IH. rewrite Nat.sub_0_r. reflexivity.
    + change (String.substring (S n) m (String c s)) with (String.substring n m s).
      rewrite IH. reflexivity.
Qed.

Lemma substring_one (s : string) : forall n c,
  String.get n s = Some c -> String.substring n 1 s = String c EmptyString.
Proof.
  induction s as [| a s IH]; intros n c H; [discriminate |].
  destruct n as [| n]; simpl in H.
  - injection H as ->. simpl. destruct s; reflexivity.
  - apply (IH n c H).
Qed.

Lemma slice_literal_bound (json lit : string) (i n : nat) :
  str_slice json i (i + n) = lit -> String.length lit = n -> 0 < n ->
  i + n <= String.length json.
Proof.
  unfold str_slice. intros Hs Hl Hn. rewrite <- Hs in Hl.
  rewrite length_substring in Hl. lia.
Qed.

(** What one step of the lexer appends: a token that spans the text from
    the position of the step to the next position, with the text of its
    kind. *)
Lemma lex_step_token (json : string) (i i' : nat) (t : Pyson3.Token) :
  Pyson3.lex_step json i = Ok (Some t, i') ->
  Pyson3.start t = i /\ Pyson3.end_ t = i' /\ i < i' /\ i' <= String.length json /\
  kind_text json t.
Proof.
  intros H. pose proof (lex_step_Ok json i i' (Some t) H) as [Hlt Hspan].
  unfold Pyson3.lex_step, str_index in H.
  destruct (String.get i json) as [v |] eqn:Hv; cbn [bind] in H; [| discriminate].
  pose proof (get_Some_lt _ _ _ Hv) as Hi.
  assert (Hone : forall c, Ascii.eqb v c = true ->
            str_slice json i (i + 1) = String c EmptyString).
  { intros c Hc. apply Ascii.eqb_eq in Hc. subst c. unfold str_slice.
    replace (i + 1 - i) with 1 by lia. apply substring_one. exact Hv. }
  split_ifs H; try discriminate H;
    try (injection H as <- <-; unfold kind_text, Pyson3.get_string; simpl;
         repeat split; auto; lia).
  - injection H as <- <-.
    match goal with Hb : negb _ = false |- _ =>
      apply negb_false_iff, String.eqb_eq in Hb; rename Hb into Hlit end.
    pose proof (slice_literal_bound json "true" i 4 Hlit eq_refl ltac:(lia)).
    unfold kind_text, Pyson3.get_string; simpl. repeat split; auto; lia.
  - injection H as <- <-.
    match goal with Hb : negb _ = false |- _ =>
      apply negb_false_iff, String.eqb_eq in Hb; rename Hb into Hlit end.
    pose proof (slice_literal_bound json "false" i 5 Hlit eq_refl ltac:(lia)).
    unfold kind_text, Pyson3.get_string; simpl. repeat split; auto; lia.
  - injection H as <- <-.
    match goal with Hb : negb _ = false |- _ =>
      apply negb_false_iff, String.eqb_eq in Hb; rename Hb into Hlit end.
    pose proof (slice_literal_bound json "null" i 4 Hlit eq_refl ltac:(lia)).
    unfold kind_text, Pyson3.get_string; simpl. repeat split; auto; lia.
  - apply bind_ok_inv in H. destruct H as (idx & Hs & H). injection H as <- <-.
    pose proof (scan_string_Ok json _ _ _ Hs) as (Hidx & Hlen & _).
    simpl. repeat split; auto.
    apply (get_string_quoted json _ (Hspan _ eq_refl) eq_refl).
  - apply bind_ok_inv in H. destruct H as (j & Hs & H). injection H as <- <-.
    pose proof (scan_number_Ok json _ _ _ Hs) as (Hle & Hrun & (d & Hd & _)).
    pose proof (get_Some_lt _ _ _ Hd) as Hj.
    simpl. repeat split; auto; try lia.
    unfold kind_text, Pyson3.get_string, str_slice; simpl.
    intros k c Hk.
    destruct (Nat.lt_ge_cases k (j - i)) as [Hklt | Hkge].
    + rewrite (String.substring_correct1 json i (j - i) k Hklt) in Hk.
      destruct (Hrun (k + i)) as (x & Hx & Hnum); [lia |].
      rewrite Hx in Hk. injection Hk as <-. exact Hnum.
    + rewrite (String.substring_correct2 json i (j - i) k Hkge) in Hk. discriminate.
Qed.

Lemma lex_step_bound (json : string) (i i' : nat) (tok : option Pyson3.Token) :
  Pyson3.lex_step json i = Ok (tok, i') -> i' <= String.length json.
Proof.
  destruct tok as [t |]; intros H.
  - apply lex_step_token in H. tauto.
  - unfold Pyson3.lex_step, str_index in H.
    destruct (String.get i json) as [v |] eqn:Hv; cbn [bind] in H; [| discriminate].
    apply get_Some_lt in Hv.
    split_ifs H; try discriminate H.
    + apply bind_ok_inv in H. destruct H as (? & _ & H). discriminate H.
    + apply bind_ok_inv in H. destruct H as (? & _ & H). discriminate H.
    + injection H as <-. lia.
Qed.

Lemma chained_le (tokens : list Pyson3.Token) : forall from upto,
  chained from tokens upto -> from <= upto.
Proof.
  induction tokens as [| t tokens IH]; intros from upto H; simpl in H; [exact H |].
  destruct H as (H1 & H2 & H3). apply IH in H3. lia.
Qed.

Lemma chained_snoc (tokens : list Pyson3.Token) (t : Pyson3.Token) : forall from mid,
  chained from tokens mid -> mid <= Pyson3.start t -> Pyson3.start t < Pyson3.end_ t ->
  chained from (tokens ++ [t]) (Pyson3.end_ t).
Proof.
  induction tokens as [| t0 tokens IH]; intros from mid H Hmid Ht; simpl in *.
  - repeat split; auto; lia.
  - destruct H as (H1 & H2 & H3). repeat split; auto. apply (IH _ mid); auto.
Qed.

Lemma chained_upto (tokens : list Pyson3.Token) : forall from upto upto',
  chained from tokens upto -> upto <= upto' -> chained from tokens upto'.
Proof.
  induction tokens as [| t tokens IH]; intros from upto upto' H Hle; simpl in *; [lia |].
  destruct H as (H1 & H2 & H3). repeat split; auto. apply (IH _ upto); auto.
Qed.

Lemma chained_bounds (tokens : list Pyson3.Token) : forall from upto t,
  chained from tokens upto -> In t tokens ->
  from <= Pyson3.start t /\ Pyson3.start t < Pyson3.end_ t /\ Pyson3.end_ t <= upto.
Proof.
  induction tokens as [| t0 tokens IH]; intros from upto t H Hin; [contradiction |].
  simpl in H. destruct H as (H1 & H2 & H3). destruct Hin as [<- | Hin].
  - apply chained_le in H3. auto.
  - destruct (IH _ _ _ H3 Hin) as (Ha & Hb & Hc). repeat split; auto. lia.
Qed.

Lemma chained_ordered (tokens : list Pyson3.Token) : forall from upto a b t t',
  chained from tokens upto -> a < b ->
  nth_error tokens a = Some t -> nth_error tokens b = Some t' ->
  Pyson3.end_ t <= Pyson3.start t'.
Proof.
  induction tokens as [| t0 tokens IH]; intros from upto a b t t' H Hab Ha Hb.
  - destruct a; discriminate.
  - simpl in H. destruct H as (H1 & H2 & H3).
    destruct b as [| b]; [lia |]. simpl in Hb.
    destruct a as [| a]; simpl in Ha.
    + injection Ha as <-. apply nth_error_In in Hb.
      apply (chained_bounds _ _ _ _ H3 Hb).
    + apply (IH _ _ a b t t' H3); auto. lia.
Qed.

(** The invariant of the main loop of [lex]: the tokens appended so far
    are chained up to the cursor, and each has the text of its kind. *)
Lemma lex_loop_tokens (json : string) : forall fuel acc i tokens,
  chained 0 acc i -> i <= String.length json -> Forall (kind_text json) acc ->
  Pyson3.lex_loop fuel json acc i = Ok tokens ->
  chained 0 tokens (String.length json) /\ Forall (kind_text json) tokens.
Proof.
  induction fuel as [| fuel IH]; intros acc i tokens Hch Hi Hk H; [discriminate |].
  simpl in H. destruct (i <? String.length json)%nat eqn:Hlt.
  2:{ injection H as <-. split; [| exact Hk]. apply (chained_upto _ _ i); auto. }
  apply bind_ok_inv in H. destruct H as ([tok i'] & Hs & H).
  pose proof (lex_step_bound json i i' tok Hs) as Hb.
  destruct tok as [t |].
  - pose proof (lex_step_token json i i' t Hs) as (Hst & Hen & Hlt' & _ & Hkt).
    apply (IH _ _ _) in H; auto.
    + rewrite <- Hen. apply (chained_snoc _ _ _ i); auto; lia.
    + apply Forall_app. split; [exact Hk |]. constructor; [exact Hkt | constructor].
  - pose proof (lex_step_Ok json i i' None Hs) as [Hlt' _].
    apply (IH _ _ _) in H; auto.
    apply (chained_upto _ _ i); auto. lia.
Qed.

(** X1: every token that [lex] returns spans a non-empty part of the text
    ([start < end <= len(json)]), and the tokens come in the order of the
    text without overlap: a token ends where a later one starts, or
    before. *)
Theorem X1_token_spans (json : string) (tokens : list Pyson3.Token) :
  Pyson3.lex json = Ok tokens ->
  (forall t, In t tokens ->
     Pyson3.start t < Pyson3.end_ t /\ Pyson3.end_ t <= String.length json) /\
  (forall a b t t', a < b ->
     nth_error tokens a = Some t -> nth_error tokens b = Some t' ->
     Pyson3.end_ t <= Pyson3.start t').
Proof.
  intros H. unfold Pyson3.lex in H.
  apply lex_loop_tokens in H; [| simpl; lia | lia | constructor].
  destruct H as [Hch _]. split.
  - intros t Hin. apply (chained_bounds _ _ _ _ Hch Hin).
  - intros a b t t'. apply (chained_ordered _ _ _ _ _ _ _ Hch).
Qed.

Lemma X1_token_spans_witness :
  (forall t, In t [Pyson3.mkToken L_BRACKET 0 1; Pyson3.mkToken NUMBER 1 3;
                   Pyson3.mkToken R_BRACKET 4 5] ->
     Pyson3.start t < Pyson3.end_ t /\ Pyson3.end_ t <= String.length "[12 ]") /\
  (forall a b t t', a < b ->
     nth_error [Pyson3.mkToken L_BRACKET 0 1; Pyson3.mkToken NUMBER 1 3;
                Pyson3.mkToken R_BRACKET 4 5] a = Some t ->
     nth_error [Pyson3.mkToken L_BRACKET 0 1; Pyson3.mkToken NUMBER 1 3;
                Pyson3.mkToken R_BRACKET 4 5] b = Some t' ->
     Pyson3.end_ t <= Pyson3.start t').
Proof.
  apply (X1_token_spans "[12 ]"). reflexivity.
Defined.

(** X2: every token that [lex] returns has the text of its kind: the span
    of a punctuation token is that character, of a BOOLEAN token [true] or
    [false], of a NULL token [null]; the span of a NUMBER token holds
    characters of [NUMERIC] only, and the span of a STRING token starts and
    ends with a quote.  The text of a span has [end - start] characters. *)
Theorem X2_token_texts (json : string) (tokens : list Pyson3.Token) (t : Pyson3.Token) :
  Pyson3.lex json = Ok tokens -> In t tokens ->
  kind_text json t /\
  String.length (Pyson3.get_string json t) = Pyson3.end_ t - Pyson3.start t.
Proof.
  intros H Hin. unfold Pyson3.lex in H.
  apply lex_loop_tokens in H; [| simpl; lia | lia | constructor].
  destruct H as [Hch Hk]. rewrite Forall_forall in Hk. split; [apply Hk, Hin |].
  destruct (chained_bounds _ _ _ _ Hch Hin) as (_ & Hlt & Hle).
  unfold Pyson3.get_string, str_slice. rewrite length_substring. lia.
Qed.

Lemma X2_token_texts_witness :
  kind_text (dq "{'k': true}") (Pyson3.mkToken BOOLEAN 6 10) /\
  String.length (Pyson3.get_string (dq "{'k': true}") (Pyson3.mkToken BOOLEAN 6 10)) = 10 - 6.
Proof.
  apply (X2_token_texts (dq "{'k': true}")
           [Pyson3.mkToken L_CURLY 0 1; Pyson3.mkToken STRING 1 4; Pyson3.mkToken COLON 4 5;
            Pyson3.mkToken BOOLEAN 6 10; Pyson3.mkToken R_CURLY 10 11]);
    [reflexivity | simpl; auto].
Defined.

(** ** Texts without tokens *)

Lemma lex_step_skipped (json : string) (i : nat) (c : ascii) :
  String.get i json = Some c -> skipped c = true ->
  Pyson3.lex_step json i = Ok (None, i + 1).
Proof.
  intros Hc Hs. unfold skipped in Hs.
  apply andb_prop in Hs. destruct Hs as [Hs Hnum].
  apply andb_prop in Hs. destruct Hs as [Hpunct Hquote].
  apply negb_true_iff in Hpunct, Hquote, Hnum.
  unfold char_in in Hpunct. simpl in Hpunct.
  unfold Pyson3.lex_step, str_index. rewrite Hc; cbn [bind].
  rewrite Hquote, Hnum.
  repeat match goal with
    | |- context [if Ascii.eqb c ?x then _ else _] =>
        destruct (Ascii.eqb c x) eqn:?;
        [exfalso;
         repeat match goal with
           | Hb : Ascii.eqb c _ = _ |- _ => rewrite Hb in Hpunct; clear Hb
           end;
         simpl in Hpunct; discriminate Hpunct |]
    end.
  reflexivity.
Qed.

Lemma get_all_chars (p : ascii -> bool) (s : string) : forall i c,
  all_chars p s = true -> String.get i s = Some c -> p c = true.
Proof.
  induction s as [| a s IH]; intros i c Hall Hc; [discriminate |].
  simpl in Hall. apply andb_prop in Hall. destruct Hall as [Ha Hall].
  destruct i as [| i]; simpl in Hc.
  - injection Hc as <-. exact Ha.
  - apply (IH i c Hall Hc).
Qed.

Lemma lex_loop_skipped (json : string) : all_chars skipped json = true ->
  forall fuel acc i, String.length json - i < fuel ->
    Pyson3.lex_loop fuel json acc i = Ok acc.
Proof.
  intros Hall. induction fuel as [| fuel IH]; intros acc i Hf; [lia |].
  simpl. destruct (i <? String.length json)%nat eqn:Hi; [| reflexivity].
  apply Nat.ltb_lt in Hi.
  destruct (get_lt_Some json i Hi) as [c Hc].
  rewrite (lex_step_skipped json i c Hc (get_all_chars skipped json i c Hall Hc)).
  simpl. apply IH. lia.
Qed.

(** X3: a text in which no character starts a token (the empty text, white
    space, any other characters than punctuation, quotes, the letters t, f
    and n, and the characters of numbers) gives no token and no error in
    [lex]; [loads] then fails in [parse], with the [AttributeError] of a
    token list that is too short. *)
Theorem X3_no_tokens (json : string) :
  all_chars skipped json = true ->
  Pyson3.lex json = Ok [] /\ Pyson3.loads json = Raise AttributeError.
Proof.
  intros Hall.
  assert (Hlex : Pyson3.lex json = Ok []).
  { unfold Pyson3.lex. apply lex_loop_skipped; [exact Hall | lia]. }
  split; [exact Hlex |].
  unfold Pyson3.loads, Pyson3.parse. rewrite Hlex. reflexivity.
Qed.

Lemma X3_no_tokens_witness :
  Pyson3.lex "  a b
   " = Ok [] /\ Pyson3.loads "  a b
   " = Raise AttributeError.
Proof.
  apply X3_no_tokens. reflexivity.
Defined.

(** ** The cursor of the parser *)

Lemma loop_exit_bound (tokens : list Pyson3.Token) (close : TokenType) (i i' : nat) :
  loop_exit tokens close i i' -> i <= List.length tokens ->
  i <= i' /\ i' <= List.length tokens.
Proof.
  intros [(t & Hlt & Ht & _) | [(-> & Hlen) | (-> & _)]] Hi.
  - assert (i' - 1 < List.length tokens) by (apply nth_error_Some; congruence). lia.
  - lia.
  - lia.
Qed.

(** X4: a call of [parse_value] that returns has consumed at least one
    token and leaves the cursor on the token list or just after its last
    token; the loops of [parse_object] and [parse_array], entered with the
    cursor in that range, never move it back nor out of it. *)
Theorem X4_cursor_range (tokens : list Pyson3.Token) (json : string) (fuel i i' : nat) :
  (forall value, Pyson3.parse_value tokens json fuel i = Ok (value, i') ->
     i < i' /\ i' <= List.length tokens) /\
  (forall o, Pyson3.parse_object tokens json fuel i = Ok (o, i') ->
     i <= List.length tokens -> i <= i' /\ i' <= List.length tokens) /\
  (forall a, Pyson3.parse_array tokens json fuel i = Ok (a, i') ->
     i <= List.length tokens -> i <= i' /\ i' <= List.length tokens).
Proof.
  split; [| split].
  - intros value H. unfold Pyson3.parse_value in H.
    apply bind_ok_inv in H. destruct H as ([v j] & Hv & Hc).
    apply (proj1 (parse_progress tokens json fuel)) in Hv.
    apply consume_comma_Ok in Hc. destruct Hc as (_ & t & Ht & Hcomma).
    assert (j < List.length tokens) by (apply nth_error_Some; congruence).
    destruct Hcomma as [[_ ->] | [_ ->]]; lia.
  - intros o H Hi. unfold Pyson3.parse_object in H.
    apply parse_object_loop_exit in H. apply (loop_exit_bound _ _ _ _ H Hi).
  - intros a H Hi. unfold Pyson3.parse_array in H.
    apply parse_array_loop_exit in H. apply (loop_exit_bound _ _ _ _ H Hi).
Qed.

Lemma X4_cursor_range_witness :
  1 < 3 /\ 3 <= List.length [Pyson3.mkToken L_BRACKET 0 1; Pyson3.mkToken NULL 1 5;
                             Pyson3.mkToken COMMA 5 6; Pyson3.mkToken R_BRACKET 6 7].
Proof.
  refine (proj1 (X4_cursor_range
            [Pyson3.mkToken L_BRACKET 0 1; Pyson3.mkToken NULL 1 5;
             Pyson3.mkToken COMMA 5 6; Pyson3.mkToken R_BRACKET 6 7]
            "[null,]" 1 1 3) VNone _).
  reflexivity.
Defined.

(** ** What the loops build *)

Lemma dict_mem_get {V} (k : string) (d : list (string * V)) :
  dict_mem k d = true <-> exists v, dict_get k d = Some v.
Proof.
  induction d as [| [k' v'] d IH]; simpl.
  - split; [discriminate | intros [v H]; discriminate].
  - destruct (String.eqb k k'); simpl.
    + split; [exists v'; reflexivity | reflexivity].
    + exact IH.
Qed.

Lemma dict_get_set_same {V} (key : string) (v : V) (d : list (string * V)) :
  dict_get key (dict_set key v d) = Some v.
Proof.
  induction d as [| [k' v'] d IH]; simpl.
  - rewrite String.eqb_refl. reflexivity.
  - destruct (String.eqb key k') eqn:Hk; simpl; rewrite Hk; [reflexivity | exact IH].
Qed.

Lemma dict_get_set_other {V} (k key : string) (v : V) (d : list (string * V)) :
  k <> key -> dict_get k (dict_set key v d) = dict_get k d.
Proof.
  intros Hne. induction d as [| [k' v'] d IH]; simpl.
  - apply String.eqb_neq in Hne. rewrite Hne. reflexivity.
  - destruct (String.eqb key k') eqn:Hk; simpl.
    + apply String.eqb_eq in Hk. subst k'.
      apply String.eqb_neq in Hne. rewrite Hne. reflexivity.
    + rewrite IH. reflexivity.
Qed.

Lemma keys_tracked_step (result : Object) (known : list string) (key : string) (v : Value) :
  keys_tracked result known -> keys_tracked (dict_set key v result) (set_add key known).
Proof.
  intros Hinv k Hk. rewrite dict_mem_set in Hk. rewrite set_mem_add.
  destruct (String.eqb k key); [reflexivity |]. simpl in *. apply Hinv, Hk.
Qed.

(** The loop of [parse_object] never changes a binding it has made: a key
    that is bound is in [known_keys], and meeting it again raises. *)
Lemma parse_object_loop_keeps_bindings (tokens : list Pyson3.Token) (json : string) :
  forall fuel result known i r i',
    keys_tracked result known ->
    Pyson3.parse_object_loop tokens json fuel result known i = Ok (r, i') ->
    forall k v, dict_get k result = Some v -> dict_get k r = Some v.
Proof.
  induction fuel as [| fuel IH]; intros result known i r i' Hinv H k v Hk; [discriminate |].
  simpl in H.
  destruct (i <? Pyson3.length tokens)%nat; [| injection H as <- <-; exact Hk].
  apply bind_ok_inv in H. destruct H as (t & _ & H).
  destruct (Pyson3.type t);
    try (injection H as <- <-; exact Hk); try solve [raise_not_Ok H].
  destruct (String.eqb _ _); [discriminate |].
  destruct (set_mem _ known) eqn:Hmem; [raise_not_Ok H |].
  apply bind_ok_inv in H. destruct H as (c & _ & H).
  destruct (negb _); [raise_not_Ok H |].
  apply bind_ok_inv in H. destruct H as ([v0 j] & _ & H).
  apply bind_ok_inv in H. destruct H as ([v' j'] & _ & H).
  apply (IH _ _ _ _ _ (keys_tracked_step _ _ _ _ Hinv) H).
  rewrite dict_get_set_other; [exact Hk |].
  intros ->. assert (Hb : dict_mem (Pyson3.normalized_string json t) result = true)
    by (apply dict_mem_get; exists v; exact Hk).
  apply Hinv in Hb. congruence.
Qed.

(** X5: in the object that the loop of [parse_object] returns, the key of
    a key token is bound to the value that [parse_value] reads after its
    colon, two tokens further: the bindings made later in the loop do not
    replace it. *)
Theorem X5_key_bound_to_its_value (tokens : list Pyson3.Token) (json : string)
    (fuel : nat) (result : Object) (known : list string) (i : nat) (t : Pyson3.Token)
    (r : Object) (i' : nat) :
  keys_tracked result known ->
  nth_error tokens i = Some t -> Pyson3.type t = STRING ->
  Pyson3.parse_object_loop tokens json (S fuel) result known i = Ok (r, i') ->
  exists value j,
    Pyson3.parse_value tokens json fuel (i + 2) = Ok (value, j) /\
    dict_get (Pyson3.normalized_string json t) r = Some value.
Proof.
  intros Hinv Ht Hty H. simpl in H.
  assert (Hi : (i <? Pyson3.length tokens)%nat = true).
  { apply Nat.ltb_lt. apply nth_error_Some. congruence. }
  rewrite Hi in H. unfold list_index at 1 in H. rewrite Ht in H; simpl in H.
  rewrite Hty in H.
  destruct (String.eqb _ _); [discriminate |].
  destruct (set_mem _ known) eqn:Hmem; [raise_not_Ok H |].
  apply bind_ok_inv in H. destruct H as (c & _ & H).
  destruct (negb _); [raise_not_Ok H |].
  apply bind_ok_inv in H. destruct H as ([v j] & Hv & H).
  apply bind_ok_inv in H. destruct H as ([v' j'] & Hc & H).
  exists v', j'. split.
  - unfold Pyson3.parse_value. replace (i + 2) with (i + 1 + 1) by lia.
    rewrite Hv. exact Hc.
  - apply (parse_object_loop_keeps_bindings _ _ _ _ _ _ _ _
             (keys_tracked_step _ _ _ _ Hinv) H).
    apply dict_get_set_same.
Qed.

Lemma X5_key_bound_to_its_value_witness :
  exists value j,
    Pyson3.parse_value
      [Pyson3.mkToken L_CURLY 0 1; Pyson3.mkToken STRING 1 4; Pyson3.mkToken COLON 4 5;
       Pyson3.mkToken NUMBER 5 6; Pyson3.mkToken R_CURLY 6 7] (dq "{'a':1}") 3 (1 + 2)
      = Ok (value, j) /\
    dict_get (Pyson3.normalized_string (dq "{'a':1}") (Pyson3.mkToken STRING 1 4))
      [(dq "'a'", VInt 1)] = Some value.
Proof.
  refine (X5_key_bound_to_its_value
            [Pyson3.mkToken L_CURLY 0 1; Pyson3.mkToken STRING 1 4; Pyson3.mkToken COLON 4 5;
             Pyson3.mkToken NUMBER 5 6; Pyson3.mkToken R_CURLY 6 7] (dq "{'a':1}")
            3 [] [] 1 (Pyson3.mkToken STRING 1 4) [(dq "'a'", VInt 1)] 5 _ _ _ _);
    try reflexivity.
  intros k Hk. discriminate Hk.
Defined.

Lemma parse_array_loop_extends (tokens : list Pyson3.Token) (json : string) :
  forall fuel result i r i',
    Pyson3.parse_array_loop tokens json fuel result i = Ok (r, i') ->
    exists rest, r = result ++ rest.
Proof.
  induction fuel as [| fuel IH]; intros result i r i' H; [discriminate |].
  simpl in H.
  destruct (i <? Pyson3.length tokens)%nat;
    [| injection H as <- <-; exists []; rewrite app_nil_r; reflexivity].
  apply bind_ok_inv in H. destruct H as (t & _ & H).
  destruct (Pyson3.type t);
    try (injection H as <- <-; exists []; rewrite app_nil_r; reflexivity);
    (apply bind_ok_inv in H; destruct H as ([v j] & _ & H);
     apply bind_ok_inv in H; destruct H as ([v' j'] & _ & H);
     apply IH in H; destruct H as [rest ->];
     exists (v' :: rest); rewrite <- app_assoc; reflexivity).
Qed.

(** X6: the loop of [parse_array] only appends: the array it returns
    starts with the elements it was entered with, and when the token at
    the cursor is not the closing bracket the next element is the value
    that [parse_value] reads there. *)
Theorem X6_array_in_order (tokens : list Pyson3.Token) (json : string)
    (fuel : nat) (result : Array) (i : nat) (t : Pyson3.Token) (r : Array) (i' : nat) :
  nth_error tokens i = Some t -> Pyson3.type t <> R_BRACKET ->
  Pyson3.parse_array_loop tokens json (S fuel) result i = Ok (r, i') ->
  exists value j rest,
    Pyson3.parse_value tokens json fuel i = Ok (value, j) /\
    r = result ++ value :: rest.
Proof.
  intros Ht Hty H. simpl in H.
  assert (Hi : (i <? Pyson3.length tokens)%nat = true).
  { apply Nat.ltb_lt. apply nth_error_Some. congruence. }
  rewrite Hi in H. unfold list_index at 1 in H. rewrite Ht in H; simpl in H.
  assert (Hstep :
    (r0 <- Pyson3.parse_value_match tokens json fuel i ;;
     ' (value, i0) <- Pyson3.consume_comma tokens r0 ;;
     Pyson3.parse_array_loop tokens json fuel (result ++ [value]) i0) = Ok (r, i')).
  { destruct (Pyson3.type t); try exact H. congruence. }
  clear H. apply bind_ok_inv in Hstep. destruct Hstep as ([v j] & Hv & H).
  apply bind_ok_inv in H. destruct H as ([v' j'] & Hc & H).
  apply parse_array_loop_extends in H. destruct H as [rest ->].
  exists v', j', rest. split.
  - unfold Pyson3.parse_value. rewrite Hv. exact Hc.
  - rewrite <- app_assoc. reflexivity.
Qed.

Lemma X6_array_in_order_witness :
  exists value j rest,
    Pyson3.parse_value
      [Pyson3.mkToken L_BRACKET 0 1; Pyson3.mkToken NUMBER 1 2; Pyson3.mkToken COMMA 2 3;
       Pyson3.mkToken NULL 3 7; Pyson3.mkToken R_BRACKET 7 8] "[1,null]" 3 1
      = Ok (value, j) /\
    [VInt 1; VNone] = [] ++ value :: rest.
Proof.
  refine (X6_array_in_order
            [Pyson3.mkToken L_BRACKET 0 1; Pyson3.mkToken NUMBER 1 2; Pyson3.mkToken COMMA 2 3;
             Pyson3.mkToken NULL 3 7; Pyson3.mkToken R_BRACKET 7 8] "[1,null]"
            3 [] 1 (Pyson3.mkToken NUMBER 1 2) [VInt 1; VNone] 5 _ _ _);
    [reflexivity | discriminate | reflexivity].
Defined.

(** ** Termination: the fuel of the loops *)

Lemma bind_more_fuel {T A B} (c c' : result T A) (k k' : A -> result T B) :
  (c <> OutOfFuel -> c' = c) ->
  (forall a, c = Ok a -> k a <> OutOfFuel -> k' a = k a) ->
  bind c k <> OutOfFuel -> bind c' k' = bind c k.
Proof.
  intros Hc Hk H. destruct c as [a | e |]; simpl in H.
  - rewrite Hc by discriminate. simpl. apply Hk; auto.
  - rewrite Hc by discriminate. reflexivity.
  - congruence.
Qed.

Lemma bind_same_more_fuel {T A B} (c : result T A) (k k' : A -> result T B) :
  (forall a, c = Ok a -> k a <> OutOfFuel -> k' a = k a) ->
  bind c k <> OutOfFuel -> bind c k' = bind c k.
Proof. intros Hk. apply bind_more_fuel; auto. Qed.

(** A call of the parser that has enough fuel gives the same outcome with
    more. *)
Lemma parse_more_fuel (tokens : list Pyson3.Token) (json : string) : forall fuel fuel',
  fuel <= fuel' ->
  (forall i, Pyson3.parse_value_match tokens json fuel i <> OutOfFuel ->
     Pyson3.parse_value_match tokens json fuel' i
       = Pyson3.parse_value_match tokens json fuel i) /\
  (forall result known i,
     Pyson3.parse_object_loop tokens json fuel result known i <> OutOfFuel ->
     Pyson3.parse_object_loop tokens json fuel' result known i
       = Pyson3.parse_object_loop tokens json fuel result known i) /\
  (forall result i,
     Pyson3.parse_array_loop tokens json fuel result i <> OutOfFuel ->
     Pyson3.parse_array_loop tokens json fuel' result i
       = Pyson3.parse_array_loop tokens json fuel result i).
Proof.
  induction fuel as [| fuel IH]; intros fuel' Hle.
  { repeat split; intros; simpl in *; congruence. }
  destruct fuel' as [| fuel']; [lia |].
  destruct (IH fuel' ltac:(lia)) as (IHv & IHo & IHa).
  assert (Hvalue : forall (B : Type) i (k k' : Value * nat -> Pyson3.res B),
    (forall a, k a <> OutOfFuel -> k' a = k a) ->
    (r <- Pyson3.parse_value_match tokens json fuel i ;;
     a <- Pyson3.consume_comma tokens r ;; k a) <> OutOfFuel ->
    (r <- Pyson3.parse_value_match tokens json fuel' i ;;
     a <- Pyson3.consume_comma tokens r ;; k' a)
    = (r <- Pyson3.parse_value_match tokens json fuel i ;;
       a <- Pyson3.consume_comma tokens r ;; k a)).
  { intros B i k k' Hk. apply bind_more_fuel; [apply IHv |].
    intros r _. apply bind_same_more_fuel. intros a _. apply Hk. }
  repeat split.
  - intros i. simpl. apply bind_same_more_fuel. intros t _.
    destruct (Pyson3.type t); try reflexivity.
    + apply bind_more_fuel; [apply IHo | reflexivity].
    + apply bind_more_fuel; [apply IHa | reflexivity].
  - intros result known i. simpl.
    destruct (i <? Pyson3.length tokens)%nat; [| reflexivity].
    apply bind_same_more_fuel. intros t _.
    destruct (Pyson3.type t); try reflexivity.
    destruct (String.eqb _ _); [reflexivity |].
    destruct (set_mem _ _); [reflexivity |].
    apply bind_same_more_fuel. intros c _.
    destruct (negb _); [reflexivity |].
    apply (Hvalue _ (i + 1 + 1)
             (fun a => let '(value, i0) := a in
                Pyson3.parse_object_loop tokens json fuel _ _ i0)
             (fun a => let '(value, i0) := a in
                Pyson3.parse_object_loop tokens json fuel' _ _ i0)).
    intros [v j]. apply IHo.
  - intros result i. simpl.
    destruct (i <? Pyson3.length tokens)%nat; [| reflexivity].
    apply bind_same_more_fuel. intros t _.
    destruct (Pyson3.type t); try reflexivity;
      (apply (Hvalue _ i
                (fun a => let '(value, i0) := a in
                   Pyson3.parse_array_loop tokens json fuel (result ++ [value]) i0)
                (fun a => let '(value, i0) := a in
                   Pyson3.parse_array_loop tokens json fuel' (result ++ [value]) i0));
       intros [v j]; apply IHa).
Qed.

Lemma lex_loop_more_fuel (json : string) : forall fuel fuel' tokens i,
  fuel <= fuel' -> Pyson3.lex_loop fuel json tokens i <> OutOfFuel ->
  Pyson3.lex_loop fuel' json tokens i = Pyson3.lex_loop fuel json tokens i.
Proof.
  induction fuel as [| fuel IH]; intros fuel' tokens i Hle H; [simpl in H; congruence |].
  destruct fuel' as [| fuel']; [lia |].
  simpl in *. destruct (i <? String.length json)%nat; [| reflexivity].
  revert H. apply bind_same_more_fuel. intros [tok j] _.
  destruct tok; apply IH; lia.
Qed.

(** X7: [lex] and [loads] terminate on every text, in the first variant as
    in the third: each iteration of a loop moves its cursor forwards, so
    the loops of the lexer end within one iteration for each character and
    those of the parser within two for each token, and giving them more
    iterations does not change the outcome. *)
Theorem X7_termination (json : string) :
  Pyson3.lex json <> OutOfFuel /\ Pyson3.loads json <> OutOfFuel /\
  Pyson.loads json <> OutOfFuel /\
  (forall fuel, S (String.length json) <= fuel ->
     Pyson3.lex_loop fuel json [] 0 = Pyson3.lex json) /\
  (forall tokens fuel, Pyson3.parse_fuel tokens <= fuel ->
     Pyson3.parse_object tokens json fuel 1
       = Pyson3.parse_object tokens json (Pyson3.parse_fuel tokens) 1 /\
     Pyson3.parse_array tokens json fuel 1
       = Pyson3.parse_array tokens json (Pyson3.parse_fuel tokens) 1).
Proof.
  split; [apply lex_total |]. split; [apply loads_total |]. split; [| split].
  - pose proof (agree_loads json) as H. pose proof (loads_total json) as Ht.
    destruct (Pyson.loads json), (Pyson3.loads json); simpl in H;
      try contradiction; congruence.
  - intros fuel Hf. unfold Pyson3.lex.
    apply lex_loop_more_fuel; [exact Hf | apply lex_loop_fuel; lia].
  - intros tokens fuel Hf.
    destruct (parse_more_fuel tokens json (Pyson3.parse_fuel tokens) fuel Hf)
      as (_ & Ho & Ha).
    destruct (parse_fuel_enough tokens json (Pyson3.parse_fuel tokens)) as (_ & Fo & Fa).
    unfold Pyson3.parse_object, Pyson3.parse_array. split.
    + apply Ho. apply Fo. unfold Pyson3.parse_fuel, Pyson3.length. lia.
    + apply Ha. apply Fa. unfold Pyson3.parse_fuel, Pyson3.length. lia.
Qed.

Lemma X7_termination_witness :
  Pyson3.lex_loop 40 "[1, [2]]" [] 0 = Pyson3.lex "[1, [2]]".
Proof.
  refine (proj1 (proj2 (proj2 (proj2 (X7_termination "[1, [2]]")))) 40 _).
  simpl. lia.
Defined.

(** ** Objects: bound keys and distinct keys *)

Lemma dict_set_fresh {V} (key : string) (v : V) (d : list (string * V)) :
  dict_mem key d = false -> dict_set key v d = d ++ [(key, v)].
Proof.
  induction d as [| [k' v'] d IH]; simpl; [reflexivity |].
  intros H. apply orb_false_elim in H. destruct H as [Hk H].
  rewrite Hk. rewrite (IH H). reflexivity.
Qed.

Lemma dict_mem_In {V} (k : string) (d : list (string * V)) :
  dict_mem k d = true <-> In k (map fst d).
Proof.
  unfold dict_mem. rewrite existsb_exists. split.
  - intros ([k' v] & Hin & Hk). apply String.eqb_eq in Hk. subst k.
    apply (in_map fst) in Hin. exact Hin.
  - intros Hin. apply in_map_iff in Hin. destruct Hin as ([k' v] & <- & Hin).
    exists (k', v). split; [exact Hin | apply String.eqb_refl].
Qed.

(** The loop of [parse_object] on entries whose keys are new and distinct:
    it binds them one after the other and returns at the closing brace. *)
Lemma parse_object_loop_entries (tokens : list Pyson3.Token) (json : string) (fuel : nat) :
  forall entries result known i k close,
    (forall key, set_mem key known = dict_mem key result) ->
    entries_at tokens json fuel i entries k ->
    NoDup (map fst entries) ->
    (forall key, In key (map fst entries) ->
       key <> EmptyString /\ dict_mem key result = false) ->
    nth_error tokens k = Some close -> Pyson3.type close = R_CURLY ->
    Pyson3.parse_object_loop tokens json (fuel + List.length entries + 1) result known i
      = Ok (result ++ entries, k + 1).
Proof.
  induction entries as [| [key value] entries IH];
    intros result known i k close Hinv Hent Hnodup Hnew Hclose Hty.
  - simpl in Hent. subst k. rewrite app_nil_r.
    replace (fuel + List.length (@nil (string * Value)) + 1) with (S fuel) by (simpl; lia).
    simpl.
    assert (Hi : (i <? Pyson3.length tokens)%nat = true).
    { apply Nat.ltb_lt. apply nth_error_Some. congruence. }
    rewrite Hi. unfold list_index. rewrite Hclose; simpl. rewrite Hty. reflexivity.
  - simpl in Hent. destruct Hent as (t & c & j & Ht & Htty & Hkey & Hc & Hcty & Hv & Hent).
    replace (fuel + List.length ((key, value) :: entries) + 1)
      with (S (fuel + List.length entries + 1)) by (simpl; lia).
    remember (fuel + List.length entries + 1) as fuel' eqn:Hfuel.
    destruct (Hnew key (or_introl eq_refl)) as [Hne Hfresh].
    simpl.
    assert (Hi : (i <? Pyson3.length tokens)%nat = true).
    { apply Nat.ltb_lt. apply nth_error_Some. congruence. }
    rewrite Hi. unfold list_index at 1. rewrite Ht; simpl. rewrite Htty.
    rewrite Hkey. apply String.eqb_neq in Hne. rewrite Hne.
    rewrite Hinv, Hfresh.
    unfold list_index at 1. rewrite Hc; simpl. rewrite Hcty. simpl.
    replace (i + 1 + 1) with (i + 2) by lia.
    unfold Pyson3.parse_value in Hv.
    assert (Hmore : Pyson3.parse_value_match tokens json fuel' (i + 2)
                    = Pyson3.parse_value_match tokens json fuel (i + 2)).
    { apply (proj1 (parse_more_fuel tokens json fuel fuel' ltac:(lia))).
      intros Hout. rewrite Hout in Hv. discriminate Hv. }
    rewrite Hmore.
    destruct (Pyson3.parse_value_match tokens json fuel (i + 2)) as [r | e |];
      try discriminate Hv.
    cbn [bind] in Hv |- *. rewrite Hv. cbn [bind].
    rewrite (dict_set_fresh _ _ _ Hfresh).
    simpl in Hnodup. apply NoDup_cons_iff in Hnodup. destruct Hnodup as [Hnotin Hnodup'].
    rewrite (IH _ (set_add key known) j k close); auto.
    + rewrite <- app_assoc. reflexivity.
    + intros key'. rewrite set_mem_add, Hinv.
      unfold dict_mem. rewrite existsb_app. simpl.
      rewrite orb_false_r. apply orb_comm.
    + intros key' Hin. destruct (Hnew key' (or_intror Hin)) as [Hne' Hfresh'].
      split; [exact Hne' |].
      unfold dict_mem in *. rewrite existsb_app. simpl. rewrite Hfresh'. simpl.
      rewrite orb_false_r. apply String.eqb_neq. intros ->. contradiction.
Qed.

(** The loop of [parse_object] raises [Duplicate key found] at the cursor
    it starts from only if the key there is already bound. *)
Lemma duplicate_only_if_bound (tokens : list Pyson3.Token) (json : string) (fuel : nat)
      (result : Object) (known : list string) (i : nat) (t : Pyson3.Token)
      (prior_tokens : list Pyson3.Token) (value : Pyson3.Token) :
  (forall key, set_mem key known = dict_mem key result) ->
  nth_error tokens i = Some t -> Pyson3.type t = STRING ->
  Pyson3.parse_object_loop tokens json fuel result known i
    = Raise (ValueError (Context "Duplicate key found" prior_tokens i value)) ->
  dict_mem (Pyson3.normalized_string json t) result = true.
Proof.
  intros Hinv Ht Hty H. destruct fuel as [| fuel]; [discriminate |]. simpl in H.
  assert (Hi : (i <? Pyson3.length tokens)%nat = true).
  { apply Nat.ltb_lt. apply nth_error_Some. congruence. }
  rewrite Hi in H. unfold list_index at 1 in H. rewrite Ht in H; simpl in H.
  rewrite Hty in H.
  destruct (String.eqb _ _); [discriminate |].
  destruct (set_mem _ known) eqn:Hmem; [rewrite <- Hinv; exact Hmem |].
  exfalso.
  apply bind_raise_inv in H. destruct H as [H | (c & _ & H)];
    [apply list_index_raise in H; discriminate H |].
  destruct (negb _).
  { apply raise_error_context in H. simpl in H. lia. }
  apply bind_raise_inv in H. destruct H as [H | ([v j] & Hv & H)].
  { apply (proj1 (parse_error_context tokens json fuel)) in H. simpl in H. lia. }
  apply (proj1 (parse_progress tokens json fuel)) in Hv.
  apply bind_raise_inv in H. destruct H as [H | ([v' j'] & Hc & H)];
    [apply consume_comma_raise in H; discriminate H |].
  apply consume_comma_Ok in Hc.
  apply (proj1 (proj2 (parse_error_context tokens json fuel))) in H. simpl in H.
  destruct Hc as (_ & t' & _ & [[_ ->] | [_ ->]]); lia.
Qed.

(** C4 (as the code has it): a key that is already bound in the object
    being parsed makes [parse_object] raise [Duplicate key found]; the
    bound keys are those of [known_keys], which the loop tracks, and the
    error is raised at a key only if that key is bound.  With
    distinct keys it succeeds: on entries (key, colon, value that
    [parse_value] returns) whose keys differ from one another, followed by
    the closing brace, [parse_object] returns the object that binds each
    key to its value, in the order of the text.  So
    [loads('{"a":1,"a":2}')] fails with that error, and
    [loads('{"a":1,"b":2}')] returns an object with two keys, which are
    the decoded texts of the two key tokens, quotes included. *)
Theorem C4_duplicate_keys :
  keys_tracked [] [] /\
  (forall result known key v,
      keys_tracked result known ->
      keys_tracked (dict_set key v result) (set_add key known)) /\
  (forall tokens json fuel result known i t,
      keys_tracked result known ->
      nth_error tokens i = Some t -> Pyson3.type t = STRING ->
      Pyson3.normalized_string json t <> EmptyString ->
      dict_mem (Pyson3.normalized_string json t) result = true ->
      Pyson3.parse_object_loop tokens json (S fuel) result known i
        = Raise (ValueError (Context "Duplicate key found"
                   (list_slice tokens (Z.of_nat i - 2) (Z.of_nat i)) i t))) /\
  (forall tokens json fuel result known i t prior_tokens value,
      (forall key, set_mem key known = dict_mem key result) ->
      nth_error tokens i = Some t -> Pyson3.type t = STRING ->
      Pyson3.parse_object_loop tokens json fuel result known i
        = Raise (ValueError (Context "Duplicate key found" prior_tokens i value)) ->
      dict_mem (Pyson3.normalized_string json t) result = true) /\
  (forall tokens json fuel entries i k close,
      entries_at tokens json fuel i entries k ->
      NoDup (map fst entries) ->
      ~ In EmptyString (map fst entries) ->
      nth_error tokens k = Some close -> Pyson3.type close = R_CURLY ->
      Pyson3.parse_object tokens json (fuel + List.length entries + 1) i
        = Ok (entries, k + 1)) /\
  Pyson3.loads (dq "{'a':1,'a':2}")
    = Raise (ValueError (Context "Duplicate key found"
               [Pyson3.mkToken NUMBER 5 6; Pyson3.mkToken COMMA 6 7] 5
               (Pyson3.mkToken STRING 7 10))) /\
  Pyson3.loads (dq "{'a':1,'b':2}")
    = Ok (VObject [(dq "'a'", VInt 1); (dq "'b'", VInt 2)]).
Proof.
  split; [| split; [| split; [| split; [| split; [| split; vm_compute; reflexivity]]]]].
  - intros k H; discriminate H.
  - intros result known key v Hinv k Hk.
    rewrite dict_mem_set in Hk. rewrite set_mem_add.
    destruct (String.eqb k key); [reflexivity |]. simpl in *. apply Hinv, Hk.
  - intros tokens json fuel result known i t Hinv Ht Hty Hne Hbound.
    simpl.
    assert (Hi : (i <? Pyson3.length tokens)%nat = true).
    { apply Nat.ltb_lt. apply nth_error_Some. congruence. }
    rewrite Hi. unfold list_index at 1. rewrite Ht; simpl. rewrite Hty.
    apply String.eqb_neq in Hne. rewrite Hne.
    rewrite (Hinv _ Hbound).
    unfold Pyson3._error, list_index. rewrite Ht. reflexivity.
  - intros tokens json fuel result known i t prior_tokens value.
    apply duplicate_only_if_bound.
  - intros tokens json fuel entries i k close Hent Hnodup Hne Hclose Hty.
    unfold Pyson3.parse_object.
    apply (parse_object_loop_entries tokens json fuel entries [] [] i k close); auto.
    intros key Hin. split; [| reflexivity].
    intros ->. contradiction.
Qed.

Lemma C4_duplicate_keys_witness :
  Pyson3.parse_object_loop
    [Pyson3.mkToken L_CURLY 0 1; Pyson3.mkToken STRING 1 4] (dq "{'a'") 1
    [(dq "'a'", VNone)] [dq "'a'"] 1
  = Raise (ValueError (Context "Duplicate key found" [] 1 (Pyson3.mkToken STRING 1 4))) /\
  Pyson3.parse_object
    [Pyson3.mkToken L_CURLY 0 1; Pyson3.mkToken STRING 1 4; Pyson3.mkToken COLON 4 5;
     Pyson3.mkToken NUMBER 5 6; Pyson3.mkToken COMMA 6 7; Pyson3.mkToken STRING 7 10;
     Pyson3.mkToken COLON 10 11; Pyson3.mkToken NUMBER 11 12; Pyson3.mkToken R_CURLY 12 13]
    (dq "{'a':1,'b':2}") (1 + 2 + 1) 1
  = Ok ([(dq "'a'", VInt 1); (dq "'b'", VInt 2)], 8 + 1).
Proof.
  split.
  - refine (proj1 (proj2 (proj2 C4_duplicate_keys))
              [Pyson3.mkToken L_CURLY 0 1; Pyson3.mkToken STRING 1 4] (dq "{'a'") 0
              [(dq "'a'", VNone)] [dq "'a'"] 1 (Pyson3.mkToken STRING 1 4) _ _ _ _ _);
      try reflexivity.
    + intros k Hk. simpl in *. exact Hk.
    + discriminate.
  - refine (proj1 (proj2 (proj2 (proj2 (proj2 C4_duplicate_keys))))
              [Pyson3.mkToken L_CURLY 0 1; Pyson3.mkToken STRING 1 4;
               Pyson3.mkToken COLON 4 5; Pyson3.mkToken NUMBER 5 6;
               Pyson3.mkToken COMMA 6 7; Pyson3.mkToken STRING 7 10;
               Pyson3.mkToken COLON 10 11; Pyson3.mkToken NUMBER 11 12;
               Pyson3.mkToken R_CURLY 12 13]
              (dq "{'a':1,'b':2}") 1 [(dq "'a'", VInt 1); (dq "'b'", VInt 2)] 1 8
              (Pyson3.mkToken R_CURLY 12 13) _ _ _ _ _).
    + simpl. exists (Pyson3.mkToken STRING 1 4), (Pyson3.mkToken COLON 4 5), 5.
      repeat split; try reflexivity.
      exists (Pyson3.mkToken STRING 7 10), (Pyson3.mkToken COLON 10 11), 8.
      repeat split; reflexivity.
    + repeat constructor; simpl; intros H; repeat destruct H as [H | H]; try discriminate H;
        try contradiction.
    + simpl. intros H. repeat destruct H as [H | H]; try discriminate H; try contradiction.
    + reflexivity.
    + reflexivity.
Defined.

(** The claim C4 as the specification words it fails on
    ['{"a":1,"b":2}']: the object returned binds neither [a] nor [b]; its
    keys are the texts of the key tokens with their quotes. *)
Lemma C4_counterexample :
  exists d,
    Pyson3.loads (dq "{'a':1,'b':2}") = Ok (VObject d) /\
    dict_mem "a" d = false /\ dict_mem "b" d = false /\
    map fst d = [String dquote (String "a" (String dquote EmptyString));
                 String dquote (String "b" (String dquote EmptyString))].
Proof.
  exists [(dq "'a'", VInt 1); (dq "'b'", VInt 2)].
  repeat split; vm_compute; reflexivity.
Qed.

(** ** Tokens after the end of the document *)

Lemma substring_app (s r : string) : forall n m,
  n + m <= String.length s ->
  String.substring n m (s ++ r) = String.substring n m s.
Proof.
  induction s as [| c s IH]; intros n m H; simpl in H.
  - assert (n = 0) by lia. assert (m = 0) by lia. subst.
    simpl. destruct r; reflexivity.
  - destruct n as [| n].
    + destruct m as [| m]; [reflexivity |].
      change (String.substring 0 (S m) ((String c s) ++ r))
        with (String c (String.substring 0 m (s ++ r))).
      change (String.substring 0 (S m) (String c s))
        with (String c (String.substring 0 m s)).
      rewrite IH by lia. reflexivity.
    + change (String.substring (S n) m ((String c s) ++ r))
        with (String.substring n m (s ++ r)).
      change (String.substring (S n) m (String c s)) with (String.substring n m s).
      apply IH. lia.
Qed.

#[global] Arguments Pyson3.get_string : simpl never.
#[global] Arguments Pyson3.normalized_string : simpl never.

Section MoreTokens.

(** The token list [tokens] of a text [json], and a longer list that
    starts with it, for a text [json'] in which the spans of [tokens] have
    the same text. *)
Variables tokens extra : list Pyson3.Token.
Variables json json' : string.
Hypothesis same_text :
  forall t, In t tokens -> Pyson3.get_string json' t = Pyson3.get_string json t.

Lemma list_index_more (i : nat) (t : Pyson3.Token) :
  nth_error tokens i = Some t ->
  @list_index Pyson3.Token _ (tokens ++ extra) i = Ok t.
Proof.
  intros H. apply list_index_Ok. rewrite nth_error_app1; [exact H |].
  apply nth_error_Some. congruence.
Qed.

Lemma consume_comma_more (r r' : Value * nat) :
  Pyson3.consume_comma tokens r = Ok r' ->
  Pyson3.consume_comma (tokens ++ extra) r = Ok r'.
Proof.
  destruct r as [v i]. unfold Pyson3.consume_comma. intros H.
  apply bind_ok_inv in H. destruct H as (t & Ht & H). apply list_index_Ok in Ht.
  rewrite (list_index_more i t Ht). exact H.
Qed.

Lemma closed_of_exit (close : TokenType) (i i' : nat) :
  loop_exit tokens close i i' -> i' < List.length tokens -> loop_closed tokens close i i'.
Proof.
  intros [(t & Hlt & Ht & Hty) | [(-> & Hlen) | (-> & _)]] Hi; [| lia | lia].
  split; [exact Hlt | exists t; auto].
Qed.

Lemma closed_after_value (close : TokenType) (i j j' i' : nat) (t : Pyson3.Token) :
  close <> COMMA -> i < j -> nth_error tokens j = Some t ->
  (Pyson3.type t = COMMA /\ j' = j + 1) \/ (Pyson3.type t <> COMMA /\ j' = j) ->
  loop_exit tokens close j' i' -> loop_closed tokens close i i' -> loop_closed tokens close j' i'.
Proof.
  intros Hclose Hij Ht Hcomma Hexit (Hlt & tc & Htc & Htyc).
  assert (Hj : j < List.length tokens) by (apply nth_error_Some; congruence).
  destruct Hexit as [(t' & Hlt' & Ht' & Hty') | [(-> & Hlen) | (-> & tl & Htl & Htyl)]].
  - split; [exact Hlt' | exists t'; auto].
  - exfalso. destruct Hcomma as [[Hty ->] | [_ ->]]; [| lia].
    replace (j + 1 - 1) with j in Htc by lia. congruence.
  - exfalso. congruence.
Qed.

Lemma parse_more_tokens : forall fuel,
  (forall i v j,
      Pyson3.parse_value_match tokens json fuel i = Ok (v, j) ->
      j < List.length tokens ->
      Pyson3.parse_value_match (tokens ++ extra) json' fuel i = Ok (v, j)) /\
  (forall result known i r i',
      Pyson3.parse_object_loop tokens json fuel result known i = Ok (r, i') ->
      loop_closed tokens R_CURLY i i' ->
      Pyson3.parse_object_loop (tokens ++ extra) json' fuel result known i = Ok (r, i')) /\
  (forall result i r i',
      Pyson3.parse_array_loop tokens json fuel result i = Ok (r, i') ->
      loop_closed tokens R_BRACKET i i' ->
      Pyson3.parse_array_loop (tokens ++ extra) json' fuel result i = Ok (r, i')).
Proof.
  induction fuel as [| fuel (IHv & IHo & IHa)];
    [repeat split; intros; discriminate |].
  assert (Hguard : forall i, i < List.length tokens ->
            (i <? Pyson3.length (tokens ++ extra))%nat = true).
  { intros i Hi. apply Nat.ltb_lt. unfold Pyson3.length. rewrite length_app. lia. }
  repeat split.
  - intros i v j H Hj. simpl in H |- *.
    apply bind_ok_inv in H. destruct H as (t & Ht & H). apply list_index_Ok in Ht.
    rewrite (list_index_more i t Ht). cbn [bind].
    pose proof (same_text t (nth_error_In _ _ Ht)) as Htext.
    unfold Pyson3.normalized_string in *. rewrite Htext.
    destruct (Pyson3.type t); try exact H; try solve [raise_not_Ok H].
    + apply bind_ok_inv in H. destruct H as ([o j0] & Ho & H). injection H as <- <-.
      rewrite (IHo _ _ _ _ _ Ho); [reflexivity |].
      apply closed_of_exit; [| exact Hj].
      apply (parse_object_loop_exit _ _ _ _ _ _ _ _ Ho).
    + apply bind_ok_inv in H. destruct H as ([a j0] & Ha & H). injection H as <- <-.
      rewrite (IHa _ _ _ _ Ha); [reflexivity |].
      apply closed_of_exit; [| exact Hj].
      apply (parse_array_loop_exit _ _ _ _ _ _ _ Ha).
  - intros result known i r i' H Hclosed. simpl in H |- *.
    destruct (i <? Pyson3.length tokens)%nat eqn:Hi.
    2:{ injection H as <- <-. destruct Hclosed as [Hlt _]. lia. }
    apply Nat.ltb_lt in Hi. rewrite (Hguard i Hi).
    apply bind_ok_inv in H. destruct H as (t & Ht & H). apply list_index_Ok in Ht.
    rewrite (list_index_more i t Ht). cbn [bind].
    pose proof (same_text t (nth_error_In _ _ Ht)) as Htext.
    unfold Pyson3.normalized_string in *. rewrite Htext.
    destruct (Pyson3.type t); try exact H; try solve [raise_not_Ok H].
    destruct (String.eqb _ _); [discriminate |].
    destruct (set_mem _ _); [raise_not_Ok H |].
    apply bind_ok_inv in H. destruct H as (c & Hc & H). apply list_index_Ok in Hc.
    rewrite (list_index_more _ c Hc). cbn [bind].
    destruct (negb _); [raise_not_Ok H |].
    apply bind_ok_inv in H. destruct H as ([v j] & Hv & H).
    apply bind_ok_inv in H. destruct H as ([v' j'] & Hcomma & H).
    pose proof (proj1 (parse_progress tokens json fuel) _ _ _ Hv) as Hprog.
    pose proof (consume_comma_Ok tokens _ _ _ _ Hcomma) as (_ & tc & Htc & Hcase).
    assert (Hj : j < List.length tokens) by (apply nth_error_Some; congruence).
    rewrite (IHv _ _ _ Hv Hj). cbn [bind].
    rewrite (consume_comma_more _ _ Hcomma). cbn [bind].
    apply (IHo _ _ _ _ _ H).
    apply (closed_after_value R_CURLY i j j' i' tc); auto; try discriminate; try lia.
    apply (parse_object_loop_exit _ _ _ _ _ _ _ _ H).
  - intros result i r i' H Hclosed. simpl in H |- *.
    destruct (i <? Pyson3.length tokens)%nat eqn:Hi.
    2:{ injection H as <- <-. destruct Hclosed as [Hlt _]. lia. }
    apply Nat.ltb_lt in Hi. rewrite (Hguard i Hi).
    apply bind_ok_inv in H. destruct H as (t & Ht & H). apply list_index_Ok in Ht.
    rewrite (list_index_more i t Ht). cbn [bind].
    assert (Hstep :
      (r0 <- Pyson3.parse_value_match tokens json fuel i ;;
       ' (value, i0) <- Pyson3.consume_comma tokens r0 ;;
       Pyson3.parse_array_loop tokens json fuel (result ++ [value]) i0) = Ok (r, i') ->
      (r0 <- Pyson3.parse_value_match (tokens ++ extra) json' fuel i ;;
       ' (value, i0) <- Pyson3.consume_comma (tokens ++ extra) r0 ;;
       Pyson3.parse_array_loop (tokens ++ extra) json' fuel (result ++ [value]) i0)
      = Ok (r, i')).
    { intros H'.
      apply bind_ok_inv in H'. destruct H' as ([v j] & Hv & H').
      apply bind_ok_inv in H'. destruct H' as ([v' j'] & Hcomma & H').
      pose proof (proj1 (parse_progress tokens json fuel) _ _ _ Hv) as Hprog.
      pose proof (consume_comma_Ok tokens _ _ _ _ Hcomma) as (_ & tc & Htc & Hcase).
      assert (Hj : j < List.length tokens) by (apply nth_error_Some; congruence).
      rewrite (IHv _ _ _ Hv Hj). cbn [bind].
      rewrite (consume_comma_more _ _ Hcomma). cbn [bind].
      apply (IHa _ _ _ _ H').
      apply (closed_after_value R_BRACKET i j j' i' tc); auto; try discriminate.
      apply (parse_array_loop_exit _ _ _ _ _ _ _ H'). }
    destruct (Pyson3.type t); try (apply Hstep; exact H). exact H.
Qed.

End MoreTokens.

(** X8: [loads] does not look at the tokens that follow the end of the
    document.  When a text decodes to a value and its last token is no
    comma (so that the top-level loop ended on its closing token), a longer
    text whose tokens start with the same tokens decodes to the same
    value, whatever the tokens that follow. *)
Theorem X8_trailing_tokens_ignored (json rest : string)
    (tokens extra : list Pyson3.Token) (v : Value) :
  Pyson3.lex json = Ok tokens ->
  Pyson3.lex (json ++ rest) = Ok (tokens ++ extra) ->
  Pyson3.loads json = Ok v ->
  (forall t, nth_error tokens (List.length tokens - 1) = Some t -> Pyson3.type t <> COMMA) ->
  Pyson3.loads (json ++ rest) = Ok v.
Proof.
  intros Hlex Hlex' H Hlast.
  assert (Htext : forall t, In t tokens ->
            Pyson3.get_string (json ++ rest) t = Pyson3.get_string json t).
  { intros t Hin. pose proof Hlex as Hl. unfold Pyson3.lex in Hl.
    apply lex_loop_tokens in Hl; [| simpl; lia | lia | constructor].
    destruct Hl as [Hch _].
    destruct (chained_bounds _ _ _ _ Hch Hin) as (_ & Hlt & Hle).
    unfold Pyson3.get_string, str_slice. apply substring_app. lia. }
  unfold Pyson3.loads, Pyson3.parse in H |- *. rewrite Hlex in H. rewrite Hlex'.
  cbn [bind] in H |- *.
  destruct (List.length tokens <? 2)%nat eqn:Hlen; [raise_not_Ok H |].
  apply Nat.ltb_ge in Hlen.
  assert (Hlen' : (List.length (tokens ++ extra) <? 2)%nat = false).
  { apply Nat.ltb_ge. rewrite length_app. lia. }
  rewrite Hlen'.
  apply bind_ok_inv in H. destruct H as (first & Hfirst & H).
  apply list_index_Ok in Hfirst.
  rewrite (list_index_more tokens extra 0 first Hfirst). cbn [bind].
  assert (Hfuel : Pyson3.parse_fuel tokens <= Pyson3.parse_fuel (tokens ++ extra)).
  { unfold Pyson3.parse_fuel. rewrite length_app. lia. }
  destruct (parse_more_tokens tokens extra json (json ++ rest) Htext
              (Pyson3.parse_fuel tokens)) as (_ & Mo & Ma).
  destruct (parse_more_fuel (tokens ++ extra) (json ++ rest)
              (Pyson3.parse_fuel tokens) (Pyson3.parse_fuel (tokens ++ extra)) Hfuel)
    as (_ & Fo & Fa).
  assert (Hclosed : forall close i',
            loop_exit tokens close 1 i' -> close <> COMMA -> loop_closed tokens close 1 i').
  { intros close i' [(t & Hlt & Ht & Hty) | [(-> & Hl) | (-> & t & Ht & Hty)]] Hc.
    - split; [exact Hlt | exists t; auto].
    - lia.
    - exfalso. apply (Hlast t Ht Hty). }
  destruct (Pyson3.type first); try solve [raise_not_Ok H].
  - apply bind_ok_inv in H. destruct H as ([o i'] & Ho & H).
    unfold Pyson3.parse_object in *.
    pose proof (Hclosed _ _ (parse_object_loop_exit _ _ _ _ _ _ _ _ Ho) ltac:(discriminate))
      as Hc.
    apply Mo in Ho; [| exact Hc].
    rewrite Fo by (rewrite Ho; discriminate). rewrite Ho. exact H.
  - apply bind_ok_inv in H. destruct H as ([a i'] & Ha & H).
    unfold Pyson3.parse_array in *.
    pose proof (Hclosed _ _ (parse_array_loop_exit _ _ _ _ _ _ _ Ha) ltac:(discriminate))
      as Hc.
    apply Ma in Ha; [| exact Hc].
    rewrite Fa by (rewrite Ha; discriminate). rewrite Ha. exact H.
Qed.

Lemma X8_trailing_tokens_ignored_witness :
  Pyson3.loads ("[1]" ++ "] 2 }") = Ok (VArray [VInt 1]).
Proof.
  refine (X8_trailing_tokens_ignored "[1]" "] 2 }"
            [Pyson3.mkToken L_BRACKET 0 1; Pyson3.mkToken NUMBER 1 2;
             Pyson3.mkToken R_BRACKET 2 3]
            [Pyson3.mkToken R_BRACKET 3 4; Pyson3.mkToken NUMBER 5 6;
             Pyson3.mkToken R_CURLY 7 8]
            (VArray [VInt 1]) _ _ _ _); try reflexivity.
  intros t Ht. injection Ht as <-. discriminate.
Defined.

(** ** The escape replacements *)

Lemma replace_from_no_backslash (c : ascii) (new s : string) :
  all_chars no_backslash s = true -> replace_from (esc c) new 0 s = s.
Proof.
  induction s as [| x s IH]; intros H; [reflexivity |].
  simpl in H. apply andb_prop in H. destruct H as [Hx Hs].
  rewrite replace_from_0. unfold esc at 1. rewrite prefix_String.
  unfold no_backslash in Hx. apply negb_true_iff in Hx.
  rewrite Ascii.eqb_sym, Hx. cbn [andb]. rewrite (IH Hs). reflexivity.
Qed.

Lemma string_length_app (a b : string) :
  String.length (a ++ b) = String.length a + String.length b.
Proof. induction a as [| x a IH]; simpl; [reflexivity | rewrite IH; reflexivity]. Qed.

Lemma replace_from_esc_length (c : ascii) (new : string) :
  String.length new <= 2 ->
  forall n s, String.length s <= n ->
    String.length (replace_from (esc c) new 0 s) <= String.length s.
Proof.
  intros Hnew. induction n as [| n IH]; intros s Hlen.
  - destruct s; simpl in *; lia.
  - destruct s as [| x [| y s]]; [simpl; lia | rewrite replace_from_esc_one; lia |].
    rewrite replace_from_esc. simpl in Hlen.
    destruct (Ascii.eqb x backslash && Ascii.eqb y c).
    + rewrite string_length_app. pose proof (IH s ltac:(lia)). simpl. lia.
    + pose proof (IH (String y s) ltac:(simpl; lia)). simpl in *. lia.
Qed.

Lemma replace_esc_length (c : ascii) (new s : string) :
  String.length new <= 2 ->
  String.length (replace (esc c) new s) <= String.length s.
Proof.
  intros Hnew. change (replace (esc c) new s) with (replace_from (esc c) new 0 s).
  apply (replace_from_esc_length c new Hnew (String.length s) s (le_n _)).
Qed.

(** X9: the escape replacements leave a text without backslash as it is;
    so the value of a STRING token whose span holds no backslash is the
    text of the span, with its quotes.  In every case the decoded text is
    not longer than the raw text. *)
Theorem X9_decode_escapes (raw : string) :
  String.length (decode_escapes raw) <= String.length raw /\
  (all_chars no_backslash raw = true -> decode_escapes raw = raw) /\
  (forall json t,
      raw = Pyson3.get_string json t -> all_chars no_backslash raw = true ->
      Pyson3.normalized_string json t = Pyson3.get_string json t).
Proof.
  assert (Hid : all_chars no_backslash raw = true -> decode_escapes raw = raw).
  { intros H. unfold decode_escapes.
    change (replace (esc "u") "u") with (replace_from (esc "u") "u" 0).
    change (replace (esc "t") (str1 "009")) with (replace_from (esc "t") (str1 "009") 0).
    change (replace (esc "r") (str1 "013")) with (replace_from (esc "r") (str1 "013") 0).
    change (replace (esc "n") (str1 "010")) with (replace_from (esc "n") (str1 "010") 0).
    change (replace (esc "f") (str1 "012")) with (replace_from (esc "f") (str1 "012") 0).
    change (replace (esc "b") (str1 "008")) with (replace_from (esc "b") (str1 "008") 0).
    change (replace (esc "/") "/") with (replace_from (esc "/") "/" 0).
    change (replace (esc dquote) (str1 dquote))
      with (replace_from (esc dquote) (str1 dquote) 0).
    change (replace (esc backslash) (str1 backslash))
      with (replace_from (esc backslash) (str1 backslash) 0).
    repeat rewrite (fun c new => replace_from_no_backslash c new raw H). reflexivity. }
  split; [| split; [exact Hid |]].
  - unfold decode_escapes.
    repeat (eapply Nat.le_trans; [apply replace_esc_length; simpl; lia |]).
    apply le_n.
  - intros json t -> H. unfold Pyson3.normalized_string. apply Hid. exact H.
Qed.

Lemma X9_decode_escapes_witness :
  decode_escapes (dq "'a b'") = dq "'a b'" /\
  Pyson3.normalized_string (dq "['a b']") (Pyson3.mkToken STRING 1 6)
    = Pyson3.get_string (dq "['a b']") (Pyson3.mkToken STRING 1 6).
Proof.
  split.
  - refine (proj1 (proj2 (X9_decode_escapes (dq "'a b'"))) _). reflexivity.
  - refine (proj2 (proj2 (X9_decode_escapes (dq "'a b'")))
              (dq "['a b']") (Pyson3.mkToken STRING 1 6) _ _); reflexivity.
Defined.

(** ** The assertions *)

Lemma bind_no_assertion {T A B} (c : result T A) (k : A -> result T B) :
  c <> Raise AssertionError ->
  (forall a, c = Ok a -> k a <> Raise AssertionError) ->
  bind c k <> Raise AssertionError.
Proof.
  destruct c as [a | e |]; simpl; intros Hc Hk.
  - apply Hk. reflexivity.
  - intros H. apply Hc. injection H as ->. reflexivity.
  - discriminate.
Qed.

Lemma list_index_no_assertion {T A} (l : list A) (i : nat) :
  @list_index T A l i <> Raise AssertionError.
Proof. unfold list_index. destruct (nth_error l i); discriminate. Qed.

Lemma str_index_no_assertion {T} (s : string) (i : nat) :
  @str_index T s i <> Raise AssertionError.
Proof. unfold str_index. destruct (String.get i s); discriminate. Qed.

Lemma py_float_no_assertion {T} (s : string) : @py_float T s <> Raise AssertionError.
Proof.
  unfold py_float.
  repeat match goal with
    | |- context [let (_, _) := ?p in _] => destruct p
    | |- context [if ?b then _ else _] => destruct b
    | |- context [match ?s with EmptyString => _ | String _ _ => _ end] => destruct s
    end; discriminate.
Qed.

Lemma py_int_no_assertion {T} (f : spec_float) : @py_int T f <> Raise AssertionError.
Proof. destruct f; discriminate. Qed.

Lemma number_no_assertion {T} (text : string) (i : nat) :
  (as_float <- @py_float T text ;;
   (if contains "." text then Ok (VFloat as_float, i + 1)
    else z <- py_int as_float ;; Ok (VInt z, i + 1))) <> Raise AssertionError.
Proof.
  apply bind_no_assertion; [apply py_float_no_assertion |]. intros f _.
  destruct (contains "." text); [discriminate |].
  apply bind_no_assertion; [apply py_int_no_assertion | discriminate].
Qed.

Lemma quoted_not_empty (s : string) : quoted s -> s <> EmptyString.
Proof. intros [body ->]. discriminate. Qed.

Section NoAssertion3.

Variable tokens : list Pyson3.Token.
Variable json : string.
Hypothesis keys_quoted :
  forall t, In t tokens -> Pyson3.type t = STRING -> quoted (Pyson3.get_string json t).

Lemma error3_no_assertion {A} (i : option nat) (msg : string) :
  (m <- Pyson3._error tokens i msg ;; @Raise Pyson3.Token A (ValueError m))
    <> Raise AssertionError.
Proof.
  apply bind_no_assertion; [| discriminate].
  unfold Pyson3._error. destruct i as [i |]; [| discriminate].
  apply bind_no_assertion; [apply list_index_no_assertion | discriminate].
Qed.

Lemma consume_comma3_no_assertion (r : Value * nat) :
  Pyson3.consume_comma tokens r <> Raise AssertionError.
Proof.
  destruct r as [v i]. unfold Pyson3.consume_comma.
  apply bind_no_assertion; [apply list_index_no_assertion |]. intros t _.
  destruct (TokenType_eqb _ _); discriminate.
Qed.

Lemma parse3_no_assertion : forall fuel,
  (forall i, Pyson3.parse_value_match tokens json fuel i <> Raise AssertionError) /\
  (forall result known i,
      Pyson3.parse_object_loop tokens json fuel result known i <> Raise AssertionError) /\
  (forall result i,
      Pyson3.parse_array_loop tokens json fuel result i <> Raise AssertionError).
Proof.
  induction fuel as [| fuel (IHv & IHo & IHa)]; [repeat split; intros; discriminate |].
  repeat split.
  - intros i. simpl.
    apply bind_no_assertion; [apply list_index_no_assertion |]. intros t _.
    destruct (Pyson3.type t); try discriminate; try apply error3_no_assertion.
    + apply bind_no_assertion; [apply IHo |]. intros [o j] _. discriminate.
    + apply bind_no_assertion; [apply IHa |]. intros [a j] _. discriminate.
    + apply number_no_assertion.
  - intros result known i. simpl.
    destruct (i <? Pyson3.length tokens)%nat; [| discriminate].
    apply bind_no_assertion; [apply list_index_no_assertion |]. intros t Ht.
    apply list_index_Ok in Ht.
    destruct (Pyson3.type t) eqn:Hty; try discriminate; try apply error3_no_assertion.
    pose proof (decode_escapes_quoted _ (keys_quoted t (nth_error_In _ _ Ht) Hty)) as Hq.
    apply quoted_not_empty in Hq. apply String.eqb_neq in Hq.
    unfold Pyson3.normalized_string. rewrite Hq.
    destruct (set_mem _ _); [apply error3_no_assertion |].
    apply bind_no_assertion; [apply list_index_no_assertion |]. intros c _.
    destruct (negb _); [apply error3_no_assertion |].
    apply bind_no_assertion; [apply IHv |]. intros r _.
    apply bind_no_assertion; [apply consume_comma3_no_assertion |]. intros [v j] _.
    apply IHo.
  - intros result i. simpl.
    destruct (i <? Pyson3.length tokens)%nat; [| discriminate].
    apply bind_no_assertion; [apply list_index_no_assertion |]. intros t _.
    destruct (Pyson3.type t); try discriminate;
      (apply bind_no_assertion; [apply IHv |]; intros r _;
       apply bind_no_assertion; [apply consume_comma3_no_assertion |]; intros [v j] _;
       apply IHa).
Qed.

End NoAssertion3.

Section NoAssertion1.

Variable tokens : list Pyson.Token.
Hypothesis texts_not_empty :
  forall t, In t tokens -> Pyson.type t = STRING \/ Pyson.type t = NUMBER ->
            exists c s, Pyson.value t = Some (String c s).

Lemma error1_no_assertion {A} (i : option nat) (msg : string) :
  (m <- Pyson._error tokens i msg ;; @Raise Pyson.Token A (ValueError m))
    <> Raise AssertionError.
Proof.
  apply bind_no_assertion; [| discriminate].
  unfold Pyson._error. destruct i as [i |]; [| discriminate].
  apply bind_no_assertion; [apply list_index_no_assertion | discriminate].
Qed.

Lemma consume_comma1_no_assertion (r : Value * nat) :
  Pyson.consume_comma tokens r <> Raise AssertionError.
Proof.
  destruct r as [v i]. unfold Pyson.consume_comma.
  apply bind_no_assertion; [apply list_index_no_assertion |]. intros t _.
  destruct (TokenType_eqb _ _); discriminate.
Qed.

Lemma parse1_no_assertion : forall fuel,
  (forall i, Pyson.parse_value_match tokens fuel i <> Raise AssertionError) /\
  (forall result known i,
      Pyson.parse_object_loop tokens fuel result known i <> Raise AssertionError) /\
  (forall result i,
      Pyson.parse_array_loop tokens fuel result i <> Raise AssertionError).
Proof.
  induction fuel as [| fuel (IHv & IHo & IHa)]; [repeat split; intros; discriminate |].
  repeat split.
  - intros i. simpl.
    apply bind_no_assertion; [apply list_index_no_assertion |]. intros t Ht.
    apply list_index_Ok in Ht.
    destruct (Pyson.type t) eqn:Hty; try discriminate; try apply error1_no_assertion.
    + apply bind_no_assertion; [apply IHo |]. intros [o j] _. discriminate.
    + apply bind_no_assertion; [apply IHa |]. intros [a j] _. discriminate.
    + destruct (texts_not_empty t (nth_error_In _ _ Ht) (or_intror Hty)) as (c & s & ->).
      simpl. apply number_no_assertion.
  - intros result known i. simpl.
    destruct (i <? Pyson.length tokens)%nat; [| discriminate].
    apply bind_no_assertion; [apply list_index_no_assertion |]. intros t Ht.
    apply list_index_Ok in Ht.
    destruct (Pyson.type t) eqn:Hty; try discriminate; try apply error1_no_assertion.
    destruct (texts_not_empty t (nth_error_In _ _ Ht) (or_introl Hty)) as (c & s & ->).
    simpl.
    destruct (set_mem _ _); [apply error1_no_assertion |].
    apply bind_no_assertion; [apply list_index_no_assertion |]. intros c0 _.
    destruct (negb _); [apply error1_no_assertion |].
    apply bind_no_assertion; [apply IHv |]. intros r _.
    apply bind_no_assertion; [apply consume_comma1_no_assertion |]. intros [v j] _.
    apply IHo.
  - intros result i. simpl.
    destruct (i <? Pyson.length tokens)%nat; [| discriminate].
    apply bind_no_assertion; [apply list_index_no_assertion |]. intros t _.
    destruct (Pyson.type t); try discriminate;
      (apply bind_no_assertion; [apply IHv |]; intros r _;
       apply bind_no_assertion; [apply consume_comma1_no_assertion |]; intros [v j] _;
       apply IHa).
Qed.

End NoAssertion1.

Lemma scan_number1_no_assertion (json : string) : forall fuel i,
  Pyson.scan_number fuel json i <> Raise AssertionError.
Proof.
  induction fuel as [| fuel IH]; intros i; simpl; [discriminate |].
  apply bind_no_assertion; [apply str_index_no_assertion |]. intros c _.
  destruct (char_in c NUMERIC); [apply IH | discriminate].
Qed.

Lemma scan_string1_no_assertion (json : string) (i : nat) : forall fuel idx,
  Pyson.scan_string fuel json i idx <> Raise AssertionError.
Proof.
  induction fuel as [| fuel IH]; intros idx; simpl; [discriminate |].
  apply bind_no_assertion; [apply str_index_no_assertion |]. intros v _.
  destruct (Ascii.eqb v dquote); [discriminate |].
  destruct (Ascii.eqb v backslash); [| apply IH].
  apply bind_no_assertion; [apply str_index_no_assertion |]. intros n _.
  destruct (char_in n _); [apply IH |].
  destruct (Ascii.eqb n "u"); discriminate.
Qed.

Lemma lex_step1_no_assertion (json : string) (i : nat) :
  Pyson.lex_step json i <> Raise AssertionError.
Proof.
  unfold Pyson.lex_step.
  apply bind_no_assertion; [apply str_index_no_assertion |]. intros v _.
  repeat match goal with
    | |- context [if ?b then _ else _] => destruct b
    end; try discriminate.
  - apply bind_no_assertion; [apply scan_string1_no_assertion |].
    intros [s idx] _. discriminate.
  - apply bind_no_assertion; [apply scan_number1_no_assertion | discriminate].
Qed.

Lemma lex_loop1_no_assertion (json : string) : forall fuel tokens i,
  Pyson.lex_loop fuel json tokens i <> Raise AssertionError.
Proof.
  induction fuel as [| fuel IH]; intros tokens i; simpl; [discriminate |].
  destruct (i <? String.length json)%nat; [| discriminate].
  apply bind_no_assertion; [apply lex_step1_no_assertion |].
  intros [tok j] _. destruct tok; apply IH.
Qed.

(** X10: the two [assert] statements of the parser (marked [mypy fix])
    never fail on the tokens of [lex]: the text of a NUMBER token and the
    decoded key of a STRING token are never empty.  So [loads] never raises
    [AssertionError], in the third variant and in the first. *)
Theorem X10_assertions_hold (json : string) :
  Pyson3.loads json <> Raise AssertionError /\ Pyson.loads json <> Raise AssertionError.
Proof.
  split.
  - unfold Pyson3.loads, Pyson3.parse. apply bind_no_assertion.
    { intros H. apply lex_loop_plain in H. destruct H as [H | [m H]]; discriminate H. }
    intros tokens Hlex.
    assert (Hq : forall t, In t tokens -> Pyson3.type t = STRING ->
                   quoted (Pyson3.get_string json t)).
    { intros t Hin Hty. pose proof (lex_string_span json tokens Hlex) as Hall.
      rewrite Forall_forall in Hall. apply get_string_quoted; auto. }
    destruct (List.length tokens <? 2)%nat; [apply error3_no_assertion |].
    apply bind_no_assertion; [apply list_index_no_assertion |]. intros t _.
    destruct (parse3_no_assertion tokens json Hq (Pyson3.parse_fuel tokens)) as (_ & Ho & Ha).
    destruct (Pyson3.type t); try apply error3_no_assertion.
    + apply bind_no_assertion; [apply Ho |]. intros [o j] _. discriminate.
    + apply bind_no_assertion; [apply Ha |]. intros [a j] _. discriminate.
  - unfold Pyson.loads. apply bind_no_assertion; [apply lex_loop1_no_assertion |].
    intros tokens1 Hlex1.
    pose proof (agree_lex json) as Hagree. rewrite Hlex1 in Hagree.
    destruct (Pyson3.lex json) as [tokens | e |] eqn:Hlex; simpl in Hagree;
      try contradiction.
    subst tokens1.
    assert (Htexts : forall t, In t (map (copy_token json) tokens) ->
              Pyson.type t = STRING \/ Pyson.type t = NUMBER ->
              exists c s, Pyson.value t = Some (String c s)).
    { intros t1 Hin Hty. apply in_map_iff in Hin. destruct Hin as (t & <- & Hin).
      simpl in *. unfold token_value.
      destruct Hty as [Hty | Hty]; rewrite Hty.
      - pose proof (lex_string_span json tokens Hlex) as Hall.
        rewrite Forall_forall in Hall.
        destruct (decode_escapes_quoted _ (get_string_quoted json t (Hall t Hin) Hty))
          as [body ->].
        eexists; eexists; reflexivity.
      - pose proof Hlex as Hl. unfold Pyson3.lex in Hl.
        apply lex_loop_tokens in Hl; [| simpl; lia | lia | constructor].
        destruct Hl as [Hch _].
        destruct (chained_bounds _ _ _ _ Hch Hin) as (_ & Hlt & Hle).
        assert (Hlen : String.length (Pyson3.get_string json t) <> 0).
        { unfold Pyson3.get_string, str_slice. rewrite length_substring. lia. }
        destruct (Pyson3.get_string json t) as [| c s]; [simpl in Hlen; lia |].
        eexists; eexists; reflexivity. }
    unfold Pyson.parse.
    destruct (List.length (map (copy_token json) tokens) <? 2)%nat;
      [apply error1_no_assertion |].
    apply bind_no_assertion; [apply list_index_no_assertion |]. intros t _.
    destruct (parse1_no_assertion _ Htexts (Pyson.parse_fuel (map (copy_token json) tokens)))
      as (_ & Ho & Ha).
    destruct (Pyson.type t); try apply error1_no_assertion.
    + apply bind_no_assertion; [apply Ho |]. intros [o j] _. discriminate.
    + apply bind_no_assertion; [apply Ha |]. intros [a j] _. discriminate.
Qed.

(** X11: the lexers of the first and of the third variant read a text in
    the same way: both raise, or they return as many tokens, and each
    token of the first variant is the copy of the token of the third: the
    same kind, with no text for punctuation, the text of the span for a
    number, a boolean or null, and the decoded text of the span for a
    string. *)
Theorem X11_lexers_correspond (json : string) :
  (raised (Pyson.lex json) /\ raised (Pyson3.lex json)) \/
  (exists tokens,
      Pyson3.lex json = Ok tokens /\
      Pyson.lex json = Ok (map (copy_token json) tokens)).
Proof.
  pose proof (agree_lex json) as H. pose proof (lex_total json) as Ht.
  destruct (Pyson.lex json) as [ts1 | e1 |], (Pyson3.lex json) as [ts3 | e3 |];
    simpl in H; try contradiction.
  - right. exists ts3. subst ts1. auto.
  - left. split; eexists; reflexivity.
Qed.

(** ** The second variant: its parser is that of the first *)

#[global] Arguments Pyson2._error : simpl never.
#[global] Arguments Pyson2.consume_comma : simpl never.

Lemma same_kind_eqb (a b : TokenType) :
  Pyson2.TokenType_eqb (same_kind a) (same_kind b) = TokenType_eqb a b.
Proof. destruct a, b; reflexivity. Qed.

Section Simulation2.

Variable tokens : list Pyson.Token.

Lemma agree_list_index2 (i : nat) :
  agree (fun t2 t1 => t2 = same_token t1)
        (@list_index Pyson2.Token _ (map same_token tokens) i)
        (@list_index Pyson.Token _ tokens i).
Proof.
  unfold list_index. rewrite nth_error_map.
  destruct (nth_error tokens i); simpl; auto.
Qed.

Lemma error2_raised {A} (i : option nat) (msg : string) :
  raised (m <- Pyson2._error (map same_token tokens) i msg ;;
          @Raise Pyson2.Token A (ValueError m)).
Proof.
  destruct (Pyson2._error (map same_token tokens) i msg) as [m | e |] eqn:He; simpl.
  - eexists; reflexivity.
  - eexists; reflexivity.
  - exfalso. unfold Pyson2._error in He. destruct i as [i |]; [| discriminate].
    unfold list_index in He. destruct (nth_error (map same_token tokens) i); discriminate.
Qed.

Lemma error1_raised' {A} (i : option nat) (msg : string) :
  raised (m <- Pyson._error tokens i msg ;; @Raise Pyson.Token A (ValueError m)).
Proof.
  destruct (Pyson._error tokens i msg) as [m | e |] eqn:He; simpl.
  - eexists; reflexivity.
  - eexists; reflexivity.
  - exfalso. unfold Pyson._error in He. destruct i as [i |]; [| discriminate].
    unfold list_index in He. destruct (nth_error tokens i); discriminate.
Qed.

Lemma agree_error2 {A B} (R : A -> B -> Prop) (i j : option nat) (msg msg' : string) :
  agree R (m <- Pyson2._error (map same_token tokens) i msg ;;
           @Raise Pyson2.Token A (ValueError m))
          (m <- Pyson._error tokens j msg' ;; @Raise Pyson.Token B (ValueError m)).
Proof. apply agree_raised; [apply error2_raised | apply error1_raised']. Qed.

Lemma agree_consume_comma2 (r : Value * nat) :
  agree eq (Pyson2.consume_comma (map same_token tokens) r) (Pyson.consume_comma tokens r).
Proof.
  destruct r as [v i]. unfold Pyson2.consume_comma, Pyson.consume_comma.
  eapply agree_bind; [apply agree_list_index2 |].
  intros t2 t1 ->. simpl.
  change Pyson2.COMMA with (same_kind COMMA). rewrite same_kind_eqb.
  destruct (TokenType_eqb (Pyson.type t1) COMMA); reflexivity.
Qed.

Lemma agree_number2 (x : option string) (i : nat) :
  agree eq
    (string <- Pyson2.assert_str x ;;
     as_float <- py_float string ;;
     (if contains "." string then Ok (VFloat as_float, i + 1)
      else z <- py_int as_float ;; Ok (VInt z, i + 1)))
    (string <- Pyson.assert_str x ;;
     as_float <- py_float string ;;
     (if contains "." string then Ok (VFloat as_float, i + 1)
      else z <- py_int as_float ;; Ok (VInt z, i + 1))).
Proof.
  eapply agree_bind with (R := eq).
  - destruct x as [[| c s] |]; simpl; auto.
  - intros s ? <-. eapply agree_bind; [apply agree_py_float |].
    intros f ? <-. destruct (contains "." s); [simpl; reflexivity |].
    eapply agree_bind; [apply agree_py_int |]. intros z ? <-. simpl. reflexivity.
Qed.

(** The parsers agree on every call, with the same fuel. *)
Lemma agree_parser2 : forall fuel,
  (forall i, agree eq (Pyson2.parse_value_match (map same_token tokens) fuel i)
                      (Pyson.parse_value_match tokens fuel i)) /\
  (forall result known i,
      agree eq (Pyson2.parse_object_loop (map same_token tokens) fuel result known i)
               (Pyson.parse_object_loop tokens fuel result known i)) /\
  (forall result i,
      agree eq (Pyson2.parse_array_loop (map same_token tokens) fuel result i)
               (Pyson.parse_array_loop tokens fuel result i)).
Proof.
  induction fuel as [| fuel (IHv & IHo & IHa)]; [repeat split; intros; exact I |].
  assert (Hlen : Pyson2.length (map same_token tokens) = Pyson.length tokens).
  { unfold Pyson2.length, Pyson.length. apply length_map. }
  repeat split.
  - intros i. simpl.
    eapply agree_bind; [apply agree_list_index2 |].
    intros t2 t ->. simpl.
    destruct (Pyson.type t) eqn:Hty; simpl; try reflexivity;
      try apply agree_error2.
    + eapply agree_bind; [apply IHo |]. intros [o j] ? <-. simpl. reflexivity.
    + eapply agree_bind; [apply IHa |]. intros [a j] ? <-. simpl. reflexivity.
    + apply agree_number2.
  - intros result known i. simpl. rewrite Hlen.
    destruct (i <? Pyson.length tokens)%nat; [| simpl; reflexivity].
    eapply agree_bind; [apply agree_list_index2 |].
    intros t2 t ->. simpl.
    destruct (Pyson.type t) eqn:Hty; simpl; try reflexivity;
      try apply agree_error2.
    eapply agree_bind with (R := eq).
    { destruct (Pyson.value t) as [[| c s] |]; simpl; auto. }
    intros key ? <-.
    destruct (set_mem key known); [apply agree_error2 |].
    eapply agree_bind; [apply agree_list_index2 |].
    intros c2 c1 ->. simpl.
    change Pyson2.COLON with (same_kind COLON). rewrite same_kind_eqb.
    destruct (negb (TokenType_eqb (Pyson.type c1) COLON)); [apply agree_error2 |].
    eapply agree_bind; [apply IHv |]. intros r ? <-.
    eapply agree_bind; [apply agree_consume_comma2 |]. intros [v j] ? <-.
    apply IHo.
  - intros result i. simpl. rewrite Hlen.
    destruct (i <? Pyson.length tokens)%nat; [| simpl; reflexivity].
    eapply agree_bind; [apply agree_list_index2 |].
    intros t2 t ->. simpl.
    destruct (Pyson.type t) eqn:Hty; simpl; try reflexivity;
      (eapply agree_bind; [apply IHv |]; intros r ? <-;
       eapply agree_bind; [apply agree_consume_comma2 |]; intros [v j] ? <-;
       apply IHa).
Qed.

Lemma agree_parse2 :
  agree eq (Pyson2.parse (map same_token tokens)) (Pyson.parse tokens).
Proof.
  unfold Pyson2.parse, Pyson.parse.
  assert (Hlen : List.length (map same_token tokens) = List.length tokens)
    by apply length_map.
  rewrite Hlen.
  destruct (List.length tokens <? 2)%nat; [apply agree_error2 |].
  eapply agree_bind; [apply agree_list_index2 |].
  intros t2 t ->. simpl.
  assert (Hfuel : Pyson2.parse_fuel (map same_token tokens) = Pyson.parse_fuel tokens).
  { unfold Pyson2.parse_fuel, Pyson.parse_fuel. rewrite Hlen. reflexivity. }
  rewrite Hfuel.
  destruct (agree_parser2 (Pyson.parse_fuel tokens)) as (_ & Ho & Ha).
  unfold Pyson2.parse_object, Pyson2.parse_array, Pyson.parse_object, Pyson.parse_array.
  destruct (Pyson.type t); simpl; try apply agree_error2.
  - eapply agree_bind; [apply Ho |]. intros [o j] ? <-. simpl. reflexivity.
  - eapply agree_bind; [apply Ha |]. intros [a j] ? <-. simpl. reflexivity.
Qed.

End Simulation2.

Section ParserFacts1.

Variable tokens : list Pyson.Token.

Lemma consume_comma1_Ok (v v' : Value) (i i' : nat) :
  Pyson.consume_comma tokens (v, i) = Ok (v', i') -> v' = v /\ i <= i'.
Proof.
  unfold Pyson.consume_comma, list_index.
  destruct (nth_error tokens i) as [t |]; simpl; [| discriminate].
  destruct (TokenType_eqb (Pyson.type t) COMMA); intros [= <- <-]; split; auto; lia.
Qed.

Lemma consume_comma1_fuel (r : Value * nat) : Pyson.consume_comma tokens r <> OutOfFuel.
Proof.
  destruct r as [v i]. unfold Pyson.consume_comma, list_index.
  destruct (nth_error tokens i) as [t |]; simpl; [| discriminate].
  destruct (TokenType_eqb _ _); discriminate.
Qed.

Lemma raise_error1_fuel {A} (i : option nat) (msg : string) :
  (m <- Pyson._error tokens i msg ;; @Raise Pyson.Token A (ValueError m)) <> OutOfFuel.
Proof.
  apply bind_fuel; [| discriminate].
  unfold Pyson._error. destruct i as [i |]; [| discriminate].
  unfold list_index. destruct (nth_error tokens i); discriminate.
Qed.

Lemma number1_fuel (x : option string) (i : nat) :
  (string <- @Pyson.assert_str x ;;
   as_float <- py_float string ;;
   (if contains "." string then Ok (VFloat as_float, i + 1)
    else z <- py_int as_float ;; Ok (VInt z, i + 1))) <> OutOfFuel.
Proof.
  apply bind_fuel; [destruct x as [[| c s] |]; discriminate |]. intros s _.
  apply bind_fuel.
  - unfold py_float.
    repeat match goal with
      | |- context [let (_, _) := ?p in _] => destruct p
      | |- context [if ?b then _ else _] => destruct b
      | |- context [match ?s with EmptyString => _ | String _ _ => _ end] => destruct s
      end; discriminate.
  - intros f _. destruct (contains _ _); [discriminate |].
    apply bind_fuel; [destruct f; discriminate | discriminate].
Qed.

Lemma parse1_progress : forall fuel,
  (forall i v i', Pyson.parse_value_match tokens fuel i = Ok (v, i') -> i < i') /\
  (forall result known i r i',
      Pyson.parse_object_loop tokens fuel result known i = Ok (r, i') -> i <= i') /\
  (forall result i r i',
      Pyson.parse_array_loop tokens fuel result i = Ok (r, i') -> i <= i').
Proof.
  induction fuel as [| fuel (IHv & IHo & IHa)];
    [repeat split; intros; discriminate |].
  repeat split.
  - intros i v i' H. simpl in H.
    apply bind_ok_inv in H. destruct H as (t & _ & H).
    destruct (Pyson.type t);
      try (injection H as <- <-; lia); try solve [raise_not_Ok H].
    + apply bind_ok_inv in H. destruct H as ([o j] & Ho & H).
      injection H as <- <-. apply IHo in Ho. lia.
    + apply bind_ok_inv in H. destruct H as ([a j] & Ha & H).
      injection H as <- <-. apply IHa in Ha. lia.
    + apply bind_ok_inv in H. destruct H as (s & _ & H).
      apply bind_ok_inv in H. destruct H as (f & _ & H).
      destruct (contains _ _); [injection H as <- <-; lia |].
      apply bind_ok_inv in H. destruct H as (z & _ & H). injection H as <- <-; lia.
  - intros result known i r i' H. simpl in H.
    destruct (i <? Pyson.length tokens)%nat; [| injection H as <- <-; lia].
    apply bind_ok_inv in H. destruct H as (t & _ & H).
    destruct (Pyson.type t);
      try (injection H as <- <-; lia); try solve [raise_not_Ok H].
    apply bind_ok_inv in H. destruct H as (key & _ & H).
    destruct (set_mem _ _); [raise_not_Ok H |].
    apply bind_ok_inv in H. destruct H as (c & _ & H).
    destruct (negb _); [raise_not_Ok H |].
    apply bind_ok_inv in H. destruct H as ([v j] & Hv & H).
    apply bind_ok_inv in H. destruct H as ([v' j'] & Hc & H).
    apply IHv in Hv. apply consume_comma1_Ok in Hc. apply IHo in H. lia.
  - intros result i r i' H. simpl in H.
    destruct (i <? Pyson.length tokens)%nat; [| injection H as <- <-; lia].
    apply bind_ok_inv in H. destruct H as (t & _ & H).
    destruct (Pyson.type t); try (injection H as <- <-; lia);
      (apply bind_ok_inv in H; destruct H as ([v j] & Hv & H);
       apply bind_ok_inv in H; destruct H as ([v' j'] & Hc & H);
       apply IHv in Hv; apply consume_comma1_Ok in Hc; apply IHa in H; lia).
Qed.

Lemma parse1_fuel_enough : forall fuel,
  (forall i, 2 * (Pyson.length tokens - i) + 1 <= fuel ->
     Pyson.parse_value_match tokens fuel i <> OutOfFuel) /\
  (forall result known i, 2 * (Pyson.length tokens - i) + 2 <= fuel ->
     Pyson.parse_object_loop tokens fuel result known i <> OutOfFuel) /\
  (forall result i, 2 * (Pyson.length tokens - i) + 2 <= fuel ->
     Pyson.parse_array_loop tokens fuel result i <> OutOfFuel).
Proof.
  induction fuel as [| fuel (IHv & IHo & IHa)]; [repeat split; intros; lia |].
  assert (Hidx : forall i t, @list_index Pyson.Token _ tokens i = Ok t ->
                             i < Pyson.length tokens).
  { intros i t H. apply list_index_Ok in H. apply nth_error_Some. congruence. }
  repeat split.
  - intros i Hf. simpl.
    apply bind_fuel; [apply list_index_fuel |]. intros t Ht. apply Hidx in Ht.
    destruct (Pyson.type t); try discriminate; try apply raise_error1_fuel.
    + apply bind_fuel; [apply IHo; lia |]. intros [o j] _; discriminate.
    + apply bind_fuel; [apply IHa; lia |]. intros [a j] _; discriminate.
    + apply number1_fuel.
  - intros result known i Hf. simpl.
    destruct (i <? Pyson.length tokens)%nat eqn:Hi; [| discriminate].
    apply Nat.ltb_lt in Hi.
    apply bind_fuel; [apply list_index_fuel |]. intros t _.
    destruct (Pyson.type t); try discriminate; try apply raise_error1_fuel.
    apply bind_fuel; [destruct (Pyson.value t) as [[| c s] |]; discriminate |].
    intros key _.
    destruct (set_mem _ _); [apply raise_error1_fuel |].
    apply bind_fuel; [apply list_index_fuel |]. intros c _.
    destruct (negb _); [apply raise_error1_fuel |].
    apply bind_fuel; [apply IHv; lia |]. intros [v j] Hv.
    apply bind_fuel; [apply consume_comma1_fuel |]. intros [v' j'] Hc.
    apply (proj1 (parse1_progress fuel)) in Hv. apply consume_comma1_Ok in Hc.
    apply IHo. lia.
  - intros result i Hf. simpl.
    destruct (i <? Pyson.length tokens)%nat eqn:Hi; [| discriminate].
    apply Nat.ltb_lt in Hi.
    apply bind_fuel; [apply list_index_fuel |]. intros t _.
    destruct (Pyson.type t); try discriminate;
      (apply bind_fuel; [apply IHv; lia |]; intros [v j] Hv;
       apply bind_fuel; [apply consume_comma1_fuel |]; intros [v' j'] Hc;
       apply (proj1 (parse1_progress fuel)) in Hv; apply consume_comma1_Ok in Hc;
       apply IHa; lia).
Qed.

(** [Parser.parse] of the first variant terminates on every token list. *)
Lemma parse1_total : Pyson.parse tokens <> OutOfFuel.
Proof.
  unfold Pyson.parse.
  destruct (List.length tokens <? 2)%nat eqn:Hlen; [apply raise_error1_fuel |].
  apply bind_fuel; [apply list_index_fuel |]. intros t _.
  pose proof (parse1_fuel_enough (Pyson.parse_fuel tokens)) as (_ & Ho & Ha).
  unfold Pyson.parse_object, Pyson.parse_array.
  destruct (Pyson.type t); try apply raise_error1_fuel.
  - apply bind_fuel; [| intros [o j] _; discriminate].
    apply Ho. unfold Pyson.parse_fuel, Pyson.length. lia.
  - apply bind_fuel; [| intros [a j] _; discriminate].
    apply Ha. unfold Pyson.parse_fuel, Pyson.length. lia.
Qed.

End ParserFacts1.

(** X12: the parser of the second variant ([pyson2.py], where [parse]
    starts with the cursor at 0 and [parse_object] and [parse_array] step
    over the opening token themselves) does on every token list what the
    parser of the first variant does: both raise, or both return the same
    value. *)
Theorem X12_parser2_is_parser1 (tokens : list Pyson.Token) :
  (raised (Pyson2.parse (map same_token tokens)) /\ raised (Pyson.parse tokens)) \/
  (exists v, Pyson2.parse (map same_token tokens) = Ok v /\ Pyson.parse tokens = Ok v).
Proof.
  pose proof (agree_parse2 tokens) as H. pose proof (parse1_total tokens) as Ht.
  destruct (Pyson2.parse (map same_token tokens)) as [v2 | e2 |],
           (Pyson.parse tokens) as [v1 | e1 |]; simpl in H; try contradiction.
  - right. exists v2. subst. auto.
  - left. split; eexists; reflexivity.
Qed.

(** ** The second variant: its lexer *)

Lemma agree_scan_number2 (json : string) : forall fuel i,
  agree eq (Pyson2.scan_number fuel json i) (Pyson.scan_number fuel json i).
Proof.
  induction fuel as [| fuel IH]; intros i; simpl; [exact I |].
  apply agree_bind with (R := eq); [apply agree_str_index |].
  intros c ? <-. destruct (char_in c NUMERIC); [apply IH | reflexivity].
Qed.

(** The loop of [string] with the two functions of [lex_string_matchers]
    is the string scan of the first variant. *)
Lemma agree_string_loop (json : string) (i : nat) : forall fuel idx,
  agree (fun r2 r1 => r2 = (Pyson2.mkToken Pyson2.STRING (Some (fst r1)), snd r1))
        (Pyson2.string_loop fuel i json Pyson2.lex_string_matchers idx)
        (Pyson.scan_string fuel json i idx).
Proof.
  induction fuel as [| fuel IH]; intros idx; simpl; [exact I |].
  apply agree_bind with (R := eq); [apply agree_str_index |].
  intros v ? <-.
  destruct (Ascii.eqb v dquote); [reflexivity |].
  destruct (Ascii.eqb v backslash); [| apply IH].
  unfold Pyson2.string_escaping.
  unfold str_index. destruct (String.get (idx + 1) json) as [n |]; simpl; [| exact I].
  destruct (char_in n _); [apply IH |].
  destruct (Ascii.eqb n "u"); exact I.
Qed.

Lemma not_in_chars (c : ascii) (chars : string) :
  char_in c chars = false ->
  forall x, In x (list_ascii_of_string chars) -> Ascii.eqb c x = false.
Proof.
  unfold char_in. intros H x Hx.
  destruct (Ascii.eqb c x) eqn:Hcx; [| reflexivity].
  rewrite <- H. symmetry. apply existsb_exists. exists x. auto.
Qed.

(** Where the character is none of [.], [e], [E] and [+], the step of the
    second lexer is that of the first. *)
Lemma agree_lex_step2 (json : string) (i : nat) :
  (forall c, String.get i json = Some c -> char_in c ".eE+" = false) ->
  agree (fun r2 r1 => r2 = (option_map same_token (fst r1), snd r1))
        (Pyson2.lex_step Pyson2.lex_matchers Pyson2.lex_string_matchers json i)
        (Pyson.lex_step json i).
Proof.
  intros Hc. unfold Pyson2.lex_step, Pyson.lex_step, str_index.
  destruct (String.get i json) as [c |] eqn:Hget; cbn [bind]; [| exact I].
  specialize (Hc c eq_refl).
  pose proof (not_in_chars c ".eE+" Hc) as Hne. simpl in Hne.
  pose proof (Hne "."%char ltac:(auto)) as Hdot.
  pose proof (Hne "e"%char ltac:(auto)) as He.
  pose proof (Hne "E"%char ltac:(auto)) as HE.
  pose proof (Hne "+"%char ltac:(auto)) as Hplus.
  clear Hne Hc.
  assert (Hnumber :
    agree (fun r2 r1 => r2 = (option_map same_token (fst r1), snd r1))
      (' (token, i0) <- Pyson2.number i json Pyson2.lex_string_matchers ;;
       Ok (Some token, i0))
      (i0 <- Pyson.scan_number (S (String.length json)) json i ;;
       Ok (Some (Pyson.mkToken NUMBER (Some (str_slice json i i0))), i0))).
  { unfold Pyson2.number.
    pose proof (agree_scan_number2 json (S (String.length json)) i) as Hs.
    destruct (Pyson2.scan_number (S (String.length json)) json i) as [j2 | e2 |],
             (Pyson.scan_number (S (String.length json)) json i) as [j1 | e1 |];
      simpl in Hs |- *; try contradiction; try exact I.
    subst. reflexivity. }
  unfold Pyson2.lex_matchers. cbn [Pyson2.getitem].
  repeat match goal with
    | |- context [if Ascii.eqb c ?x then _ else _] =>
        let Hx := fresh "Hx" in destruct (Ascii.eqb c x) eqn:Hx
    end;
    try (match goal with
         | Hx : Ascii.eqb c _ = true |- _ => apply Ascii.eqb_eq in Hx; subst c
         end; simpl; first [exact Hnumber | reflexivity | exact I]).
  - unfold Pyson2.true_. destruct (negb _); simpl; [exact I | reflexivity].
  - unfold Pyson2.false_. destruct (negb _); simpl; [exact I | reflexivity].
  - unfold Pyson2.null. destruct (negb _); simpl; [exact I | reflexivity].
  - unfold Pyson2.string_.
    pose proof (agree_string_loop json i (S (String.length json)) (i + 1)) as Hs.
    destruct (Pyson2.string_loop _ _ _ _ _) as [[t2 j2] | e2 |],
             (Pyson.scan_string _ _ _ _) as [[s1 j1] | e1 |];
      simpl in Hs |- *; try contradiction; try exact I.
    injection Hs as -> ->. reflexivity.
  - assert (Hnum : char_in c NUMERIC = false).
    { unfold char_in, NUMERIC. simpl.
      repeat match goal with
        | Hx : Ascii.eqb c _ = false |- _ => rewrite Hx; clear Hx
        end. reflexivity. }
    rewrite Hnum. reflexivity.
Qed.

Lemma lex_loop1_extends (json : string) : forall fuel acc i tokens,
  Pyson.lex_loop fuel json acc i = Ok tokens -> exists rest, tokens = acc ++ rest.
Proof.
  induction fuel as [| fuel IH]; intros acc i tokens H; [discriminate |].
  simpl in H. destruct (i <? String.length json)%nat.
  2:{ injection H as <-. exists []. rewrite app_nil_r. reflexivity. }
  apply bind_ok_inv in H. destruct H as ([tok j] & _ & H).
  destruct tok as [t |]; apply IH in H; [| exact H].
  destruct H as [rest ->]. exists (t :: rest). rewrite <- app_assoc. reflexivity.
Qed.

Lemma substring_first (s : string) : forall n m c,
  String.get n s = Some c -> 0 < m ->
  exists r, String.substring n m s = String c r.
Proof.
  induction s as [| a s IH]; intros n m c H Hm; [discriminate |].
  destruct n as [| n]; simpl in H.
  - injection H as ->. destruct m as [| m]; [lia |].
    exists (String.substring 0 m s). reflexivity.
  - apply (IH n m c H Hm).
Qed.

(** On one of the characters [.], [e], [E] and [+] the first lexer starts
    a number, whose text starts with that character. *)
Lemma lex_step1_odd_number (json : string) (i i' : nat) (c : ascii)
      (tok : option Pyson.Token) :
  String.get i json = Some c -> char_in c ".eE+" = true ->
  Pyson.lex_step json i = Ok (tok, i') ->
  exists s, tok = Some (Pyson.mkToken NUMBER (Some (String c s))).
Proof.
  intros Hget Hc H.
  assert (Hnum : char_in c NUMERIC = true).
  { unfold char_in in Hc |- *. simpl in Hc |- *.
    repeat (apply orb_prop in Hc; destruct Hc as [Hc | Hc]);
      try discriminate Hc; apply Ascii.eqb_eq in Hc; subst c; reflexivity. }
  destruct (numeric_dispatch c Hnum) as (H1 & H2 & H3 & H4 & H5 & H6 & H7 & H8 & H9 & H10).
  unfold Pyson.lex_step, str_index in H. rewrite Hget in H. cbn [bind] in H.
  rewrite H1, H2, H3, H4, H5, H6, H7, H8, H9, H10, Hnum in H.
  apply bind_ok_inv in H. destruct H as (j & Hs & H). injection H as <- <-.
  pose proof (agree_scan_number json (S (String.length json)) i) as Ha.
  rewrite Hs in Ha.
  destruct (Pyson3.scan_number (S (String.length json)) json i) as [j3 | |] eqn:Hs3;
    simpl in Ha; try contradiction. subst j3.
  apply scan_number_Ok in Hs3. destruct Hs3 as (Hle & _ & d & Hd & Hdn).
  assert (i <> j) by (intros ->; rewrite Hget in Hd; injection Hd as ->; congruence).
  destruct (substring_first json i (j - i) c Hget ltac:(lia)) as [s Hsub].
  exists s. unfold str_slice. rewrite Hsub. reflexivity.
Qed.

Lemma lex_loop2_of_lex_loop1 (json : string) : forall fuel acc i tokens,
  Pyson.lex_loop fuel json acc i = Ok tokens ->
  Forall plain_number tokens ->
  Pyson2.lex_loop fuel json (map same_token acc) i = Ok (map same_token tokens).
Proof.
  induction fuel as [| fuel IH]; intros acc i tokens H Hplain; [discriminate |].
  simpl in H |- *. destruct (i <? String.length json)%nat eqn:Hi.
  2:{ injection H as <-. reflexivity. }
  apply Nat.ltb_lt in Hi. destruct (get_lt_Some json i Hi) as [c Hget].
  apply bind_ok_inv in H. destruct H as ([tok j] & Hstep & H).
  assert (Hc : char_in c ".eE+" = false).
  { destruct (char_in c ".eE+") eqn:Hc; [exfalso | reflexivity].
    destruct (lex_step1_odd_number json i j c tok Hget Hc Hstep) as [s ->].
    destruct (lex_loop1_extends _ _ _ _ _ H) as [rest ->].
    rewrite Forall_forall in Hplain.
    destruct (Hplain (Pyson.mkToken NUMBER (Some (String c s)))) as (c' & s' & Hv & Hd).
    - apply in_or_app. left. apply in_or_app. right. simpl. auto.
    - reflexivity.
    - simpl in Hv. injection Hv as <- <-.
      unfold char_in in Hc, Hd. simpl in Hc, Hd.
      repeat (apply orb_prop in Hc; destruct Hc as [Hc | Hc]);
        try discriminate Hc; apply Ascii.eqb_eq in Hc; subst c; discriminate Hd. }
  pose proof (agree_lex_step2 json i) as Hagree.
  rewrite Hstep in Hagree.
  destruct (Pyson2.lex_step Pyson2.lex_matchers Pyson2.lex_string_matchers json i)
    as [[tok2 j2] | e2 |]; simpl in Hagree.
  - rewrite Hagree; [| intros c' Hc'; rewrite Hget in Hc'; injection Hc' as <-; exact Hc].
    simpl. destruct tok as [t |]; simpl.
    + replace (map same_token acc ++ [same_token t])
        with (map same_token (acc ++ [t])) by (rewrite map_app; reflexivity).
      apply IH; assumption.
    + apply IH; assumption.
  - exfalso. apply Hagree.
    intros c' Hc'. rewrite Hget in Hc'. injection Hc' as <-. exact Hc.
  - exfalso. apply Hagree.
    intros c' Hc'. rewrite Hget in Hc'. injection Hc' as <-. exact Hc.
Qed.

(** X13: the second variant decodes like the first every text in which
    the first lexer finds only numbers that start with a digit or a minus
    sign: its lexer returns the same tokens, and [loads] raises in both or
    returns the same value in both.  The lexers differ on the other
    numbers: the second variant starts no number on [.], [e], [E] and [+]
    and skips these characters, so that ['[.5]'] is the integer 5 for it
    and the float 0.5 for the first variant. *)
Theorem X13_variant2_is_variant1 :
  (forall json tokens,
      Pyson.lex json = Ok tokens -> Forall plain_number tokens ->
      Pyson2.lex json = Ok (map same_token tokens) /\
      ((raised (Pyson2.loads json) /\ raised (Pyson.loads json)) \/
       (exists v, Pyson2.loads json = Ok v /\ Pyson.loads json = Ok v))) /\
  Pyson2.loads "[.5]" = Ok (VArray [VInt 5]) /\
  Pyson.loads "[.5]" = Ok (VArray [VFloat (binary_normalize prec emax 1 (-1) false)]).
Proof.
  split; [| split; vm_compute; reflexivity].
  intros json tokens Hlex Hplain.
  assert (Hlex2 : Pyson2.lex json = Ok (map same_token tokens)).
  { unfold Pyson2.lex. unfold Pyson.lex in Hlex.
    apply (lex_loop2_of_lex_loop1 json _ [] 0 tokens Hlex Hplain). }
  split; [exact Hlex2 |].
  unfold Pyson2.loads, Pyson.loads. rewrite Hlex, Hlex2. cbn [bind].
  pose proof (agree_parse2 tokens) as H. pose proof (parse1_total tokens) as Ht.
  destruct (Pyson2.parse (map same_token tokens)) as [v2 | e2 |],
           (Pyson.parse tokens) as [v1 | e1 |]; simpl in H; try contradiction.
  - right. exists v2. subst. auto.
  - left. split; eexists; reflexivity.
Qed.

Lemma X13_variant2_is_variant1_witness :
  Pyson2.lex "[-1.5e+2, 7]"
    = Ok (map same_token
            [Pyson.mkToken L_BRACKET None; Pyson.mkToken NUMBER (Some "-1.5e+2");
             Pyson.mkToken COMMA None; Pyson.mkToken NUMBER (Some "7");
             Pyson.mkToken R_BRACKET None]) /\
  ((raised (Pyson2.loads "[-1.5e+2, 7]") /\ raised (Pyson.loads "[-1.5e+2, 7]")) \/
   (exists v, Pyson2.loads "[-1.5e+2, 7]" = Ok v /\ Pyson.loads "[-1.5e+2, 7]" = Ok v)).
Proof.
  refine (proj1 X13_variant2_is_variant1 "[-1.5e+2, 7]"
            [Pyson.mkToken L_BRACKET None; Pyson.mkToken NUMBER (Some "-1.5e+2");
             Pyson.mkToken COMMA None; Pyson.mkToken NUMBER (Some "7");
             Pyson.mkToken R_BRACKET None] _ _); [reflexivity |].
  repeat constructor; intros Hty; try discriminate Hty.
  - exists "-"%char, "1.5e+2". split; reflexivity.
  - exists "7"%char, EmptyString. split; reflexivity.
Defined.

Lemma string_loop_not_empty (json : string) (matcher : Pyson2.Matcher Pyson2.StringFunc)
      (i : nat) : forall fuel idx t j,
  Pyson2.string_loop fuel i json matcher idx = Ok (t, j) ->
  Pyson2.type t <> Pyson2.EMPTY.
Proof.
  induction fuel as [| fuel IH]; intros idx t j H; [discriminate |].
  simpl in H. apply bind_ok_inv in H. destruct H as (c & _ & H).
  destruct (Pyson2.getitem matcher c) as [func |]; [| apply (IH _ _ _ H)].
  apply bind_ok_inv in H. destruct H as ([token idx'] & _ & H).
  destruct (Pyson2.TokenType_eqb (Pyson2.type token) Pyson2.EMPTY) eqn:He; simpl in H.
  - apply (IH _ _ _ H).
  - injection H as <- <-. intros Heq. rewrite Heq in He. discriminate He.
Qed.

Lemma lex_step2_not_empty (json : string) (i j : nat) (t : Pyson2.Token) :
  Pyson2.lex_step Pyson2.lex_matchers Pyson2.lex_string_matchers json i = Ok (Some t, j) ->
  Pyson2.type t <> Pyson2.EMPTY.
Proof.
  unfold Pyson2.lex_step. intros H.
  apply bind_ok_inv in H. destruct H as (c & _ & H).
  unfold Pyson2.lex_matchers in H. cbn [Pyson2.getitem] in H.
  repeat match type of H with
    | context [if Ascii.eqb c ?x then _ else _] => destruct (Ascii.eqb c x)
    end;
    try discriminate H;
    try (apply bind_ok_inv in H; destruct H as ([token j'] & Hf & H);
         injection H as <- <-).
  1-6: injection Hf as <- <-; discriminate.
  - unfold Pyson2.true_ in Hf. destruct (negb _); [discriminate |].
    injection Hf as <- <-; discriminate.
  - unfold Pyson2.false_ in Hf. destruct (negb _); [discriminate |].
    injection Hf as <- <-; discriminate.
  - unfold Pyson2.null in Hf. destruct (negb _); [discriminate |].
    injection Hf as <- <-; discriminate.
  - unfold Pyson2.string_ in Hf. apply (string_loop_not_empty _ _ _ _ _ _ _ Hf).
  - unfold Pyson2.number in Hf. apply bind_ok_inv in Hf. destruct Hf as (k & _ & Hf).
    injection Hf as <- <-; discriminate.
  - unfold Pyson2.number in Hf. apply bind_ok_inv in Hf. destruct Hf as (k & _ & Hf).
    injection Hf as <- <-; discriminate.
  - unfold Pyson2.number in Hf. apply bind_ok_inv in Hf. destruct Hf as (k & _ & Hf).
    injection Hf as <- <-; discriminate.
  - unfold Pyson2.number in Hf. apply bind_ok_inv in Hf. destruct Hf as (k & _ & Hf).
    injection Hf as <- <-; discriminate.
  - unfold Pyson2.number in Hf. apply bind_ok_inv in Hf. destruct Hf as (k & _ & Hf).
    injection Hf as <- <-; discriminate.
  - unfold Pyson2.number in Hf. apply bind_ok_inv in Hf. destruct Hf as (k & _ & Hf).
    injection Hf as <- <-; discriminate.
  - unfold Pyson2.number in Hf. apply bind_ok_inv in Hf. destruct Hf as (k & _ & Hf).
    injection Hf as <- <-; discriminate.
  - unfold Pyson2.number in Hf. apply bind_ok_inv in Hf. destruct Hf as (k & _ & Hf).
    injection Hf as <- <-; discriminate.
  - unfold Pyson2.number in Hf. apply bind_ok_inv in Hf. destruct Hf as (k & _ & Hf).
    injection Hf as <- <-; discriminate.
  - unfold Pyson2.number in Hf. apply bind_ok_inv in Hf. destruct Hf as (k & _ & Hf).
    injection Hf as <- <-; discriminate.
  - unfold Pyson2.number in Hf. apply bind_ok_inv in Hf. destruct Hf as (k & _ & Hf).
    injection Hf as <- <-; discriminate.
Qed.

Lemma lex_loop2_not_empty (json : string) : forall fuel acc i tokens,
  Forall (fun t => Pyson2.type t <> Pyson2.EMPTY) acc ->
  Pyson2.lex_loop fuel json acc i = Ok tokens ->
  Forall (fun t => Pyson2.type t <> Pyson2.EMPTY) tokens.
Proof.
  induction fuel as [| fuel IH]; intros acc i tokens Hacc H; [discriminate |].
  simpl in H. destruct (i <? String.length json)%nat; [| injection H as <-; exact Hacc].
  apply bind_ok_inv in H. destruct H as ([tok j] & Hs & H).
  destruct tok as [t |]; apply IH in H; auto.
  apply Forall_app. split; [exact Hacc |].
  constructor; [apply (lex_step2_not_empty _ _ _ _ Hs) | constructor].
Qed.

(** X14: the kind [EMPTY], with which the functions of the string scanner
    of the second variant tell [string] to go on, never reaches the token
    list: no token that [lex] returns has it. *)
Theorem X14_no_empty_token (json : string) (tokens : list Pyson2.Token) (t : Pyson2.Token) :
  Pyson2.lex json = Ok tokens -> In t tokens -> Pyson2.type t <> Pyson2.EMPTY.
Proof.
  intros H Hin. unfold Pyson2.lex in H.
  apply lex_loop2_not_empty in H; [| constructor].
  rewrite Forall_forall in H. apply H, Hin.
Qed.

Lemma X14_no_empty_token_witness :
  Pyson2.type (Pyson2.mkToken Pyson2.STRING (Some (dq "'a'"))) <> Pyson2.EMPTY.
Proof.
  refine (X14_no_empty_token (dq "['a']")
            [Pyson2.mkToken Pyson2.L_BRACKET None;
             Pyson2.mkToken Pyson2.STRING (Some (dq "'a'"));
             Pyson2.mkToken Pyson2.R_BRACKET None]
            (Pyson2.mkToken Pyson2.STRING (Some (dq "'a'"))) _ _);
    [reflexivity | simpl; auto].
Defined.

(** ** The call stack

    The functions of [Stack] do what those on an unbounded stack do, or
    raise [RecursionError]. *)

#[global] Arguments Pyson3.Stack._error : simpl never.
#[global] Arguments Pyson.Stack._error : simpl never.

Lemma refines_refl {T A} (r : result T A) : refines r r.
Proof. right. reflexivity. Qed.

Lemma refines_bind {T A B} (c c' : result T A) (k k' : A -> result T B) :
  refines c c' ->
  (forall a, c' = Ok a -> refines (k a) (k' a)) ->
  refines (bind c k) (bind c' k').
Proof.
  intros [-> | ->] Hk; [left; reflexivity |].
  destruct c' as [a | e |]; simpl; [apply Hk; reflexivity | right; reflexivity ..].
Qed.

Lemma bind_assoc {T A B C} (c : result T A) (k : A -> result T B) (h : B -> result T C) :
  bind (bind c k) h = bind c (fun a => bind (k a) h).
Proof. destruct c; reflexivity. Qed.

Lemma refines_nested_calls {T A} (n depth : nat) (k : unit -> result T A) (r : result T A) :
  refines (k tt) r -> refines (bind (nested_calls n depth) k) r.
Proof.
  unfold nested_calls. destruct (depth <? n)%nat; [left; reflexivity | exact (fun H => H)].
Qed.

Section Refines3.

Variable token_init token_repr : nat.

Lemma refines_lex_loop3 (depth : nat) (json : string) : forall fuel tokens i,
  refines (Pyson3.Stack.lex_loop token_init depth fuel json tokens i)
          (Pyson3.lex_loop fuel json tokens i).
Proof.
  induction fuel as [| fuel IH]; intros tokens i; [apply refines_refl |].
  simpl. destruct (i <? String.length json)%nat; [| apply refines_refl].
  apply refines_bind; [apply refines_refl |].
  intros [[t |] j] _; [| apply IH].
  apply refines_nested_calls. apply IH.
Qed.

Lemma refines_lex3 (depth : nat) (json : string) :
  refines (Pyson3.Stack.lex token_init depth json) (Pyson3.lex json).
Proof.
  destruct depth as [| depth]; [left; reflexivity |]. apply refines_lex_loop3.
Qed.

Variable tokens : list Pyson3.Token.
Variable json : string.

Lemma refines_error3 {A} (depth : nat) (i : option nat) (msg : string) :
  refines (m <- Pyson3.Stack._error token_repr tokens depth i msg ;;
           @Raise Pyson3.Token A (ValueError m))
          (m <- Pyson3._error tokens i msg ;; Raise (ValueError m)).
Proof.
  apply refines_bind; [| intros; apply refines_refl].
  destruct depth as [| depth]; [left; reflexivity |].
  unfold Pyson3.Stack._error, Pyson3._error.
  destruct i as [i |]; [| apply refines_refl].
  unfold Pyson3.Stack.format_tokens at 1.
  destruct (list_slice tokens (Z.of_nat i - 2) (Z.of_nat i)) eqn:Hs.
  - cbn [bind]. apply refines_bind; [apply refines_refl |].
    intros value _. apply refines_nested_calls. apply refines_refl.
  - apply refines_nested_calls. apply refines_bind; [apply refines_refl |].
    intros value _. apply refines_nested_calls. apply refines_refl.
Qed.

Lemma refines_get_string3 (depth : nat) (t : Pyson3.Token) :
  refines (Pyson3.Stack.get_string json depth t) (Ok (Pyson3.get_string json t)).
Proof. destruct depth; [left | right]; reflexivity. Qed.

Lemma refines_normalized_string3 (depth : nat) (t : Pyson3.Token) :
  refines (Pyson3.Stack.normalized_string json depth t)
          (Ok (Pyson3.normalized_string json t)).
Proof.
  destruct depth as [| depth]; [left; reflexivity |].
  unfold Pyson3.Stack.normalized_string.
  destruct (refines_get_string3 depth t) as [-> | ->]; [left | right]; reflexivity.
Qed.


Lemma index_lt (i : nat) (t : Pyson3.Token) :
  @list_index Pyson3.Token _ tokens i = Ok t -> i < Pyson3.length tokens.
Proof.
  intros H. apply list_index_Ok in H. apply nth_error_Some. congruence.
Qed.

Lemma parse_value_progress3 (fuel i : nat) (v : Value) (j : nat) :
  Pyson3.parse_value tokens json fuel i = Ok (v, j) -> i < j.
Proof.
  unfold Pyson3.parse_value. intros H.
  apply bind_ok_inv in H. destruct H as ([v0 j0] & Hv & Hc).
  apply (proj1 (parse_progress tokens json fuel)) in Hv.
  apply consume_comma_Ok in Hc. destruct Hc as (_ & t & _ & [[_ ->] | [_ ->]]); lia.
Qed.

Section Loops3.

Variable depth : nat.
Variable parse_value : nat -> Pyson3.res (Value * nat).
Hypothesis refines_parse_value : forall fuel i,
  2 * (Pyson3.length tokens - i) + 1 <= fuel ->
  refines (parse_value i) (Pyson3.parse_value tokens json fuel i).

Lemma refines_object_loop3 : forall g fuel result known i,
  Pyson3.length tokens - i < g ->
  2 * (Pyson3.length tokens - i) + 2 <= fuel ->
  refines (Pyson3.Stack.parse_object_loop token_repr tokens json depth parse_value
             g result known i)
          (Pyson3.parse_object_loop tokens json fuel result known i).
Proof.
  induction g as [| g IH]; intros fuel result known i Hg Hf; [lia |].
  destruct fuel as [| fuel]; [lia |]. simpl.
  destruct (i <? Pyson3.length tokens)%nat eqn:Hi; [| apply refines_refl].
  apply Nat.ltb_lt in Hi.
  apply refines_bind; [apply refines_refl |]. intros t _.
  destruct (Pyson3.type t); try apply refines_refl; try apply refines_error3.
  destruct (refines_normalized_string3 depth t) as [-> | ->]; [left; reflexivity |].
  cbn [bind].
  destruct (String.eqb _ _); [apply refines_refl |].
  destruct (set_mem _ _); [apply refines_error3 |].
  apply refines_bind; [apply refines_refl |]. intros c _.
  destruct (negb _); [apply refines_error3 |].
  rewrite <- bind_assoc.
  change (r <- Pyson3.parse_value_match tokens json fuel (i + 1 + 1) ;;
          Pyson3.consume_comma tokens r)
    with (Pyson3.parse_value tokens json fuel (i + 1 + 1)).
  apply refines_bind; [apply refines_parse_value; lia |].
  intros [v j] Hv. apply parse_value_progress3 in Hv.
  apply IH; lia.
Qed.

Lemma refines_array_loop3 : forall g fuel result i,
  Pyson3.length tokens - i < g ->
  2 * (Pyson3.length tokens - i) + 2 <= fuel ->
  refines (Pyson3.Stack.parse_array_loop tokens parse_value g result i)
          (Pyson3.parse_array_loop tokens json fuel result i).
Proof.
  induction g as [| g IH]; intros fuel result i Hg Hf; [lia |].
  destruct fuel as [| fuel]; [lia |]. simpl.
  destruct (i <? Pyson3.length tokens)%nat eqn:Hi; [| apply refines_refl].
  apply Nat.ltb_lt in Hi.
  apply refines_bind; [apply refines_refl |]. intros t _.
  assert (Hstep :
    refines ('(value, i0) <- parse_value i ;;
             Pyson3.Stack.parse_array_loop tokens parse_value g (result ++ [value]) i0)
            (r <- Pyson3.parse_value_match tokens json fuel i ;;
             '(value, i0) <- Pyson3.consume_comma tokens r ;;
             Pyson3.parse_array_loop tokens json fuel (result ++ [value]) i0)).
  { rewrite <- bind_assoc.
    change (r <- Pyson3.parse_value_match tokens json fuel i ;;
            Pyson3.consume_comma tokens r)
      with (Pyson3.parse_value tokens json fuel i).
    apply refines_bind; [apply refines_parse_value; lia |].
    intros [v j] Hv. apply parse_value_progress3 in Hv.
    apply IH; lia. }
  destruct (Pyson3.type t); try exact Hstep. apply refines_refl.
Qed.

End Loops3.

Lemma refines_parser3 : forall depth,
  (forall fuel i, 2 * (Pyson3.length tokens - i) + 1 <= fuel ->
     refines (Pyson3.Stack.parse_value token_repr tokens json depth i)
             (Pyson3.parse_value tokens json fuel i)) /\
  (forall fuel i, 2 * (Pyson3.length tokens - i) + 2 <= fuel ->
     refines (Pyson3.Stack.parse_object token_repr tokens json depth i)
             (Pyson3.parse_object tokens json fuel i)) /\
  (forall fuel i, 2 * (Pyson3.length tokens - i) + 2 <= fuel ->
     refines (Pyson3.Stack.parse_array token_repr tokens json depth i)
             (Pyson3.parse_array tokens json fuel i)).
Proof.
  induction depth as [| depth (IHv & IHo & IHa)];
    [repeat split; intros; left; reflexivity |].
  repeat split.
  - intros fuel i Hf. destruct fuel as [| fuel]; [lia |].
    unfold Pyson3.parse_value. simpl. rewrite bind_assoc.
    apply refines_bind; [apply refines_refl |]. intros t Ht. apply index_lt in Ht.
    apply refines_bind; [| intros; apply refines_refl].
    destruct (Pyson3.type t); try apply refines_refl; try apply refines_error3.
    + apply refines_bind; [apply IHo; lia | intros [o j] _; apply refines_refl].
    + apply refines_bind; [apply IHa; lia | intros [a j] _; apply refines_refl].
    + destruct (refines_normalized_string3 depth t) as [-> | ->];
        [left | right]; reflexivity.
    + destruct (refines_get_string3 depth t) as [-> | ->]; [left; reflexivity |].
      apply refines_refl.
    + destruct (refines_get_string3 depth t) as [-> | ->]; [left; reflexivity |].
      apply refines_refl.
  - intros fuel i Hf.
    change (Pyson3.Stack.parse_object token_repr tokens json (S depth) i)
      with (Pyson3.Stack.parse_object_loop token_repr tokens json depth
              (Pyson3.Stack.parse_value token_repr tokens json depth)
              (Pyson3.Stack.loop_fuel tokens) [] [] i).
    unfold Pyson3.parse_object.
    apply refines_object_loop3; [exact IHv | unfold Pyson3.Stack.loop_fuel; lia | exact Hf].
  - intros fuel i Hf.
    change (Pyson3.Stack.parse_array token_repr tokens json (S depth) i)
      with (Pyson3.Stack.parse_array_loop tokens
              (Pyson3.Stack.parse_value token_repr tokens json depth)
              (Pyson3.Stack.loop_fuel tokens) [] i).
    unfold Pyson3.parse_array.
    apply refines_array_loop3; [exact IHv | unfold Pyson3.Stack.loop_fuel; lia | exact Hf].
Qed.

End Refines3.

Lemma refines_loads3 (token_init token_repr depth : nat) (json : string) :
  refines (Pyson3.Stack.loads token_init token_repr depth json) (Pyson3.loads json).
Proof.
  destruct depth as [| [| depth]]; [left; reflexivity .. |].
  unfold Pyson3.Stack.loads, Pyson3.Stack.parse, Pyson3.loads, Pyson3.parse.
  apply refines_bind; [apply refines_lex3 |]. intros tokens _.
  destruct (List.length tokens <? 2)%nat eqn:Hlen; [apply refines_error3 |].
  apply refines_bind; [apply refines_refl |]. intros t _.
  destruct (refines_parser3 token_repr tokens json depth) as (_ & Ho & Ha).
  destruct (Pyson3.type t); try apply refines_error3.
  - apply refines_bind; [| intros [o j] _; apply refines_refl].
    apply Ho. unfold Pyson3.parse_fuel, Pyson3.length. lia.
  - apply refines_bind; [| intros [a j] _; apply refines_refl].
    apply Ha. unfold Pyson3.parse_fuel, Pyson3.length. lia.
Qed.

(** On a bounded stack too the loops of the parser end. *)
Lemma stack_loads_total3 (token_init token_repr depth : nat) (json : string) :
  Pyson3.Stack.loads token_init token_repr depth json <> OutOfFuel.
Proof.
  destruct (refines_loads3 token_init token_repr depth json) as [-> | ->];
    [discriminate | apply loads_total].
Qed.

Section Refines1.

Variable token_init token_repr : nat.

Lemma refines_lex_loop1 (depth : nat) (json : string) : forall fuel tokens i,
  refines (Pyson.Stack.lex_loop token_init depth fuel json tokens i)
          (Pyson.lex_loop fuel json tokens i).
Proof.
  induction fuel as [| fuel IH]; intros tokens i; [apply refines_refl |].
  simpl. destruct (i <? String.length json)%nat; [| apply refines_refl].
  apply refines_bind; [apply refines_refl |].
  intros [[t |] j] _; [| apply IH].
  apply refines_nested_calls. apply IH.
Qed.

Lemma refines_lex1 (depth : nat) (json : string) :
  refines (Pyson.Stack.lex token_init depth json) (Pyson.lex json).
Proof.
  destruct depth as [| depth]; [left; reflexivity |]. apply refines_lex_loop1.
Qed.

Variable tokens : list Pyson.Token.

Lemma refines_error1 {A} (depth : nat) (i : option nat) (msg : string) :
  refines (m <- Pyson.Stack._error token_repr tokens depth i msg ;;
           @Raise Pyson.Token A (ValueError m))
          (m <- Pyson._error tokens i msg ;; Raise (ValueError m)).
Proof.
  apply refines_bind; [| intros; apply refines_refl].
  destruct depth as [| depth]; [left; reflexivity |].
  unfold Pyson.Stack._error, Pyson._error.
  destruct i as [i |]; [| apply refines_refl].
  unfold Pyson.Stack.format_tokens at 1.
  destruct (list_slice tokens (Z.of_nat i - 2) (Z.of_nat i)) eqn:Hs.
  - cbn [bind]. apply refines_bind; [apply refines_refl |].
    intros value _. apply refines_nested_calls. apply refines_refl.
  - apply refines_nested_calls. apply refines_bind; [apply refines_refl |].
    intros value _. apply refines_nested_calls. apply refines_refl.
Qed.

Lemma index1_lt (i : nat) (t : Pyson.Token) :
  @list_index Pyson.Token _ tokens i = Ok t -> i < Pyson.length tokens.
Proof.
  unfold list_index. destruct (nth_error tokens i) eqn:H; [| discriminate].
  intros _. apply nth_error_Some. congruence.
Qed.

Lemma parse_value_progress1 (fuel i : nat) (v : Value) (j : nat) :
  Pyson.parse_value tokens fuel i = Ok (v, j) -> i < j.
Proof.
  unfold Pyson.parse_value. intros H.
  apply bind_ok_inv in H. destruct H as ([v0 j0] & Hv & Hc).
  apply (proj1 (parse1_progress tokens fuel)) in Hv.
  apply consume_comma1_Ok in Hc. lia.
Qed.

Section Loops1.

Variable depth : nat.
Variable parse_value : nat -> Pyson.res (Value * nat).
Hypothesis refines_parse_value : forall fuel i,
  2 * (Pyson.length tokens - i) + 1 <= fuel ->
  refines (parse_value i) (Pyson.parse_value tokens fuel i).

Lemma refines_object_loop1 : forall g fuel result known i,
  Pyson.length tokens - i < g ->
  2 * (Pyson.length tokens - i) + 2 <= fuel ->
  refines (Pyson.Stack.parse_object_loop token_repr tokens depth parse_value
             g result known i)
          (Pyson.parse_object_loop tokens fuel result known i).
Proof.
  induction g as [| g IH]; intros fuel result known i Hg Hf; [lia |].
  destruct fuel as [| fuel]; [lia |]. simpl.
  destruct (i <? Pyson.length tokens)%nat eqn:Hi; [| apply refines_refl].
  apply Nat.ltb_lt in Hi.
  apply refines_bind; [apply refines_refl |]. intros t _.
  destruct (Pyson.type t); try apply refines_refl; try apply refines_error1.
  apply refines_bind; [apply refines_refl |]. intros key _.
  destruct (set_mem _ _); [apply refines_error1 |].
  apply refines_bind; [apply refines_refl |]. intros c _.
  destruct (negb _); [apply refines_error1 |].
  rewrite <- bind_assoc.
  change (r <- Pyson.parse_value_match tokens fuel (i + 1 + 1) ;;
          Pyson.consume_comma tokens r)
    with (Pyson.parse_value tokens fuel (i + 1 + 1)).
  apply refines_bind; [apply refines_parse_value; lia |].
  intros [v j] Hv. apply parse_value_progress1 in Hv.
  apply IH; lia.
Qed.

Lemma refines_array_loop1 : forall g fuel result i,
  Pyson.length tokens - i < g ->
  2 * (Pyson.length tokens - i) + 2 <= fuel ->
  refines (Pyson.Stack.parse_array_loop tokens parse_value g result i)
          (Pyson.parse_array_loop tokens fuel result i).
Proof.
  induction g as [| g IH]; intros fuel result i Hg Hf; [lia |].
  destruct fuel as [| fuel]; [lia |]. simpl.
  destruct (i <? Pyson.length tokens)%nat eqn:Hi; [| apply refines_refl].
  apply Nat.ltb_lt in Hi.
  apply refines_bind; [apply refines_refl |]. intros t _.
  assert (Hstep :
    refines ('(value, i0) <- parse_value i ;;
             Pyson.Stack.parse_array_loop tokens parse_value g (result ++ [value]) i0)
            (r <- Pyson.parse_value_match tokens fuel i ;;
             '(value, i0) <- Pyson.consume_comma tokens r ;;
             Pyson.parse_array_loop tokens fuel (result ++ [value]) i0)).
  { rewrite <- bind_assoc.
    change (r <- Pyson.parse_value_match tokens fuel i ;;
            Pyson.consume_comma tokens r)
      with (Pyson.parse_value tokens fuel i).
    apply refines_bind; [apply refines_parse_value; lia |].
    intros [v j] Hv. apply parse_value_progress1 in Hv.
    apply IH; lia. }
  destruct (Pyson.type t); try exact Hstep. apply refines_refl.
Qed.

End Loops1.

Lemma refines_parser1 : forall depth,
  (forall fuel i, 2 * (Pyson.length tokens - i) + 1 <= fuel ->
     refines (Pyson.Stack.parse_value token_repr tokens depth i)
             (Pyson.parse_value tokens fuel i)) /\
  (forall fuel i, 2 * (Pyson.length tokens - i) + 2 <= fuel ->
     refines (Pyson.Stack.parse_object token_repr tokens depth i)
             (Pyson.parse_object tokens fuel i)) /\
  (forall fuel i, 2 * (Pyson.length tokens - i) + 2 <= fuel ->
     refines (Pyson.Stack.parse_array token_repr tokens depth i)
             (Pyson.parse_array tokens fuel i)).
Proof.
  induction depth as [| depth (IHv & IHo & IHa)];
    [repeat split; intros; left; reflexivity |].
  repeat split.
  - intros fuel i Hf. destruct fuel as [| fuel]; [lia |].
    unfold Pyson.parse_value. simpl. rewrite bind_assoc.
    apply refines_bind; [apply refines_refl |]. intros t Ht. apply index1_lt in Ht.
    apply refines_bind; [| intros; apply refines_refl].
    destruct (Pyson.type t); try apply refines_refl; try apply refines_error1.
    + apply refines_bind; [apply IHo; lia | intros [o j] _; apply refines_refl].
    + apply refines_bind; [apply IHa; lia | intros [a j] _; apply refines_refl].
  - intros fuel i Hf.
    change (Pyson.Stack.parse_object token_repr tokens (S depth) i)
      with (Pyson.Stack.parse_object_loop token_repr tokens depth
              (Pyson.Stack.parse_value token_repr tokens depth)
              (Pyson.Stack.loop_fuel tokens) [] [] i).
    unfold Pyson.parse_object.
    apply refines_object_loop1; [exact IHv | unfold Pyson.Stack.loop_fuel; lia | exact Hf].
  - intros fuel i Hf.
    change (Pyson.Stack.parse_array token_repr tokens (S depth) i)
      with (Pyson.Stack.parse_array_loop tokens
              (Pyson.Stack.parse_value token_repr tokens depth)
              (Pyson.Stack.loop_fuel tokens) [] i).
    unfold Pyson.parse_array.
    apply refines_array_loop1; [exact IHv | unfold Pyson.Stack.loop_fuel; lia | exact Hf].
Qed.

Lemma refines_parse1 (depth : nat) :
  refines (Pyson.Stack.parse token_repr tokens depth) (Pyson.parse tokens).
Proof.
  destruct depth as [| depth]; [left; reflexivity |].
  unfold Pyson.Stack.parse, Pyson.parse.
  destruct (List.length tokens <? 2)%nat eqn:Hlen; [apply refines_error1 |].
  apply refines_bind; [apply refines_refl |]. intros t _.
  destruct (refines_parser1 depth) as (_ & Ho & Ha).
  destruct (Pyson.type t); try apply refines_error1.
  - apply refines_bind; [| intros [o j] _; apply refines_refl].
    apply Ho. unfold Pyson.parse_fuel, Pyson.length. lia.
  - apply refines_bind; [| intros [a j] _; apply refines_refl].
    apply Ha. unfold Pyson.parse_fuel, Pyson.length. lia.
Qed.

End Refines1.

Lemma refines_loads1 (token_init token_repr depth : nat) (json : string) :
  refines (Pyson.Stack.loads token_init token_repr depth json) (Pyson.loads json).
Proof.
  destruct depth as [| depth]; [left; reflexivity |].
  unfold Pyson.Stack.loads, Pyson.loads.
  apply refines_bind; [apply refines_lex1 |]. intros tokens _.
  apply refines_parse1.
Qed.

(** *** A stack that is deep enough *)

Lemma bind_no_recursion {T A B} (c : result T A) (k : A -> result T B) :
  c <> Raise RecursionError ->
  (forall a, c = Ok a -> k a <> Raise RecursionError) ->
  bind c k <> Raise RecursionError.
Proof.
  destruct c as [a | e |]; simpl; intros Hc Hk.
  - apply Hk; reflexivity.
  - intros H. apply Hc. congruence.
  - discriminate.
Qed.

Lemma nested_calls_Ok {T} (n depth : nat) : n <= depth -> @nested_calls T n depth = Ok tt.
Proof.
  intros H. unfold nested_calls. apply Nat.ltb_ge in H. rewrite H. reflexivity.
Qed.

Lemma list_index_no_recursion {T A} (l : list A) (i : nat) :
  @list_index T A l i <> Raise RecursionError.
Proof. unfold list_index. destruct (nth_error l i); discriminate. Qed.

Lemma py_float_no_recursion {T} (s : string) : @py_float T s <> Raise RecursionError.
Proof.
  unfold py_float.
  repeat match goal with
    | |- context [let (_, _) := ?p in _] => destruct p
    | |- context [if ?b then _ else _] => destruct b
    | |- context [match ?s with EmptyString => _ | String _ _ => _ end] => destruct s
    end; discriminate.
Qed.

Lemma py_int_no_recursion {T} (f : spec_float) : @py_int T f <> Raise RecursionError.
Proof. destruct f; discriminate. Qed.

Lemma number_no_recursion {T} (text : string) (i : nat) :
  (as_float <- @py_float T text ;;
   (if contains "." text then Ok (VFloat as_float, i + 1)
    else z <- py_int as_float ;; Ok (VInt z, i + 1))) <> Raise RecursionError.
Proof.
  apply bind_no_recursion; [apply py_float_no_recursion |]. intros f _.
  destruct (contains "." text); [discriminate |].
  apply bind_no_recursion; [apply py_int_no_recursion | discriminate].
Qed.

Lemma refines_Ok {T A} (bounded unbounded : result T A) (a : A) :
  refines bounded unbounded -> bounded = Ok a -> unbounded = Ok a.
Proof. intros [-> | ->]; [discriminate | auto]. Qed.

Lemma chained_length (tokens : list Pyson3.Token) : forall from upto,
  chained from tokens upto -> from + List.length tokens <= upto.
Proof.
  induction tokens as [| t tokens IH]; intros from upto H; simpl in *; [lia |].
  destruct H as (H1 & H2 & H3). apply IH in H3. lia.
Qed.

Lemma lex_length (json : string) (tokens : list Pyson3.Token) :
  Pyson3.lex json = Ok tokens -> List.length tokens <= String.length json.
Proof.
  intros H. unfold Pyson3.lex in H.
  apply lex_loop_tokens in H; [| simpl; lia | lia | constructor].
  destruct H as [H _]. apply chained_length in H. lia.
Qed.

Section Enough3.

Variable token_init token_repr : nat.

Lemma lex_loop_enough3 (depth : nat) (json : string) : token_init <= depth ->
  forall fuel tokens i,
    Pyson3.Stack.lex_loop token_init depth fuel json tokens i
      = Pyson3.lex_loop fuel json tokens i.
Proof.
  intros Hd. induction fuel as [| fuel IH]; intros tokens i; [reflexivity |].
  simpl. destruct (i <? String.length json)%nat; [| reflexivity].
  destruct (Pyson3.lex_step json i) as [[[t |] j] | e |]; cbn [bind]; auto.
  rewrite (nested_calls_Ok _ _ Hd). cbn [bind]. apply IH.
Qed.

Variable tokens : list Pyson3.Token.
Variable json : string.

Lemma error_enough3 {A} (depth : nat) (i : option nat) (msg : string) :
  1 + token_repr <= depth ->
  (m <- Pyson3.Stack._error token_repr tokens depth i msg ;;
   @Raise Pyson3.Token A (ValueError m)) <> Raise RecursionError.
Proof.
  intros Hd. destruct depth as [| depth]; [lia |].
  unfold Pyson3.Stack._error. destruct i as [i |]; [| discriminate].
  unfold Pyson3.Stack.format_tokens.
  rewrite (nested_calls_Ok token_repr depth) by lia.
  destruct (list_slice tokens (Z.of_nat i - 2) (Z.of_nat i)); cbn [bind];
    (destruct (list_index tokens i) as [value | e |] eqn:Hi; cbn [bind];
     [discriminate | apply list_index_raise in Hi; subst e; discriminate | discriminate]).
Qed.

Lemma normalized_string_enough3 (depth : nat) (t : Pyson3.Token) :
  2 <= depth ->
  Pyson3.Stack.normalized_string json depth t = Ok (Pyson3.normalized_string json t).
Proof. intros Hd. destruct depth as [| [| depth]]; [lia | lia | reflexivity]. Qed.

Lemma get_string_enough3 (depth : nat) (t : Pyson3.Token) :
  1 <= depth ->
  Pyson3.Stack.get_string json depth t = Ok (Pyson3.get_string json t).
Proof. intros Hd. destruct depth as [| depth]; [lia | reflexivity]. Qed.

Section EnoughLoops3.

Variable depth : nat.
Variable parse_value : nat -> Pyson3.res (Value * nat).
Variable i0 : nat.
Hypothesis depth_enough : 2 + token_repr <= depth.
Hypothesis refines_parse_value : forall fuel i,
  2 * (Pyson3.length tokens - i) + 1 <= fuel ->
  refines (parse_value i) (Pyson3.parse_value tokens json fuel i).
Hypothesis parse_value_enough : forall i,
  i0 <= i -> parse_value i <> Raise RecursionError.

Lemma parse_value_step3 (i : nat) (v : Value) (j : nat) :
  parse_value i = Ok (v, j) -> i < j.
Proof.
  intros H.
  apply (refines_Ok _ _ _ (refines_parse_value _ i (Nat.le_refl _))) in H.
  apply (parse_value_progress3 _ _ _ _ _ _ H).
Qed.

Lemma object_loop_enough3 : forall g result known i,
  i0 <= i ->
  Pyson3.Stack.parse_object_loop token_repr tokens json depth parse_value g result known i
    <> Raise RecursionError.
Proof.
  induction g as [| g IH]; intros result known i Hi; [discriminate |].
  simpl. destruct (i <? Pyson3.length tokens)%nat; [| discriminate].
  apply bind_no_recursion; [apply list_index_no_recursion |]. intros t _.
  destruct (Pyson3.type t); try discriminate; try (apply error_enough3; lia).
  rewrite normalized_string_enough3 by lia. cbn [bind].
  destruct (String.eqb _ _); [discriminate |].
  destruct (set_mem _ _); [apply error_enough3; lia |].
  apply bind_no_recursion; [apply list_index_no_recursion |]. intros c _.
  destruct (negb _); [apply error_enough3; lia |].
  apply bind_no_recursion; [apply parse_value_enough; lia |].
  intros [v j] Hv. apply parse_value_step3 in Hv. apply IH. lia.
Qed.

Lemma array_loop_enough3 : forall g result i,
  i0 <= i ->
  Pyson3.Stack.parse_array_loop tokens parse_value g result i <> Raise RecursionError.
Proof.
  induction g as [| g IH]; intros result i Hi; [discriminate |].
  simpl. destruct (i <? Pyson3.length tokens)%nat; [| discriminate].
  apply bind_no_recursion; [apply list_index_no_recursion |]. intros t _.
  destruct (Pyson3.type t); try discriminate;
    (apply bind_no_recursion; [apply parse_value_enough; lia |];
     intros [v j] Hv; apply parse_value_step3 in Hv; apply IH; lia).
Qed.

End EnoughLoops3.

(** With [2 n + token_repr + 3] levels left, [parse_value] does not run out
    of them when at most [n] tokens are left; [parse_object] and
    [parse_array] take one level more. *)
Lemma parser_enough3 : forall n,
  (forall depth i, Pyson3.length tokens - i <= n -> 2 * n + token_repr + 3 <= depth ->
     Pyson3.Stack.parse_value token_repr tokens json depth i <> Raise RecursionError) /\
  (forall depth i, Pyson3.length tokens - i <= n -> 2 * n + token_repr + 4 <= depth ->
     Pyson3.Stack.parse_object token_repr tokens json depth i <> Raise RecursionError /\
     Pyson3.Stack.parse_array token_repr tokens json depth i <> Raise RecursionError).
Proof.
  assert (Hloops : forall n,
    (forall depth i, Pyson3.length tokens - i <= n -> 2 * n + token_repr + 3 <= depth ->
       Pyson3.Stack.parse_value token_repr tokens json depth i <> Raise RecursionError) ->
    forall depth i, Pyson3.length tokens - i <= n -> 2 * n + token_repr + 4 <= depth ->
      Pyson3.Stack.parse_object token_repr tokens json depth i <> Raise RecursionError /\
      Pyson3.Stack.parse_array token_repr tokens json depth i <> Raise RecursionError).
  { intros n Hv depth i Hn Hd. destruct depth as [| depth]; [lia |].
    pose proof (proj1 (refines_parser3 token_repr tokens json depth)) as Href.
    assert (Hpv : forall j, i <= j ->
              Pyson3.Stack.parse_value token_repr tokens json depth j
                <> Raise RecursionError)
      by (intros j Hj; apply Hv; lia).
    split.
    - change (Pyson3.Stack.parse_object token_repr tokens json (S depth) i)
        with (Pyson3.Stack.parse_object_loop token_repr tokens json depth
                (Pyson3.Stack.parse_value token_repr tokens json depth)
                (Pyson3.Stack.loop_fuel tokens) [] [] i).
      apply object_loop_enough3 with (i0 := i); auto. lia.
    - change (Pyson3.Stack.parse_array token_repr tokens json (S depth) i)
        with (Pyson3.Stack.parse_array_loop tokens
                (Pyson3.Stack.parse_value token_repr tokens json depth)
                (Pyson3.Stack.loop_fuel tokens) [] i).
      apply array_loop_enough3 with (depth := depth) (i0 := i); auto. lia. }
  assert (Hvalue : forall n,
    (forall m depth i, n = S m -> Pyson3.length tokens - i <= m ->
       2 * m + token_repr + 4 <= depth ->
       Pyson3.Stack.parse_object token_repr tokens json depth i <> Raise RecursionError /\
       Pyson3.Stack.parse_array token_repr tokens json depth i <> Raise RecursionError) ->
    forall depth i, Pyson3.length tokens - i <= n -> 2 * n + token_repr + 3 <= depth ->
      Pyson3.Stack.parse_value token_repr tokens json depth i <> Raise RecursionError).
  { intros n Hprev depth i Hn Hd. destruct depth as [| depth]; [lia |].
    simpl.
    apply bind_no_recursion; [apply list_index_no_recursion |]. intros t Ht.
    apply index_lt in Ht.
    destruct n as [| m]; [lia |].
    assert (Hnested := fun depth i => Hprev m depth i eq_refl).
    apply bind_no_recursion.
    2:{ intros r _ H. apply consume_comma_raise in H. discriminate H. }
    destruct (Pyson3.type t); try discriminate; try (apply error_enough3; lia).
    - apply bind_no_recursion; [apply Hnested; lia | intros [o j] _; discriminate].
    - apply bind_no_recursion; [apply Hnested; lia | intros [a j] _; discriminate].
    - rewrite normalized_string_enough3 by lia. discriminate.
    - rewrite get_string_enough3 by lia. cbn [bind]. apply number_no_recursion.
    - rewrite get_string_enough3 by lia. discriminate. }
  induction n as [| n [IHv IHl]].
  - assert (Hv : forall depth i, Pyson3.length tokens - i <= 0 ->
              2 * 0 + token_repr + 3 <= depth ->
              Pyson3.Stack.parse_value token_repr tokens json depth i
                <> Raise RecursionError)
      by (apply Hvalue; intros m depth i Hm; discriminate Hm).
    split; [exact Hv | apply Hloops, Hv].
  - assert (Hv : forall depth i, Pyson3.length tokens - i <= S n ->
              2 * S n + token_repr + 3 <= depth ->
              Pyson3.Stack.parse_value token_repr tokens json depth i
                <> Raise RecursionError)
      by (apply Hvalue; intros m depth i [= <-]; apply IHl).
    split; [exact Hv | apply Hloops, Hv].
Qed.

End Enough3.

(** With enough levels the bounded stack makes no difference. *)
Lemma loads_enough3 (token_init token_repr depth : nat) (json : string) :
  2 * String.length json + token_init + token_repr + 5 <= depth ->
  Pyson3.Stack.loads token_init token_repr depth json = Pyson3.loads json.
Proof.
  intros Hd.
  destruct (refines_loads3 token_init token_repr depth json) as [H | H]; [| exact H].
  exfalso. revert H.
  destruct depth as [| [| [| depth]]]; try lia.
  unfold Pyson3.Stack.loads, Pyson3.Stack.parse, Pyson3.Stack.lex.
  rewrite lex_loop_enough3 by lia.
  change (Pyson3.lex_loop (S (String.length json)) json [] 0) with (Pyson3.lex json).
  destruct (Pyson3.lex json) as [tokens | e |] eqn:Hlex; cbn [bind];
    [| intros H; injection H as ->;
       apply (lex_loop_plain json _ _ _ _) in Hlex; destruct Hlex as [? | [? ?]]; discriminate
     | discriminate].
  apply lex_length in Hlex.
  destruct (List.length tokens <? 2)%nat eqn:Hlen; [apply error_enough3; lia |].
  apply bind_no_recursion; [apply list_index_no_recursion |]. intros t _.
  apply Nat.ltb_ge in Hlen.
  destruct (parser_enough3 token_repr tokens json (List.length tokens - 1)) as [_ Hl].
  destruct (Hl (S depth) 1) as [Ho Ha];
    [unfold Pyson3.length; lia | lia |].
  destruct (Pyson3.type t); try (apply error_enough3; lia).
  - apply bind_no_recursion; [exact Ho | intros [o j] _; discriminate].
  - apply bind_no_recursion; [exact Ha | intros [a j] _; discriminate].
Qed.

Lemma lex1_length (json : string) (tokens : list Pyson.Token) :
  Pyson.lex json = Ok tokens -> List.length tokens <= String.length json.
Proof.
  intros H. pose proof (agree_lex json) as Hagree. rewrite H in Hagree.
  destruct (Pyson3.lex json) as [tokens3 | e |] eqn:Hlex; simpl in Hagree;
    try contradiction.
  subst tokens. rewrite length_map. apply (lex_length _ _ Hlex).
Qed.

Section Enough1.

Variable token_init token_repr : nat.

Lemma lex_loop_enough1 (depth : nat) (json : string) : token_init <= depth ->
  forall fuel tokens i,
    Pyson.Stack.lex_loop token_init depth fuel json tokens i
      = Pyson.lex_loop fuel json tokens i.
Proof.
  intros Hd. induction fuel as [| fuel IH]; intros tokens i; [reflexivity |].
  simpl. destruct (i <? String.length json)%nat; [| reflexivity].
  destruct (Pyson.lex_step json i) as [[[t |] j] | e |]; cbn [bind]; auto.
  rewrite (nested_calls_Ok _ _ Hd). cbn [bind]. apply IH.
Qed.

Variable tokens : list Pyson.Token.

Lemma error_enough1 {A} (depth : nat) (i : option nat) (msg : string) :
  1 + token_repr <= depth ->
  (m <- Pyson.Stack._error token_repr tokens depth i msg ;;
   @Raise Pyson.Token A (ValueError m)) <> Raise RecursionError.
Proof.
  intros Hd. destruct depth as [| depth]; [lia |].
  unfold Pyson.Stack._error. destruct i as [i |]; [| discriminate].
  unfold Pyson.Stack.format_tokens.
  rewrite (nested_calls_Ok token_repr depth) by lia.
  destruct (list_slice tokens (Z.of_nat i - 2) (Z.of_nat i)); cbn [bind];
    (unfold list_index; destruct (nth_error tokens i) as [value |]; cbn [bind];
     discriminate).
Qed.

Lemma assert_str_no_recursion (x : option string) :
  Pyson.assert_str x <> Raise RecursionError.
Proof. destruct x as [[| c s] |]; discriminate. Qed.

Section EnoughLoops1.

Variable depth : nat.
Variable parse_value : nat -> Pyson.res (Value * nat).
Variable i0 : nat.
Hypothesis depth_enough : 1 + token_repr <= depth.
Hypothesis refines_parse_value : forall fuel i,
  2 * (Pyson.length tokens - i) + 1 <= fuel ->
  refines (parse_value i) (Pyson.parse_value tokens fuel i).
Hypothesis parse_value_enough : forall i,
  i0 <= i -> parse_value i <> Raise RecursionError.

Lemma parse_value_step1 (i : nat) (v : Value) (j : nat) :
  parse_value i = Ok (v, j) -> i < j.
Proof.
  intros H.
  apply (refines_Ok _ _ _ (refines_parse_value _ i (Nat.le_refl _))) in H.
  apply (parse_value_progress1 _ _ _ _ _ H).
Qed.

Lemma object_loop_enough1 : forall g result known i,
  i0 <= i ->
  Pyson.Stack.parse_object_loop token_repr tokens depth parse_value g result known i
    <> Raise RecursionError.
Proof.
  induction g as [| g IH]; intros result known i Hi; [discriminate |].
  simpl. destruct (i <? Pyson.length tokens)%nat; [| discriminate].
  apply bind_no_recursion; [apply list_index_no_recursion |]. intros t _.
  destruct (Pyson.type t); try discriminate; try (apply error_enough1; lia).
  apply bind_no_recursion; [apply assert_str_no_recursion |]. intros key _.
  destruct (set_mem _ _); [apply error_enough1; lia |].
  apply bind_no_recursion; [apply list_index_no_recursion |]. intros c _.
  destruct (negb _); [apply error_enough1; lia |].
  apply bind_no_recursion; [apply parse_value_enough; lia |].
  intros [v j] Hv. apply parse_value_step1 in Hv. apply IH. lia.
Qed.

Lemma array_loop_enough1 : forall g result i,
  i0 <= i ->
  Pyson.Stack.parse_array_loop tokens parse_value g result i <> Raise RecursionError.
Proof.
  induction g as [| g IH]; intros result i Hi; [discriminate |].
  simpl. destruct (i <? Pyson.length tokens)%nat; [| discriminate].
  apply bind_no_recursion; [apply list_index_no_recursion |]. intros t _.
  destruct (Pyson.type t); try discriminate;
    (apply bind_no_recursion; [apply parse_value_enough; exact Hi |];
     intros [v j] Hv; apply parse_value_step1 in Hv; apply IH;
     apply Nat.le_trans with i; [exact Hi | apply Nat.lt_le_incl, Hv]).
Qed.

End EnoughLoops1.

Lemma parser_enough1 : forall n,
  (forall depth i, Pyson.length tokens - i <= n -> 2 * n + token_repr + 3 <= depth ->
     Pyson.Stack.parse_value token_repr tokens depth i <> Raise RecursionError) /\
  (forall depth i, Pyson.length tokens - i <= n -> 2 * n + token_repr + 4 <= depth ->
     Pyson.Stack.parse_object token_repr tokens depth i <> Raise RecursionError /\
     Pyson.Stack.parse_array token_repr tokens depth i <> Raise RecursionError).
Proof.
  assert (Hloops : forall n,
    (forall depth i, Pyson.length tokens - i <= n -> 2 * n + token_repr + 3 <= depth ->
       Pyson.Stack.parse_value token_repr tokens depth i <> Raise RecursionError) ->
    forall depth i, Pyson.length tokens - i <= n -> 2 * n + token_repr + 4 <= depth ->
      Pyson.Stack.parse_object token_repr tokens depth i <> Raise RecursionError /\
      Pyson.Stack.parse_array token_repr tokens depth i <> Raise RecursionError).
  { intros n Hv depth i Hn Hd. destruct depth as [| depth]; [lia |].
    pose proof (proj1 (refines_parser1 token_repr tokens depth)) as Href.
    assert (Hpv : forall j, i <= j ->
              Pyson.Stack.parse_value token_repr tokens depth j <> Raise RecursionError)
      by (intros j Hj; apply Hv; lia).
    split.
    - change (Pyson.Stack.parse_object token_repr tokens (S depth) i)
        with (Pyson.Stack.parse_object_loop token_repr tokens depth
                (Pyson.Stack.parse_value token_repr tokens depth)
                (Pyson.Stack.loop_fuel tokens) [] [] i).
      apply object_loop_enough1 with (i0 := i); auto. lia.
    - change (Pyson.Stack.parse_array token_repr tokens (S depth) i)
        with (Pyson.Stack.parse_array_loop tokens
                (Pyson.Stack.parse_value token_repr tokens depth)
                (Pyson.Stack.loop_fuel tokens) [] i).
      apply array_loop_enough1 with (i0 := i); auto. }
  assert (Hvalue : forall n,
    (forall m depth i, n = S m -> Pyson.length tokens - i <= m ->
       2 * m + token_repr + 4 <= depth ->
       Pyson.Stack.parse_object token_repr tokens depth i <> Raise RecursionError /\
       Pyson.Stack.parse_array token_repr tokens depth i <> Raise RecursionError) ->
    forall depth i, Pyson.length tokens - i <= n -> 2 * n + token_repr + 3 <= depth ->
      Pyson.Stack.parse_value token_repr tokens depth i <> Raise RecursionError).
  { intros n Hprev depth i Hn Hd. destruct depth as [| depth]; [lia |].
    simpl.
    apply bind_no_recursion; [apply list_index_no_recursion |]. intros t Ht.
    apply index1_lt in Ht.
    destruct n as [| m]; [lia |].
    assert (Hnested := fun depth i => Hprev m depth i eq_refl).
    apply bind_no_recursion.
    2:{ intros [v j] _. unfold Pyson.consume_comma.
        apply bind_no_recursion; [apply list_index_no_recursion |].
        intros c _. destruct (TokenType_eqb _ _); discriminate. }
    destruct (Pyson.type t); try discriminate; try (apply error_enough1; lia).
    - apply bind_no_recursion; [apply Hnested; lia | intros [o j] _; discriminate].
    - apply bind_no_recursion; [apply Hnested; lia | intros [a j] _; discriminate].
    - apply bind_no_recursion; [apply assert_str_no_recursion |]. intros s _.
      apply number_no_recursion. }
  induction n as [| n [IHv IHl]].
  - assert (Hv : forall depth i, Pyson.length tokens - i <= 0 ->
              2 * 0 + token_repr + 3 <= depth ->
              Pyson.Stack.parse_value token_repr tokens depth i <> Raise RecursionError)
      by (apply Hvalue; intros m depth i Hm; discriminate Hm).
    split; [exact Hv | apply Hloops, Hv].
  - assert (Hv : forall depth i, Pyson.length tokens - i <= S n ->
              2 * S n + token_repr + 3 <= depth ->
              Pyson.Stack.parse_value token_repr tokens depth i <> Raise RecursionError)
      by (apply Hvalue; intros m depth i [= <-]; apply IHl).
    split; [exact Hv | apply Hloops, Hv].
Qed.

Lemma parse_enough1 (depth : nat) :
  2 * List.length tokens + token_repr + 3 <= depth ->
  Pyson.Stack.parse token_repr tokens depth = Pyson.parse tokens.
Proof.
  intros Hd.
  destruct (refines_parse1 token_repr tokens depth) as [H | H]; [| exact H].
  exfalso. revert H. destruct depth as [| depth]; [lia |].
  unfold Pyson.Stack.parse.
  destruct (List.length tokens <? 2)%nat eqn:Hlen; [apply error_enough1; lia |].
  apply Nat.ltb_ge in Hlen.
  apply bind_no_recursion; [apply list_index_no_recursion |]. intros t _.
  destruct (parser_enough1 (List.length tokens - 1)) as [_ Hl].
  destruct (Hl depth 1) as [Ho Ha]; [unfold Pyson.length; lia | lia |].
  destruct (Pyson.type t); try (apply error_enough1; lia).
  - apply bind_no_recursion; [exact Ho | intros [o j] _; discriminate].
  - apply bind_no_recursion; [exact Ha | intros [a j] _; discriminate].
Qed.

End Enough1.

Lemma loads_enough1 (token_init token_repr depth : nat) (json : string) :
  2 * String.length json + token_init + token_repr + 5 <= depth ->
  Pyson.Stack.loads token_init token_repr depth json = Pyson.loads json.
Proof.
  intros Hd. destruct depth as [| [| depth]]; try lia.
  unfold Pyson.Stack.loads, Pyson.Stack.lex, Pyson.loads.
  rewrite lex_loop_enough1 by lia.
  change (Pyson.lex_loop (S (String.length json)) json [] 0) with (Pyson.lex json).
  destruct (Pyson.lex json) as [tokens | e |] eqn:Hlex; cbn [bind]; try reflexivity.
  apply lex1_length in Hlex. apply parse_enough1. lia.
Qed.

(** *** The first variant on the stack of the third

    The third variant nests more calls than the first: [lex] is called
    inside [parse], and a text is read through [normalized_string] and
    [get_string] when a value is built.  With the same stack the two
    agree unless the third exhausts it. *)

Lemma agree_within_bind {T1 T3 A B C D} (R : A -> B -> Prop) (Q : C -> D -> Prop)
      (c1 : result T1 A) (c3 : result T3 B)
      (k1 : A -> result T1 C) (k3 : B -> result T3 D) :
  agree_within R c1 c3 ->
  (forall a b, R a b -> agree_within Q (k1 a) (k3 b)) ->
  agree_within Q (bind c1 k1) (bind c3 k3).
Proof.
  intros [-> | Hc] Hk; [left; reflexivity |].
  destruct c1 as [a | e1 |], c3 as [b | e3 |]; simpl in *; try contradiction.
  - apply Hk, Hc.
  - right. exact I.
  - right. exact I.
Qed.

Lemma agree_within_agree {T1 T3 A B} (R : A -> B -> Prop)
      (r1 : result T1 A) (r3 : result T3 B) :
  agree R r1 r3 -> agree_within R r1 r3.
Proof. intros H. right. exact H. Qed.

Section Simulation13.

Variable token_init token_repr : nat.

Lemma agree_within_lex_loop (json : string) (depth1 depth3 : nat) :
  depth3 <= depth1 ->
  forall fuel tokens i,
    agree_within (fun ts1 ts3 => ts1 = map (copy_token json) ts3)
      (Pyson.Stack.lex_loop token_init depth1 fuel json (map (copy_token json) tokens) i)
      (Pyson3.Stack.lex_loop token_init depth3 fuel json tokens i).
Proof.
  intros Hd. induction fuel as [| fuel IH]; intros tokens i; simpl; [right; exact I |].
  destruct (i <? String.length json)%nat; [| right; reflexivity].
  eapply agree_within_bind; [apply agree_within_agree, agree_lex_step |].
  intros [tok1 j1] [tok3 j3] [= -> ->]. simpl.
  destruct tok3 as [t |]; simpl; [| apply IH].
  unfold nested_calls.
  destruct (depth3 <? token_init)%nat eqn:H3; [left; reflexivity |].
  apply Nat.ltb_ge in H3.
  assert (H1 : (depth1 <? token_init)%nat = false) by (apply Nat.ltb_ge; lia).
  rewrite H1. cbn [bind].
  replace (map (copy_token json) tokens ++ [copy_token json t])
    with (map (copy_token json) (tokens ++ [t])) by (rewrite map_app; reflexivity).
  apply IH.
Qed.

Variable tokens : list Pyson3.Token.
Variable json : string.

Lemma stack_error1_raised {A} (tokens1 : list Pyson.Token) (depth : nat)
      (i : option nat) (msg : string) :
  raised (m <- Pyson.Stack._error token_repr tokens1 depth i msg ;;
          @Raise Pyson.Token A (ValueError m)).
Proof.
  destruct depth as [| depth]; [eexists; reflexivity |].
  unfold Pyson.Stack._error. destruct i as [i |]; [| eexists; reflexivity].
  unfold Pyson.Stack.format_tokens, nested_calls, list_index.
  destruct (list_slice tokens1 _ _), (depth <? token_repr)%nat,
    (nth_error tokens1 i); eexists; reflexivity.
Qed.

Lemma stack_error3_raised {A} (depth : nat) (i : option nat) (msg : string) :
  raised (m <- Pyson3.Stack._error token_repr tokens depth i msg ;;
          @Raise Pyson3.Token A (ValueError m)).
Proof.
  destruct depth as [| depth]; [eexists; reflexivity |].
  unfold Pyson3.Stack._error. destruct i as [i |]; [| eexists; reflexivity].
  unfold Pyson3.Stack.format_tokens, nested_calls, list_index.
  destruct (list_slice tokens _ _), (depth <? token_repr)%nat,
    (nth_error tokens i); eexists; reflexivity.
Qed.

Lemma agree_within_error {A B} (R : A -> B -> Prop) (depth1 depth3 : nat)
      (i j : option nat) (msg : string) :
  agree_within R
    (m <- Pyson.Stack._error token_repr (copy_tokens json tokens) depth1 i msg ;;
     @Raise Pyson.Token A (ValueError m))
    (m <- Pyson3.Stack._error token_repr tokens depth3 j msg ;;
     @Raise Pyson3.Token B (ValueError m)).
Proof.
  right. apply agree_raised; [apply stack_error1_raised | apply stack_error3_raised].
Qed.

Section Loops13.

Variable depth : nat.
Variable parse_value1 : nat -> Pyson.res (Value * nat).
Variable parse_value3 : nat -> Pyson3.res (Value * nat).
Hypothesis agree_parse_value : forall i, agree_within eq (parse_value1 i) (parse_value3 i).

Lemma agree_within_object_loop : forall g result known i,
  agree_within eq
    (Pyson.Stack.parse_object_loop token_repr (copy_tokens json tokens) depth
       parse_value1 g result known i)
    (Pyson3.Stack.parse_object_loop token_repr tokens json depth
       parse_value3 g result known i).
Proof.
  induction g as [| g IH]; intros result known i; simpl; [right; exact I |].
  rewrite length_copy_tokens.
  destruct (i <? Pyson3.length tokens)%nat; [| right; reflexivity].
  eapply agree_within_bind; [apply agree_within_agree, agree_list_index |].
  intros t1 t ->. simpl. unfold token_value.
  destruct (Pyson3.type t) eqn:Hty; simpl; try (right; reflexivity);
    try apply agree_within_error.
  destruct depth as [| [| depth']]; [left; reflexivity .. |].
  cbn [Pyson3.Stack.normalized_string Pyson3.Stack.get_string bind].
  change (str_slice json (Pyson3.start t) (Pyson3.end_ t))
    with (Pyson3.get_string json t).
  destruct (decode_escapes (Pyson3.get_string json t)) as [| c s] eqn:Hkey; simpl;
    [right; exact I |].
  destruct (set_mem (String c s) known); [apply agree_within_error |].
  eapply agree_within_bind; [apply agree_within_agree, agree_list_index |].
  intros c1 c3 ->. simpl.
  destruct (negb (TokenType_eqb (Pyson3.type c3) COLON)); [apply agree_within_error |].
  eapply agree_within_bind; [apply agree_parse_value |]. intros [v j] ? <-.
  apply IH.
Qed.

Lemma agree_within_array_loop : forall g result i,
  agree_within eq
    (Pyson.Stack.parse_array_loop (copy_tokens json tokens) parse_value1 g result i)
    (Pyson3.Stack.parse_array_loop tokens parse_value3 g result i).
Proof.
  induction g as [| g IH]; intros result i; simpl; [right; exact I |].
  rewrite length_copy_tokens.
  destruct (i <? Pyson3.length tokens)%nat; [| right; reflexivity].
  eapply agree_within_bind; [apply agree_within_agree, agree_list_index |].
  intros t1 t ->. simpl.
  destruct (Pyson3.type t) eqn:Hty; simpl; try (right; reflexivity);
    (eapply agree_within_bind; [apply agree_parse_value |]; intros [v j] ? <-;
     apply IH).
Qed.

End Loops13.

Lemma agree_within_parser : forall depth,
  (forall i,
      agree_within eq
        (Pyson.Stack.parse_value token_repr (copy_tokens json tokens) depth i)
        (Pyson3.Stack.parse_value token_repr tokens json depth i)) /\
  (forall i,
      agree_within eq
        (Pyson.Stack.parse_object token_repr (copy_tokens json tokens) depth i)
        (Pyson3.Stack.parse_object token_repr tokens json depth i)) /\
  (forall i,
      agree_within eq
        (Pyson.Stack.parse_array token_repr (copy_tokens json tokens) depth i)
        (Pyson3.Stack.parse_array token_repr tokens json depth i)).
Proof.
  induction depth as [| depth (IHv & IHo & IHa)];
    [repeat split; intros; left; reflexivity |].
  assert (Hfuel : Pyson.Stack.loop_fuel (copy_tokens json tokens)
                  = Pyson3.Stack.loop_fuel tokens).
  { unfold Pyson.Stack.loop_fuel, Pyson3.Stack.loop_fuel.
    rewrite length_copy_tokens. reflexivity. }
  repeat split.
  - intros i. simpl.
    eapply agree_within_bind; [apply agree_within_agree, agree_list_index |].
    intros t1 t ->. simpl. unfold token_value.
    apply agree_within_bind with (R := eq);
      [| intros r ? <-; apply agree_within_agree, agree_consume_comma].
    destruct (Pyson3.type t) eqn:Hty; simpl; try (right; reflexivity);
      try apply agree_within_error.
    + eapply agree_within_bind; [apply IHo |]. intros [o j] ? <-. right. reflexivity.
    + eapply agree_within_bind; [apply IHa |]. intros [a j] ? <-. right. reflexivity.
    + destruct depth as [| [| depth']]; [left; reflexivity .. |]. right. reflexivity.
    + destruct depth as [| depth']; [left; reflexivity |].
      cbn [Pyson3.Stack.get_string bind].
      change (str_slice json (Pyson3.start t) (Pyson3.end_ t))
        with (Pyson3.get_string json t).
      destruct (Pyson3.get_string json t) as [| c s] eqn:Hs; simpl.
      * right. exact I.
      * eapply agree_within_bind; [apply agree_within_agree, agree_py_float |].
        intros f ? <-.
        match goal with
        | |- context [if ?b then _ else _] => destruct b; [right; simpl; reflexivity |]
        end.
        eapply agree_within_bind; [apply agree_within_agree, agree_py_int |].
        intros z ? <-. right. simpl. reflexivity.
    + destruct depth as [| depth']; [left; reflexivity |]. right. reflexivity.
  - intros i.
    change (Pyson.Stack.parse_object token_repr (copy_tokens json tokens) (S depth) i)
      with (Pyson.Stack.parse_object_loop token_repr (copy_tokens json tokens) depth
              (Pyson.Stack.parse_value token_repr (copy_tokens json tokens) depth)
              (Pyson.Stack.loop_fuel (copy_tokens json tokens)) [] [] i).
    change (Pyson3.Stack.parse_object token_repr tokens json (S depth) i)
      with (Pyson3.Stack.parse_object_loop token_repr tokens json depth
              (Pyson3.Stack.parse_value token_repr tokens json depth)
              (Pyson3.Stack.loop_fuel tokens) [] [] i).
    rewrite Hfuel. apply agree_within_object_loop. exact IHv.
  - intros i.
    change (Pyson.Stack.parse_array token_repr (copy_tokens json tokens) (S depth) i)
      with (Pyson.Stack.parse_array_loop (copy_tokens json tokens)
              (Pyson.Stack.parse_value token_repr (copy_tokens json tokens) depth)
              (Pyson.Stack.loop_fuel (copy_tokens json tokens)) [] i).
    change (Pyson3.Stack.parse_array token_repr tokens json (S depth) i)
      with (Pyson3.Stack.parse_array_loop tokens
              (Pyson3.Stack.parse_value token_repr tokens json depth)
              (Pyson3.Stack.loop_fuel tokens) [] i).
    rewrite Hfuel. apply agree_within_array_loop. exact IHv.
Qed.

End Simulation13.

Lemma agree_within_loads (token_init token_repr depth : nat) (json : string) :
  agree_within eq (Pyson.Stack.loads token_init token_repr depth json)
                  (Pyson3.Stack.loads token_init token_repr depth json).
Proof.
  destruct depth as [| [| [| depth]]]; [left; reflexivity .. |].
  unfold Pyson.Stack.loads, Pyson3.Stack.loads, Pyson3.Stack.parse,
    Pyson.Stack.lex, Pyson3.Stack.lex.
  eapply agree_within_bind.
  { apply (agree_within_lex_loop token_init json (S depth) depth ltac:(lia)
             (S (String.length json)) [] 0). }
  intros ts1 tokens ->.
  change (map (copy_token json) tokens) with (copy_tokens json tokens).
  unfold Pyson.Stack.parse.
  assert (Hlen : List.length (copy_tokens json tokens) = List.length tokens)
    by apply length_map.
  rewrite Hlen.
  destruct (List.length tokens <? 2)%nat; [apply agree_within_error |].
  eapply agree_within_bind; [apply agree_within_agree, agree_list_index |].
  intros t1 t ->. simpl.
  destruct (agree_within_parser token_repr tokens json (S depth)) as (_ & Ho & Ha).
  destruct (Pyson3.type t); try apply agree_within_error.
  - eapply agree_within_bind; [apply Ho |]. intros [o j] ? <-. right. reflexivity.
  - eapply agree_within_bind; [apply Ha |]. intros [a j] ? <-. right. reflexivity.
Qed.

(** C7 (as the code has it): with the same bound on the depth of the call
    stack, the decoder of the first variant ([pyson.py], tokens with copied
    and decoded text) and the decoder of the third ([pyson3.py], tokens
    with spans, decoded when a value is built) both raise, or both return
    the same value, unless the third exhausts the stack and raises
    [RecursionError]: it nests more calls than the first.  A stack that
    allows twice the length of the text and [token_init + token_repr + 5]
    nested calls is exhausted by neither, and each decoder then does what
    it does on an unbounded stack, where the two agree on every text. *)
Theorem C7_variants_agree (token_init token_repr depth : nat) (json : string) :
  (Pyson3.Stack.loads token_init token_repr depth json = Raise RecursionError \/
   (raised (Pyson.Stack.loads token_init token_repr depth json) /\
    raised (Pyson3.Stack.loads token_init token_repr depth json)) \/
   (exists v, Pyson.Stack.loads token_init token_repr depth json = Ok v /\
              Pyson3.Stack.loads token_init token_repr depth json = Ok v)) /\
  (2 * String.length json + token_init + token_repr + 5 <= depth ->
   Pyson.Stack.loads token_init token_repr depth json = Pyson.loads json /\
   Pyson3.Stack.loads token_init token_repr depth json = Pyson3.loads json) /\
  ((raised (Pyson.loads json) /\ raised (Pyson3.loads json)) \/
   (exists v, Pyson.loads json = Ok v /\ Pyson3.loads json = Ok v)).
Proof.
  split; [| split].
  - destruct (agree_within_loads token_init token_repr depth json) as [H | H];
      [left; exact H | right].
    pose proof (stack_loads_total3 token_init token_repr depth json) as Htotal.
    destruct (Pyson.Stack.loads token_init token_repr depth json) as [v1 | e1 |],
             (Pyson3.Stack.loads token_init token_repr depth json) as [v3 | e3 |];
      simpl in H; try contradiction.
    + right. exists v1. subst v3. auto.
    + left. split; eexists; reflexivity.
  - intros Hd. split; [apply loads_enough1 | apply loads_enough3]; exact Hd.
  - pose proof (agree_loads json) as H.
    pose proof (loads_total json) as Htotal.
    destruct (Pyson.loads json) as [v1 | e1 |], (Pyson3.loads json) as [v3 | e3 |];
      simpl in H; try contradiction.
    + right. exists v1. subst v3. auto.
    + left. split; eexists; reflexivity.
Qed.

Lemma C7_variants_agree_witness :
  Pyson.Stack.loads 1 3 30 (dq "{'a':[1]}") = Pyson.loads (dq "{'a':[1]}") /\
  Pyson3.Stack.loads 1 3 30 (dq "{'a':[1]}") = Pyson3.loads (dq "{'a':[1]}").
Proof.
  refine (proj1 (proj2 (C7_variants_agree 1 3 30 (dq "{'a':[1]}"))) _).
  simpl. lia.
Defined.

(** The claim C7 as the specification words it fails on ['["a"]'] when the
    stack allows five nested calls: the first variant nests four
    ([loads], [parse], [parse_array], [parse_value]) and returns, the
    third nests six ([normalized_string] and [get_string] in
    [parse_value]) and raises [RecursionError].  Each pair of brackets
    around the text adds two calls to both ([parse_array],
    [parse_value]): with two more pairs the claim fails when the stack
    allows nine. *)
Lemma C7_counterexample :
  Pyson.Stack.loads 1 3 5 (dq "['a']") = Ok (VArray [VStr (dq "'a'")]) /\
  Pyson3.Stack.loads 1 3 5 (dq "['a']") = Raise RecursionError /\
  Pyson.Stack.loads 1 3 9 (dq "[[['a']]]")
    = Ok (VArray [VArray [VArray [VStr (dq "'a'")]]]) /\
  Pyson3.Stack.loads 1 3 9 (dq "[[['a']]]") = Raise RecursionError.
Proof. repeat split; vm_compute; reflexivity. Qed.

(** ** The errors of [loads] *)

Lemma bind_known_error {A B} (c : Pyson3.res A) (k : A -> Pyson3.res B) (e : exn Pyson3.Token) :
  (forall e', c = Raise e' -> known_error e') ->
  (forall a e', c = Ok a -> k a = Raise e' -> known_error e') ->
  bind c k = Raise e -> known_error e.
Proof.
  intros Hc Hk H. apply bind_raise_inv in H. destruct H as [H | (a & Ha & H)].
  - apply (Hc _ H).
  - apply (Hk _ _ Ha H).
Qed.

Lemma index_known_error {A} (l : list A) (i : nat) (e : exn Pyson3.Token) :
  list_index l i = Raise e -> known_error e.
Proof. intros H. apply list_index_raise in H. subst. exact I. Qed.

Lemma raise_error_known {A} (tokens : list Pyson3.Token) (i : option nat) (msg : string)
      (e : exn Pyson3.Token) :
  In msg parser_messages ->
  (m <- Pyson3._error tokens i msg ;; @Raise Pyson3.Token A (ValueError m)) = Raise e ->
  known_error e.
Proof.
  intros Hmsg H. unfold Pyson3._error in H. destruct i as [i |].
  - unfold list_index in H. destruct (nth_error tokens i); simpl in H;
      injection H as <-; simpl; auto.
  - injection H as <-. exact I.
Qed.

Lemma number_known_error (text : string) (i : nat) (e : exn Pyson3.Token) :
  (as_float <- py_float text ;;
   (if contains "." text then Ok (VFloat as_float, i + 1)
    else z <- py_int as_float ;; Ok (VInt z, i + 1))) = Raise e ->
  known_error e.
Proof.
  intros H. apply bind_raise_inv in H. destruct H as [H | (f & _ & H)].
  - apply py_float_raise in H. subst e. simpl. right. left. exists text. reflexivity.
  - destruct (contains "." text); [discriminate H |].
    apply bind_raise_inv in H. destruct H as [H | (z & _ & H)]; [| discriminate H].
    destruct f; try discriminate H; injection H as <-; simpl; [exact I |].
    right. right. reflexivity.
Qed.

Lemma parse_known_errors (tokens : list Pyson3.Token) (json : string)
      (keys_quoted : forall t, In t tokens -> Pyson3.type t = STRING ->
                               quoted (Pyson3.get_string json t)) :
  forall fuel,
  (forall i e, Pyson3.parse_value_match tokens json fuel i = Raise e -> known_error e) /\
  (forall result known i e,
      Pyson3.parse_object_loop tokens json fuel result known i = Raise e ->
      known_error e) /\
  (forall result i e, Pyson3.parse_array_loop tokens json fuel result i = Raise e ->
                      known_error e).
Proof.
  induction fuel as [| fuel (IHv & IHo & IHa)];
    [repeat split; intros; discriminate |].
  assert (Hcomma : forall r e, Pyson3.consume_comma tokens r = Raise e -> known_error e).
  { intros r e H. apply consume_comma_raise in H. subst. exact I. }
  repeat split.
  - intros i e H. simpl in H.
    apply bind_raise_inv in H. destruct H as [H | (t & _ & H)];
      [apply (index_known_error _ _ _ H) |].
    destruct (Pyson3.type t); try discriminate H;
      try (apply raise_error_known in H; [exact H | simpl; auto 10]).
    + apply bind_raise_inv in H. destruct H as [H | ([o j] & _ & H)]; [| discriminate H].
      apply (IHo _ _ _ _ H).
    + apply bind_raise_inv in H. destruct H as [H | ([a j] & _ & H)]; [| discriminate H].
      apply (IHa _ _ _ H).
    + apply (number_known_error _ _ _ H).
  - intros result known i e H. simpl in H.
    destruct (i <? Pyson3.length tokens)%nat; [| discriminate H].
    apply bind_raise_inv in H. destruct H as [H | (t & Ht & H)];
      [apply (index_known_error _ _ _ H) |].
    apply list_index_Ok in Ht.
    destruct (Pyson3.type t) eqn:Hty; try discriminate H;
      try (apply raise_error_known in H; [exact H | simpl; auto 10]).
    pose proof (decode_escapes_quoted _ (keys_quoted t (nth_error_In _ _ Ht) Hty)) as Hq.
    apply quoted_not_empty in Hq. apply String.eqb_neq in Hq.
    unfold Pyson3.normalized_string in H. rewrite Hq in H.
    destruct (set_mem _ _); [apply raise_error_known in H; [exact H | simpl; auto 10] |].
    apply bind_raise_inv in H. destruct H as [H | (c & _ & H)];
      [apply (index_known_error _ _ _ H) |].
    destruct (negb _); [apply raise_error_known in H; [exact H | simpl; auto 10] |].
    apply bind_raise_inv in H. destruct H as [H | (r & _ & H)]; [apply (IHv _ _ H) |].
    apply bind_raise_inv in H. destruct H as [H | ([v j] & _ & H)]; [apply (Hcomma _ _ H) |].
    apply (IHo _ _ _ _ H).
  - intros result i e H. simpl in H.
    destruct (i <? Pyson3.length tokens)%nat; [| discriminate H].
    apply bind_raise_inv in H. destruct H as [H | (t & _ & H)];
      [apply (index_known_error _ _ _ H) |].
    destruct (Pyson3.type t); try discriminate H;
      (apply bind_raise_inv in H; destruct H as [H | (r & _ & H)]; [apply (IHv _ _ H) |];
       apply bind_raise_inv in H; destruct H as [H | ([v j] & _ & H)];
       [apply (Hcomma _ _ H) |];
       apply (IHa _ _ _ H)).
Qed.

Lemma scan_number_known (json : string) : forall fuel i e,
  Pyson3.scan_number fuel json i = Raise e -> known_error e.
Proof.
  induction fuel as [| fuel IH]; intros i e H; [discriminate |].
  simpl in H. apply bind_raise_inv in H. destruct H as [H | (c & _ & H)].
  - apply str_index_raise in H. subst. exact I.
  - destruct (char_in c NUMERIC); [apply (IH _ _ H) | discriminate].
Qed.

Lemma scan_string_known (json : string) : forall fuel idx e,
  Pyson3.scan_string fuel json idx = Raise e -> known_error e.
Proof.
  induction fuel as [| fuel IH]; intros idx e H; [discriminate |].
  simpl in H. apply bind_raise_inv in H. destruct H as [H | (v & _ & H)].
  { apply str_index_raise in H. subst. exact I. }
  destruct (Ascii.eqb v dquote); [discriminate |].
  destruct (Ascii.eqb v backslash); [| apply (IH _ _ H)].
  apply bind_raise_inv in H. destruct H as [H | (n & _ & H)].
  { apply str_index_raise in H. subst. exact I. }
  destruct (char_in n _); [apply (IH _ _ H) |].
  destruct (Ascii.eqb n "u"); injection H as <-; simpl; auto 10.
Qed.

Lemma lex_step_known (json : string) (i : nat) (e : exn Pyson3.Token) :
  Pyson3.lex_step json i = Raise e -> known_error e.
Proof.
  unfold Pyson3.lex_step. intros H.
  apply bind_raise_inv in H. destruct H as [H | (v & _ & H)].
  { apply str_index_raise in H. subst. exact I. }
  split_ifs H; try discriminate H;
    try (injection H as <-; simpl; auto 10).
  - apply bind_raise_inv in H. destruct H as [H | (idx & _ & H)]; [| discriminate H].
    apply (scan_string_known _ _ _ _ H).
  - apply bind_raise_inv in H. destruct H as [H | (j & _ & H)]; [| discriminate H].
    apply (scan_number_known _ _ _ _ H).
Qed.

Lemma lex_loop_known (json : string) : forall fuel tokens i e,
  Pyson3.lex_loop fuel json tokens i = Raise e -> known_error e.
Proof.
  induction fuel as [| fuel IH]; intros tokens i e H; [discriminate |].
  simpl in H. destruct (i <? String.length json)%nat; [| discriminate].
  apply bind_raise_inv in H. destruct H as [H | ([tok j] & _ & H)].
  - apply (lex_step_known _ _ _ H).
  - destruct tok; apply (IH _ _ _ H).
Qed.

Lemma loads_known_error (json : string) (e : exn Pyson3.Token) :
  Pyson3.loads json = Raise e -> known_error e.
Proof.
  intros H. unfold Pyson3.loads, Pyson3.parse in H.
  apply bind_raise_inv in H. destruct H as [H | (tokens & Hlex & H)];
    [apply (lex_loop_known _ _ _ _ _ H) |].
  assert (Hq : forall t, In t tokens -> Pyson3.type t = STRING ->
                 quoted (Pyson3.get_string json t)).
  { intros t Hin Hty. pose proof (lex_string_span json tokens Hlex) as Hall.
    rewrite Forall_forall in Hall. apply get_string_quoted; auto. }
  destruct (List.length tokens <? 2)%nat.
  { injection H as <-. exact I. }
  apply bind_raise_inv in H. destruct H as [H | (t & _ & H)];
    [apply (index_known_error _ _ _ H) |].
  destruct (parse_known_errors tokens json Hq (Pyson3.parse_fuel tokens)) as (_ & Ho & Ha).
  destruct (Pyson3.type t);
    try (apply raise_error_known in H; [exact H | simpl; auto 10]).
  - apply bind_raise_inv in H. destruct H as [H | ([o j] & _ & H)]; [| discriminate H].
    apply (Ho _ _ _ _ H).
  - apply bind_raise_inv in H. destruct H as [H | ([a j] & _ & H)]; [| discriminate H].
    apply (Ha _ _ _ H).
Qed.

(** X15: the exceptions of [loads], whatever the depth of the call stack.
    It raises a [RecursionError], an [IndexError], an [AttributeError], an
    [OverflowError], or a [ValueError] whose message is one of five
    messages of the lexer, that of [float] (which shows the text it
    refuses) or that of [int] (without context), or one of five messages
    of the parser (with the context of [_error]).  In particular the
    errors [Too short to be valid] and [Invalid unicode sequence], which
    the source also has, are never raised. *)
Theorem X15_errors_of_loads (token_init token_repr depth : nat) (json : string)
    (e : exn Pyson3.Token) :
  Pyson3.Stack.loads token_init token_repr depth json = Raise e ->
  known_error e /\
  e <> ValueError (Plain "Invalid unicode sequence") /\
  (forall prior_tokens i value,
      e <> ValueError (Context "Too short to be valid" prior_tokens i value)).
Proof.
  intros H.
  assert (Hknown : known_error e).
  { destruct (refines_loads3 token_init token_repr depth json) as [H' | H'];
      rewrite H' in H.
    - injection H as <-. exact I.
    - apply (loads_known_error _ _ H). }
  split; [exact Hknown |]. split.
  - intros ->. simpl in Hknown.
    destruct Hknown as [H' | [[text H'] | H']]; [intuition discriminate | | discriminate H'].
    unfold float_message in H'. simpl in H'. discriminate H'.
  - intros prior i value ->. simpl in Hknown. intuition discriminate.
Qed.

Lemma X15_errors_of_loads_witness :
  known_error (ValueError (Context "Invalid input" [] 1 (Pyson3.mkToken R_BRACKET 4 5))) /\
  ValueError (Context "Invalid input" [] 1 (Pyson3.mkToken R_BRACKET 4 5))
    <> ValueError (Plain "Invalid unicode sequence") /\
  (forall prior_tokens i value,
      ValueError (Context "Invalid input" [] 1 (Pyson3.mkToken R_BRACKET 4 5))
        <> ValueError (Context "Too short to be valid" prior_tokens i value)).
Proof.
  apply (X15_errors_of_loads 1 3 7 "true]"). reflexivity.
Defined.

(** ** Unterminated string literals *)

Lemma lex_step_None (json : string) (i i' : nat) :
  Pyson3.lex_step json i = Ok (None, i') -> i' = i + 1.
Proof.
  unfold Pyson3.lex_step, str_index. intros H.
  destruct (String.get i json) as [v |]; cbn [bind] in H; [| discriminate].
  split_ifs H; try discriminate H.
  - apply bind_ok_inv in H. destruct H as (? & _ & H). discriminate H.
  - apply bind_ok_inv in H. destruct H as (? & _ & H). discriminate H.
  - injection H as <-. reflexivity.
Qed.

(** No token but a STRING token spans a quote character. *)
Lemma token_no_quote (json : string) (t : Pyson3.Token) (p : nat) :
  kind_text json t -> Pyson3.type t <> STRING ->
  Pyson3.start t <= p < Pyson3.end_ t ->
  String.get p json <> Some dquote.
Proof.
  intros Hkind Hty Hp Hq.
  assert (Hget : String.get (p - Pyson3.start t) (Pyson3.get_string json t) = Some dquote).
  { unfold Pyson3.get_string, str_slice.
    rewrite String.substring_correct1 by lia.
    replace (p - Pyson3.start t + Pyson3.start t) with p by lia. exact Hq. }
  unfold kind_text in Hkind.
  destruct (Pyson3.type t); try congruence;
    try (cbv zeta in Hkind; rewrite Hkind in Hget;
         destruct (p - Pyson3.start t) as [| [| [| [| [| k]]]]]; discriminate Hget).
  - apply Hkind in Hget. discriminate Hget.
  - cbv zeta in Hkind. destruct Hkind as [Hk | Hk]; rewrite Hk in Hget;
      destruct (p - Pyson3.start t) as [| [| [| [| [| k]]]]]; discriminate Hget.
Qed.

Lemma lex_loop_one_quote (json : string) (p : nat) :
  String.get p json = Some dquote ->
  (forall k, k <> p -> String.get k json <> Some dquote) ->
  forall fuel acc i tokens, i <= p -> Pyson3.lex_loop fuel json acc i <> Ok tokens.
Proof.
  intros Hp Hone. induction fuel as [| fuel IH]; intros acc i tokens Hi H; [discriminate |].
  simpl in H. pose proof (get_Some_lt _ _ _ Hp) as Hlen.
  assert (Hguard : (i <? String.length json)%nat = true) by (apply Nat.ltb_lt; lia).
  rewrite Hguard in H.
  apply bind_ok_inv in H. destruct H as ([tok i'] & Hs & H).
  assert (Hnext : i' <= p).
  { destruct tok as [t |].
    - pose proof (lex_step_Ok json i i' (Some t) Hs) as [_ Hspan].
      pose proof (lex_step_token json i i' t Hs) as (Hst & Hen & Hlt & _ & Hkind).
      destruct (Nat.le_gt_cases i' p) as [Hle | Hgt]; [exact Hle | exfalso].
      destruct (TokenType_eqb (Pyson3.type t) STRING) eqn:Hty.
      + apply TokenType_eqb_eq in Hty.
        destruct (Hspan t eq_refl Hty) as (Hlen2 & _ & Hfirst & Hlast).
        destruct (Nat.eq_dec (Pyson3.start t) p) as [Heq | Hne].
        * apply (Hone (Pyson3.end_ t - 1)); [lia | exact Hlast].
        * apply (Hone _ Hne Hfirst).
      + apply (token_no_quote json t p Hkind); [| lia | exact Hp].
        intros Heq. apply TokenType_eqb_eq in Heq. congruence.
    - destruct (Nat.eq_dec i p) as [-> | Hne]; [exfalso | apply lex_step_None in Hs; lia].
      unfold Pyson3.lex_step, str_index in Hs. rewrite Hp in Hs. cbn [bind] in Hs.
      replace (Ascii.eqb dquote "{") with false in Hs by reflexivity.
      replace (Ascii.eqb dquote "}") with false in Hs by reflexivity.
      replace (Ascii.eqb dquote "[") with false in Hs by reflexivity.
      replace (Ascii.eqb dquote "]") with false in Hs by reflexivity.
      replace (Ascii.eqb dquote ":") with false in Hs by reflexivity.
      replace (Ascii.eqb dquote ",") with false in Hs by reflexivity.
      replace (Ascii.eqb dquote "t") with false in Hs by reflexivity.
      replace (Ascii.eqb dquote "f") with false in Hs by reflexivity.
      replace (Ascii.eqb dquote "n") with false in Hs by reflexivity.
      rewrite Ascii.eqb_refl in Hs.
      apply bind_ok_inv in Hs. destruct Hs as (? & _ & Hs). discriminate Hs. }
  destruct tok; apply (IH _ _ _ Hnext H).
Qed.

(** X16: a text with exactly one quote character cannot be read: the
    string literal that the quote opens is never closed, and [lex] (so
    [loads] too) raises. *)
Theorem X16_unterminated_string (json : string) (p : nat) :
  String.get p json = Some dquote ->
  (forall k, k <> p -> String.get k json <> Some dquote) ->
  raised (Pyson3.lex json) /\ raised (Pyson3.loads json).
Proof.
  intros Hp Hone.
  assert (Hlex : raised (Pyson3.lex json)).
  { pose proof (lex_loop_one_quote json p Hp Hone (S (String.length json)) [] 0) as Hno.
    pose proof (lex_total json) as Htotal. unfold Pyson3.lex in *.
    destruct (Pyson3.lex_loop (S (String.length json)) json [] 0) as [ts | e |].
    - exfalso. apply (Hno ts); [lia | reflexivity].
    - exists e. reflexivity.
    - congruence. }
  split; [exact Hlex |].
  destruct Hlex as [e He]. exists e.
  unfold Pyson3.loads, Pyson3.parse. rewrite He. reflexivity.
Qed.

Lemma X16_unterminated_string_witness :
  raised (Pyson3.lex (dq "[1, 'ab]")) /\ raised (Pyson3.loads (dq "[1, 'ab]")).
Proof.
  refine (X16_unterminated_string (dq "[1, 'ab]") 4 _ _); [reflexivity |].
  intros k Hk.
  do 8 (destruct k as [| k]; [try discriminate; congruence |]).
  discriminate.
Defined.
